(** * A shallow embedding of the interactive shell (main.c)

    The development follows the four components of the program:
    the history store ([add_to_history], [show_history]), the raw-mode line
    editor ([read_line]), the parser ([parse_pipeline]) and the pipeline
    executor ([execute_command], [execute_pipeline]).

    Conventions.
    - A C [int] is a [Z]; the one counter that is incremented without a
      bound, [history_count], wraps around past [INT_MAX] ([wrap_int]).
    - A [char *] that points to a NUL-terminated string is modelled by the
      characters before the NUL ([cstring]); [NULL] is [None].
    - A fixed-size array is a list of that size, read with [aget]; a read
      outside the array has no defined result and is reported as such. *)

From Stdlib Require Import ZArith Ascii String DecimalString.
From stdpp Require Import base tactics option list strings.

Local Open Scope Z_scope.

(** ** Constants of main.c *)

Definition MAX_ARGS : Z := 64.
Definition MAX_CMD_LEN : Z := 1024.
Definition MAX_PIPES : Z := 10.
Definition MAX_HISTORY : Z := 100.

Definition STDIN_FILENO : Z := 0.
Definition STDOUT_FILENO : Z := 1.

(** The largest [int] of the platform (32 bits, two's complement). *)
Definition INT_MAX : Z := 2147483647.

(** The value an [int] takes when arithmetic leaves its range: it wraps
    around, as the compiled program does ([INT_MAX + 1] is [- INT_MAX - 1]). *)
Definition wrap_int (z : Z) : Z :=
  (z + 2147483648) `mod` 4294967296 - 2147483648.

(** ** C strings and arrays *)

Abbreviation cstring := (list ascii) (only parsing).

Definition NUL : ascii := Ascii.zero.

(** [a[i]] for a C array: defined only inside the array. *)
Definition aget {A} (a : list A) (i : Z) : option A :=
  if decide (0 ≤ i) then a !! Z.to_nat i else None.

(** [a[i] = x], used at indices the code keeps inside the array. *)
Definition aset {A} (a : list A) (i : Z) (x : A) : list A :=
  <[Z.to_nat i := x]> a.

(** ** History store *)

Record history_store := HistoryStore {
  history : list (option cstring);
  history_count : Z
}.

(** The globals are zero-initialised: a hundred NULL slots, count 0. *)
Definition history_init : history_store :=
  HistoryStore (replicate (Z.to_nat MAX_HISTORY) None) 0.

(** [for (i = 0; i < n; i++) history[i] = history[i+1];] *)
Definition shift_upto (n : nat) (h : list (option cstring))
  : list (option cstring) :=
  foldl (λ a i, <[i := default None (a !! S i)]> a) h (seq 0 n).

Definition shift_history (h : list (option cstring)) : list (option cstring) :=
  shift_upto (Z.to_nat (MAX_HISTORY - 1)) h.

(** [add_to_history]: an empty command changes nothing; any other goes to
    [history[history_count]] or, from a hundred lines on, to the last slot
    after the shift, and [history_count++] follows, wrapping around past
    [INT_MAX].  The index [history_count] is inside the array while the
    counter is not negative, as it is from [history_init] until it wraps. *)
Definition add_to_history (cmd : cstring) (s : history_store) : history_store :=
  match cmd with
  | [] => s
  | _ :: _ =>
      if decide (history_count s < MAX_HISTORY) then
        HistoryStore (aset (history s) (history_count s) (Some cmd))
                     (wrap_int (history_count s + 1))
      else
        HistoryStore (aset (shift_history (history s)) (MAX_HISTORY - 1) (Some cmd))
                     (wrap_int (history_count s + 1))
  end.

(** One printed row of [show_history]: the number given to [%d] and the
    pointer given to [%s] ([None] when that slot holds NULL). *)
Definition history_row : Type := Z * option cstring.

Definition show_history (s : history_store) : list history_row :=
  let start :=
    if decide (history_count s > MAX_HISTORY)
    then history_count s - MAX_HISTORY else 0 in
  (λ i, (i + 1, mjoin (aget (history s) (i `mod` MAX_HISTORY))))
    <$> seqZ start (history_count s - start).

(** Submitting lines one after the other. *)
Definition submit_all (lines : list cstring) : history_store :=
  foldl (λ s l, add_to_history l s) history_init lines.

(** The entries the store is meant to keep: the last hundred. *)
Definition retained (lines : list cstring) : list cstring :=
  drop (length lines - Z.to_nat MAX_HISTORY)%nat lines.

(** The array once [lines] have been submitted, as it should be: the
    retained lines in submission order, then the slots still NULL. *)
Definition stored (lines : list cstring) : list (option cstring) :=
  (Some <$> retained lines)
  ++ replicate (Z.to_nat MAX_HISTORY - length (retained lines))%nat None.

(** The listing as the specification words it: the retained lines,
    oldest first, numbered from 1. *)
Definition listing_as_specified (lines : list cstring) : list history_row :=
  zip (seqZ 1 (Z.of_nat (length (retained lines)))) (Some <$> retained lines).

Definition cmd_line (n : nat) : cstring :=
  list_ascii_of_string ("cmd" ++ NilEmpty.string_of_uint (Nat.to_uint n)).

Definition lines101 : list cstring := cmd_line <$> seq 1 101.

(** ** Character buffers *)

(** The string a buffer holds: its bytes before the first NUL. *)
Fixpoint until_nul (b : list ascii) : cstring :=
  match b with
  | [] => []
  | c :: b' => if decide (c = NUL) then [] else c :: until_nul b'
  end.

(** [strlen] of a buffer; undefined when the buffer holds no NUL. *)
Definition strlen (b : list ascii) : option Z :=
  if decide (NUL ∈ b) then Some (Z.of_nat (length (until_nul b))) else None.

(** What [printf("%s", b)] and [strdup(b)] read from a buffer. *)
Definition string_at (b : list ascii) : option cstring :=
  if decide (NUL ∈ b) then Some (until_nul b) else None.

(** [strncpy(dst, src, n)] into a buffer of [n] bytes: the source string,
    padded with NULs, cut at [n] bytes. *)
Definition strncpy (src : cstring) (n : Z) : list ascii :=
  take (Z.to_nat n) (src ++ replicate (Z.to_nat n) NUL).

(** [b[i] = c], inside the buffer only. *)
Definition bset (b : list ascii) (i : Z) (c : ascii) : option (list ascii) :=
  if decide (0 ≤ i < Z.of_nat (length b))
  then Some (<[Z.to_nat i := c]> b) else None.

(** [memmove(&b[dst], &b[src], n)], source and destination inside [b]. *)
Definition memmove (b : list ascii) (dst src n : Z) : option (list ascii) :=
  if decide (0 ≤ dst ∧ 0 ≤ src ∧ 0 ≤ n ∧
             dst + n ≤ Z.of_nat (length b) ∧ src + n ≤ Z.of_nat (length b))
  then Some (take (Z.to_nat dst) b
             ++ take (Z.to_nat n) (drop (Z.to_nat src) b)
             ++ drop (Z.to_nat (dst + n)) b)
  else None.

Definition chars (s : string) : cstring := list_ascii_of_string s.

Definition fmt_d (z : Z) : cstring :=
  chars (NilZero.string_of_int (Z.to_int z)).

(** ** Terminal *)

(** Only [c_lflag] is read or written by the program. *)
Record termios := Termios { c_lflag : Z }.

(** Values of <termios.h> on Linux. *)
Definition ICANON : Z := 2.
Definition ECHO : Z := 8.

Definition ESC : ascii := ascii_of_nat 27.
Definition LF : ascii := ascii_of_nat 10.

Definition code (c : ascii) : Z := Z.of_nat (nat_of_ascii c).

(** [isprint] in the C locale: the bytes from 32 to 126. *)
Definition isprint (c : ascii) : bool :=
  bool_decide (32 ≤ code c ≤ 126).

(** The part of the process state [read_line] works on. *)
Record world := World {
  term : termios;               (* attributes of the terminal *)
  orig_termios : termios;       (* the global of that name *)
  tc_log : list termios;        (* arguments of the tcsetattr calls so far *)
  stdout : list cstring;        (* what was printed, one item per printf *)
  hist : history_store
}.

Definition printf (s : cstring) (w : world) : world :=
  World (term w) (orig_termios w) (tc_log w) (stdout w ++ [s]) (hist w).

Definition tcsetattr (t : termios) (w : world) : world :=
  World t (orig_termios w) (tc_log w ++ [t]) (stdout w) (hist w).

Definition raw_of (t : termios) : termios :=
  Termios (Z.land (c_lflag t) (Z.lnot (Z.lor ICANON ECHO))).

Definition disableRawMode (w : world) : world :=
  tcsetattr (orig_termios w) w.

Definition enableRawMode (w : world) : world :=
  let w1 := World (term w) (term w) (tc_log w) (stdout w) (hist w) in
  tcsetattr (raw_of (orig_termios w1)) w1.

(** ** Line editor *)

(** The locals of [read_line]. *)
Record editor := Editor {
  line : list ascii;
  saved_line : list ascii;
  len : Z;
  pos : Z;
  history_index : Z
}.

Definition editor_init : editor :=
  Editor (replicate (Z.to_nat MAX_CMD_LEN) NUL)
         (replicate (Z.to_nat MAX_CMD_LEN) NUL) 0 0 0.

Definition prompt : cstring := chars "myshell> ".
Definition clear_line : cstring := ESC :: chars "[2K" ++ [ascii_of_nat 13].

(** The two printfs that redraw the prompt and the buffer. *)
Definition redraw (b : list ascii) (w : world) : option world :=
  s ← string_at b; Some (printf (prompt ++ s) (printf clear_line w)).

Definition place_cursor (p : Z) (w : world) : world :=
  printf (ESC :: chars "[" ++ fmt_d (p + 8 + 1) ++ chars "G") w.

(** The index the recall code reads [history] at. *)
Definition recall_index (h : history_store) (hidx : Z) : Z :=
  let idx := history_count h - hidx in
  if decide (idx < 0) then 0 else idx.

(** [strncpy(line, history[idx], MAX_CMD_LEN); len = strlen(line); pos = len;] *)
Definition load_entry (h : history_store) (idx : Z) (e : editor) : option editor :=
  slot ← aget (history h) idx;
  entry ← slot;
  let b := strncpy entry MAX_CMD_LEN in
  n ← strlen b;
  Some (Editor b (saved_line e) n n (history_index e)).

(** case 'A' *)
Definition arrow_up (w : world) (e : editor) : option (world * editor) :=
  if decide (history_index e < history_count (hist w)) then
    let saved :=
      if decide (history_index e = 0)
      then strncpy (until_nul (line e)) MAX_CMD_LEN else saved_line e in
    let e1 := Editor (line e) saved (len e) (pos e) (history_index e + 1) in
    let idx := recall_index (hist w) (history_index e1) in
    if decide (idx < history_count (hist w)) then
      e2 ← load_entry (hist w) idx e1;
      w2 ← redraw (line e2) w;
      Some (w2, e2)
    else Some (w, e1)
  else Some (w, e).

(** case 'B' *)
Definition arrow_down (w : world) (e : editor) : option (world * editor) :=
  if decide (history_index e > 0) then
    let e1 := Editor (line e) (saved_line e) (len e) (pos e) (history_index e - 1) in
    e2 ← (if decide (history_index e1 = 0) then
            let b := strncpy (until_nul (saved_line e1)) MAX_CMD_LEN in
            n ← strlen b;
            Some (Editor b (saved_line e1) n n (history_index e1))
          else
            let idx := recall_index (hist w) (history_index e1) in
            if decide (idx < history_count (hist w))
            then load_entry (hist w) idx e1 else Some e1);
    w2 ← redraw (line e2) w;
    Some (w2, e2)
  else Some (w, e).

(** case 'C' *)
Definition arrow_right (w : world) (e : editor) : world * editor :=
  if decide (pos e < len e) then
    (printf (ESC :: chars "[1C") w,
     Editor (line e) (saved_line e) (len e) (pos e + 1) (history_index e))
  else (w, e).

(** case 'D' *)
Definition arrow_left (w : world) (e : editor) : world * editor :=
  if decide (pos e > 0) then
    (printf (ESC :: chars "[1D") w,
     Editor (line e) (saved_line e) (len e) (pos e - 1) (history_index e))
  else (w, e).

(** [c == 127 || c == 8] *)
Definition backspace (w : world) (e : editor) : option (world * editor) :=
  if decide (pos e > 0 ∧ len e > 0) then
    b1 ← memmove (line e) (pos e - 1) (pos e) (len e - pos e + 1);
    let len' := len e - 1 in
    let pos' := pos e - 1 in
    b2 ← bset b1 len' NUL;
    w1 ← redraw b2 w;
    Some (place_cursor pos' w1,
          Editor b2 (saved_line e) len' pos' (history_index e))
  else Some (w, e).

(** [isprint(c)] *)
Definition insert_char (c : ascii) (w : world) (e : editor)
  : option (world * editor) :=
  if decide (len e < MAX_CMD_LEN - 1) then
    b1 ← memmove (line e) (pos e + 1) (pos e) (len e - pos e + 1);
    b2 ← bset b1 (pos e) c;
    let len' := len e + 1 in
    let pos' := pos e + 1 in
    b3 ← bset b2 len' NUL;
    w1 ← redraw b3 w;
    Some (place_cursor pos' w1,
          Editor b3 (saved_line e) len' pos' (history_index e))
  else Some (w, e).

(** The [switch (seq[1])] after ESC '['. *)
Definition arrow (c : ascii) (w : world) (e : editor) : option (world * editor) :=
  if decide (c = "A"%char) then arrow_up w e
  else if decide (c = "B"%char) then arrow_down w e
  else if decide (c = "C"%char) then Some (arrow_right w e)
  else if decide (c = "D"%char) then Some (arrow_left w e)
  else Some (w, e).

(** A byte that is neither newline nor ESC. *)
Definition plain_key (c : ascii) (w : world) (e : editor) : option (world * editor) :=
  if decide (code c = 127 ∨ code c = 8) then backspace w e
  else if isprint c then insert_char c w e
  else Some (w, e).

Definition set_len (n : Z) (e : editor) : editor :=
  Editor (line e) (saved_line e) n (pos e) (history_index e).

(** The [while (1)] loop of [read_line].  The input is what the successive
    [read(STDIN_FILENO, &c, 1)] calls deliver: [Some c] when a call returns 1
    with byte [c], [None] when it returns anything else; once the list is
    used up every call reports end of input.  The result is the state at
    the [break] and the input left; [None] is undefined behaviour. *)
Fixpoint read_loop (input : list (option ascii)) (w : world) (e : editor)
  : option (world * editor * list (option ascii)) :=
  match input with
  | [] => Some (w, set_len 0 e, [])
  | None :: rest => Some (w, set_len 0 e, rest)
  | Some c :: rest =>
      if decide (c = LF) then Some (printf [LF] w, e, rest)
      else if decide (c = ESC) then
        match rest with
        | [] => Some (w, e, [])
        | None :: rest1 => Some (w, e, rest1)
        | Some s0 :: [] => Some (w, e, [])
        | Some s0 :: None :: rest2 => Some (w, e, rest2)
        | Some s0 :: Some s1 :: rest2 =>
            if decide (s0 = "["%char) then
              '(w1, e1) ← arrow s1 w e; read_loop rest2 w1 e1
            else read_loop rest2 w e
        end
      else
        '(w1, e1) ← plain_key c w e; read_loop rest w1 e1
  end.

Definition with_hist (h : history_store) (w : world) : world :=
  World (term w) (orig_termios w) (tc_log w) (stdout w) h.

(** [read_line]: the returned string, the world after the call and the
    input left. *)
Definition read_line (input : list (option ascii)) (w : world)
  : option (cstring * world * list (option ascii)) :=
  let w0 := enableRawMode w in
  '(w1, e, input') ← read_loop input w0 editor_init;
  let w2 := disableRawMode w1 in
  s ← string_at (line e);
  let w3 := if decide (len e > 0) then with_hist (add_to_history s (hist w2)) w2
            else w2 in
  Some (s, w3, input').

(** ** Parser *)

Record Command := mkCommand {
  args : list cstring;            (* args[0..i-1]; args[i] is the NULL after them *)
  input_file : option cstring;
  output_file : option cstring;
  append : Z;
  background : Z
}.

Definition is_in (c : ascii) (set : cstring) : bool := bool_decide (c ∈ set).
Global Arguments is_in : simpl never.

(** Length of the longest prefix of [s] made of bytes of [accept]. *)
Fixpoint strspn (s accept : cstring) : nat :=
  match s with
  | c :: s' => if is_in c accept then S (strspn s' accept) else O
  | [] => O
  end.

(** Length of the longest prefix of [s] with no byte of [reject]. *)
Fixpoint strcspn (s reject : cstring) : nat :=
  match s with
  | c :: s' => if is_in c reject then O else S (strcspn s' reject)
  | [] => O
  end.

(** [strtok_r(s, delim, &saveptr)] where [s] is the string scanned (the
    argument, or [*saveptr] when the argument is NULL).  The token, if any,
    and the string [*saveptr] points to afterwards: the delimiter that
    ended the token has been overwritten with a NUL, so the token is a
    string of its own and the scan resumes behind it. *)
Definition strtok_r (s delim : cstring) : option cstring * cstring :=
  let s1 := drop (strspn s delim) s in
  match s1 with
  | [] => (None, [])
  | _ :: _ => let n := strcspn s1 delim in (Some (take n s1), drop (S n) s1)
  end.

(** [strchr(s, c)] as an offset into [s]. *)
Fixpoint strchr (s : cstring) (c : ascii) : option nat :=
  match s with
  | [] => None
  | x :: s' => if decide (x = c) then Some O else S <$> strchr s' c
  end.

Definition SPACE : ascii := " "%char.
Definition TAB : ascii := ascii_of_nat 9.
Definition QUOTE : ascii := ascii_of_nat 34.
Definition blanks : cstring := [SPACE; TAB].

(** [while (end > token && *end == ' ') end--;] with [end] as an offset. *)
Fixpoint trim_end (token : cstring) (e : nat) : nat :=
  match e with
  | O => O
  | S e' => if decide (token !! e = Some SPACE) then trim_end token e' else e
  end.

(** The "Trim whitespace" lines: the string [token] points to afterwards. *)
Definition trim (token : cstring) : cstring :=
  let t := drop (strspn token [SPACE]) token in
  let e := Z.of_nat (length t) - 1 in
  let e' := if decide (e < 0) then e else Z.of_nat (trim_end t (Z.to_nat e)) in
  take (Z.to_nat (e' + 1)) t.

Definition new_command : Command := mkCommand [] None None 0 0.

Definition push_arg (a : cstring) (c : Command) : Command :=
  mkCommand (args c ++ [a]) (input_file c) (output_file c) (append c) (background c).

Definition set_output (f : cstring) (app : Z) (c : Command) : Command :=
  mkCommand (args c) (input_file c) (Some f) app (background c).

Definition set_input (f : cstring) (c : Command) : Command :=
  mkCommand (args c) (Some f) (output_file c) (append c) (background c).

Definition set_background (c : Command) : Command :=
  mkCommand (args c) (input_file c) (output_file c) (append c) 1.

(** The loop [while (arg != NULL && i < MAX_ARGS - 1)]; [i] is the number
    of arguments stored so far, [sp] the string [arg_saveptr] points to.
    [None] only when the fuel does not cover the iterations. *)
Fixpoint parse_args (fuel : nat) (arg : option cstring) (sp : cstring)
    (c : Command) : option Command :=
  match fuel with
  | O => None
  | S fuel' =>
    match arg with
    | None => Some c
    | Some a =>
      if decide (Z.of_nat (length (args c)) < MAX_ARGS - 1) then
        if decide (a = chars ">" ∨ a = chars ">>") then
          let '(file, sp1) := strtok_r sp blanks in
          match file with
          | None => Some c
          | Some f =>
              let file' :=
                match f with
                | q :: _ =>
                    if decide (q = QUOTE) then fst (strtok_r sp1 [QUOTE])
                    else Some f
                | [] => Some f
                end in
              match file' with
              | Some f' =>
                  Some (set_output f' (if decide (a = chars ">>") then 1 else 0) c)
              | None => Some c
              end
          end
        else if decide (a = chars "<") then
          match fst (strtok_r sp blanks) with
          | Some f => Some (set_input f c)
          | None => Some c
          end
        else if decide (a = chars "&") then
          let '(arg', sp') := strtok_r sp blanks in
          parse_args fuel' arg' sp' (set_background c)
        else
          match a with
          | q :: body =>
              match (if decide (q = QUOTE) then strchr body QUOTE else None) with
              | Some k =>
                  parse_args fuel' (Some (drop (S k) body)) sp
                             (push_arg (take k body) c)
              | None =>
                  let '(arg', sp') := strtok_r sp blanks in
                  parse_args fuel' arg' sp' (push_arg a c)
              end
          | [] =>
              let '(arg', sp') := strtok_r sp blanks in
              parse_args fuel' arg' sp' (push_arg a c)
          end
      else Some c
    end
  end.

(** From "Command initialization" to [cmd_count++], for a trimmed token. *)
Definition parse_command (token : cstring) : option Command :=
  let '(arg, sp) := strtok_r token blanks in
  parse_args (2 * length token + 1) arg sp new_command.

(** The loop [while (token != NULL && cmd_count < MAX_PIPES)]; [sp] is the
    string [saveptr] points to. *)
Fixpoint parse_segments (fuel : nat) (token : option cstring) (sp : cstring)
    (pipeline : list Command) : option (list Command) :=
  match fuel with
  | O => None
  | S fuel' =>
    match token with
    | None => Some pipeline
    | Some tok =>
      if decide (Z.of_nat (length pipeline) < MAX_PIPES) then
        let tok' := trim tok in
        let '(next, sp') := strtok_r sp (chars "|") in
        match tok' with
        | [] => parse_segments fuel' next sp' pipeline
        | _ :: _ =>
            c ← parse_command tok';
            parse_segments fuel' next sp' (pipeline ++ [c])
        end
      else Some pipeline
    end
  end.

(** [parse_pipeline(line, pipeline)]: the entries [pipeline[0..cmd_count-1]]
    it leaves; [cmd_count] is their number. *)
Definition parse_pipeline (line : cstring) : option (list Command) :=
  let line_copy := until_nul line in
  let '(token, sp) := strtok_r line_copy (chars "|") in
  parse_segments (length line_copy + 1) token sp [].

(** ** Executor *)

(** The loop at the head of [execute_command]: an argument of two bytes or
    more that starts and ends with a quote loses both. *)
Definition unquote (a : cstring) : cstring :=
  if decide (2 ≤ Z.of_nat (length a) ∧ head a = Some QUOTE ∧ last a = Some QUOTE)
  then take (length a - 2)%nat (drop 1 a) else a.

(** What an open descriptor refers to. *)
Inductive ofile :=
  | Terminal
  | FileRead (path : cstring)                 (* open(path, O_RDONLY) *)
  | FileWrite (path : cstring) (app : Z)      (* O_WRONLY|O_CREAT|O_APPEND or O_TRUNC *)
  | PipeRead (id : nat)
  | PipeWrite (id : nat).

Global Instance ofile_eq_dec : EqDecision ofile.
Proof. solve_decision. Defined.

(** A descriptor table: slot [fd] is [Some f] when [fd] is open on [f]. *)
Abbreviation fdtable := (list (option ofile)) (only parsing).

Definition fd_lookup (t : fdtable) (fd : nat) : option ofile := mjoin (t !! fd).

(** New descriptors are the lowest unused ones. *)
Fixpoint lowest_free (t : fdtable) : nat :=
  match t with
  | Some _ :: t' => S (lowest_free t')
  | _ => O
  end.

Definition fd_install (t : fdtable) (fd : nat) (f : ofile) : fdtable :=
  <[fd := Some f]> (t ++ replicate (S fd - length t) None).

Definition close (fd : nat) (t : fdtable) : fdtable := <[fd := None]> t.

Definition dup2 (old new : nat) (t : fdtable) : fdtable :=
  match fd_lookup t old with
  | Some f => fd_install t new f
  | None => t
  end.

Definition stdin_fd : nat := Z.to_nat STDIN_FILENO.
Definition stdout_fd : nat := Z.to_nat STDOUT_FILENO.

(** What the system answers: whether the [n]-th pipe can be created and
    which files can be opened. *)
Record os_env := OsEnv {
  pipe_ok : nat → bool;
  can_read : cstring → bool;
  can_write : cstring → bool
}.

(** How a forked child ends up: it leaves with EXIT_FAILURE before the
    program is started, or it reaches [execvp] with a descriptor table. *)
Inductive child :=
  | ChildExit (msg : cstring)
  | ChildExec (argv : list cstring) (table : fdtable).

(** [open] followed by [dup2(fd, target); close(fd);] *)
Definition redirect (f : ofile) (target : nat) (t : fdtable) : fdtable :=
  let fd := lowest_free t in
  close fd (dup2 fd target (fd_install t fd f)).

(** [for (i = 3; i < sysconf(_SC_OPEN_MAX); i++) close(i);] *)
Definition close_from_3 (t : fdtable) : fdtable := take 3 t.

(** [if (cmd->input_file) { open; dup2(fd, STDIN_FILENO); close(fd); }];
    [None] when [open] fails and the child exits. *)
Definition redirect_input (env : os_env) (cmd : Command) (t : fdtable)
  : option fdtable :=
  match input_file cmd with
  | Some f => if can_read env f
              then Some (redirect (FileRead f) stdin_fd t) else None
  | None => Some t
  end.

(** [if (cmd->output_file) { open; dup2(fd, STDOUT_FILENO); close(fd); }] *)
Definition redirect_output (env : os_env) (cmd : Command) (t : fdtable)
  : option fdtable :=
  match output_file cmd with
  | Some f =>
      if can_write env f
      then Some (redirect
                   (FileWrite f (if decide (append cmd = 0) then 0 else 1))
                   stdout_fd t)
      else None
  | None => Some t
  end.

(** [if (fd != std) { dup2(fd, std); close(fd); }] *)
Definition use_fd (fd std : nat) (t : fdtable) : fdtable :=
  if decide (fd ≠ std) then close fd (dup2 fd std t) else t.

(** The [pid == 0] branch of [execute_command], on the child's copy of
    the descriptor table. *)
Definition child_run (env : os_env) (cmd : Command) (argv : list cstring)
    (input_fd output_fd : nat) (t : fdtable) : child :=
  match redirect_input env cmd t with
  | None => ChildExit (chars "open input failed")
  | Some t1 =>
    match redirect_output env cmd t1 with
    | None => ChildExit (chars "open output failed")
    | Some t2 =>
        ChildExec argv
          (close_from_3
             (use_fd output_fd stdout_fd (use_fd input_fd stdin_fd t2)))
    end
  end.

(** The shell process as the executor sees it. *)
Record shell := Shell {
  fds : fdtable;
  pipes_made : nat;           (* pipes created so far *)
  children : list child;      (* forked and not yet waited for *)
  reaped : list child;        (* returned by waitpid *)
  wait_calls : nat;           (* calls of waitpid *)
  foreground_mode : Z;
  stderr : list cstring
}.

(** [execute_command]: the quote loop, then [fork], taken to succeed; the
    child runs [child_run] on a copy of the table. *)
Definition execute_command (env : os_env) (cmd : Command)
    (input_fd output_fd : nat) (sh : shell) : shell :=
  let argv := unquote <$> args cmd in
  let c := child_run env cmd argv input_fd output_fd (fds sh) in
  Shell (fds sh) (pipes_made sh) (children sh ++ [c]) (reaped sh)
        (wait_calls sh) (foreground_mode sh) (stderr sh).

Definition with_fds (t : fdtable) (sh : shell) : shell :=
  Shell t (pipes_made sh) (children sh) (reaped sh) (wait_calls sh)
        (foreground_mode sh) (stderr sh).

(** [pipe(fd)]: the read and the write end, or [None] for -1. *)
Definition pipe (env : os_env) (sh : shell) : option (nat * nat * shell) :=
  if pipe_ok env (pipes_made sh) then
    let r := lowest_free (fds sh) in
    let t1 := fd_install (fds sh) r (PipeRead (pipes_made sh)) in
    let w := lowest_free t1 in
    let t2 := fd_install t1 w (PipeWrite (pipes_made sh)) in
    Some (r, w, Shell t2 (S (pipes_made sh)) (children sh) (reaped sh)
                      (wait_calls sh) (foreground_mode sh) (stderr sh))
  else None.

Definition perror (msg : cstring) (sh : shell) : shell :=
  Shell (fds sh) (pipes_made sh) (children sh) (reaped sh) (wait_calls sh)
        (foreground_mode sh) (stderr sh ++ [msg]).

(** The [for] loop of [execute_pipeline] over the stages from [i] on.
    [inl] is the early [return] after a failed [pipe], [inr] the normal
    end of the loop. *)
Fixpoint spawn_stages (env : os_env) (stages : list Command) (input_fd : nat)
    (sh : shell) : shell + shell :=
  match stages with
  | [] => inr sh
  | cmd :: rest =>
      match rest with
      | [] =>
          let sh1 := execute_command env cmd input_fd stdout_fd sh in
          let sh2 := if decide (input_fd ≠ stdin_fd)
                     then with_fds (close input_fd (fds sh1)) sh1 else sh1 in
          inr sh2
      | _ :: _ =>
          match pipe env sh with
          | None => inl (perror (chars "pipe failed") sh)
          | Some (r, w, sh0) =>
              let sh1 := execute_command env cmd input_fd w sh0 in
              let sh2 := if decide (input_fd ≠ stdin_fd)
                         then with_fds (close input_fd (fds sh1)) sh1 else sh1 in
              let sh3 := with_fds (close w (fds sh2)) sh2 in
              spawn_stages env rest r sh3
          end
      end
  end.

(** One call [waitpid(-1, &status, 0)]: it hands back a child that has
    ended, or fails when there is none left. *)
Definition waitpid (sh : shell) : option child * shell :=
  match children sh with
  | [] => (None,
           Shell (fds sh) (pipes_made sh) [] (reaped sh) (S (wait_calls sh))
                 (foreground_mode sh) (stderr sh))
  | c :: cs => (Some c,
                Shell (fds sh) (pipes_made sh) cs (reaped sh ++ [c])
                      (S (wait_calls sh)) (foreground_mode sh) (stderr sh))
  end.

(** [while (waitpid(-1, &status, 0) > 0);] *)
Fixpoint wait_loop (fuel : nat) (sh : shell) : option shell :=
  match fuel with
  | O => None
  | S fuel' =>
      match waitpid sh with
      | (Some _, sh') => wait_loop fuel' sh'
      | (None, sh') => Some sh'
      end
  end.

Definition set_foreground (v : Z) (sh : shell) : shell :=
  Shell (fds sh) (pipes_made sh) (children sh) (reaped sh) (wait_calls sh)
        v (stderr sh).

(** [execute_pipeline(pipeline, cmd_count)] on the entries
    [pipeline[0..cmd_count-1]].  [None]: the read of [pipeline[cmd_count-1]]
    falls outside the array (no stage). *)
Definition execute_pipeline (env : os_env) (pipeline : list Command)
    (sh : shell) : option shell :=
  match spawn_stages env pipeline stdin_fd sh with
  | inl sh' => Some sh'
  | inr sh' =>
      lastc ← aget pipeline (Z.of_nat (length pipeline) - 1);
      if decide (background lastc = 0) then
        sh'' ← wait_loop (S (length (children sh'))) sh';
        Some (set_foreground 1 sh'')
      else Some (set_foreground 0 sh')
  end.

(** The shell as started from a terminal. *)
Definition shell_init : shell :=
  Shell [Some Terminal; Some Terminal; Some Terminal] 0 [] [] 0 1 [].

(** ** Well-formed states *)

(** A buffer of [MAX_CMD_LEN] bytes made of a string of fewer than
    [MAX_CMD_LEN] bytes followed by NULs only. *)
Definition wf_buffer (b : list ascii) : Prop :=
  b = strncpy (until_nul b) MAX_CMD_LEN
  ∧ Z.of_nat (length (until_nul b)) < MAX_CMD_LEN.

(** A slot of [history] that holds a string [read_line] can have produced. *)
Definition entry_ok (slot : option cstring) : Prop :=
  match slot with
  | Some s => Z.of_nat (length s) < MAX_CMD_LEN ∧ NUL ∉ s
  | None => False
  end.

Global Instance entry_ok_dec slot : Decision (entry_ok slot).
Proof. destruct slot; simpl; apply _. Defined.

(** The slots below [min(history_count, MAX_HISTORY)] are filled. *)
Definition history_wf (h : history_store) : Prop :=
  0 ≤ history_count h
  ∧ length (history h) = Z.to_nat MAX_HISTORY
  ∧ Forall entry_ok
      (take (Z.to_nat (history_count h `min` MAX_HISTORY)) (history h)).

(** The editing state between two keystrokes. *)
Definition editor_wf (e : editor) : Prop :=
  wf_buffer (line e)
  ∧ wf_buffer (saved_line e)
  ∧ len e = Z.of_nat (length (until_nul (line e)))
  ∧ 0 ≤ pos e ≤ len e.

(** What C10 asks of the buffer. *)
Definition buffer_safe (e : editor) : Prop :=
  Z.of_nat (length (line e)) = MAX_CMD_LEN
  ∧ 0 ≤ pos e ≤ len e
  ∧ len e ≤ MAX_CMD_LEN - 1
  ∧ aget (line e) (len e) = Some NUL.

(** Everything of the world but what was printed. *)
Definition same_but_stdout (w w' : world) : Prop :=
  term w' = term w ∧ orig_termios w' = orig_termios w
  ∧ tc_log w' = tc_log w ∧ hist w' = hist w.

(** ** Sample states and inputs *)

(** A terminal in its usual line mode (ISIG, ICANON, ECHO, ...). *)
Definition cooked : termios := Termios 35387.

Definition world_with (h : history_store) : world := World cooked cooked [] [] h.

Definition keys (s : string) : list (option ascii) := Some <$> chars s.
Definition key_up : list (option ascii) := [Some ESC; Some "["%char; Some "A"%char].
Definition key_down : list (option ascii) := [Some ESC; Some "["%char; Some "B"%char].
Definition key_left : list (option ascii) := [Some ESC; Some "["%char; Some "D"%char].

(** [n] calls of [read_line] in a row, as the loop of [main] makes them
    (what [main] does between two calls touches neither the history nor the
    terminal): the lines returned, the world and the input left. *)
Fixpoint read_lines (n : nat) (input : list (option ascii)) (w : world)
  : option (list cstring * world * list (option ascii)) :=
  match n with
  | O => Some ([], w, input)
  | S n' =>
      '(s, w1, input1) ← read_line input w;
      '(ls, w2, input2) ← read_lines n' input1 w1;
      Some (s :: ls, w2, input2)
  end.

(** The bytes of lines typed one after the other, each ended by Enter. *)
Definition typed (lines : list cstring) : list (option ascii) :=
  lines ≫= λ l, (Some <$> l) ++ [Some LF].

(** The state after typing [ab] and moving one step to the left, with one
    line in the history. *)
Definition typed_ab_left : option (world * editor) :=
  '(w1, e1) ← plain_key "a"%char (world_with (submit_all [cmd_line 1])) editor_init;
  '(w2, e2) ← plain_key "b"%char w1 e1;
  arrow "D"%char w2 e2.

(** Up, then Down. *)
Definition up_down (w : world) (e : editor) : option (world * editor) :=
  '(w1, e1) ← arrow_up w e; arrow_down w1 e1.

(** The round trip as C8 words it: buffer, length and cursor all as before
    the recall. *)
Definition recall_round_trip (w : world) (e : editor) : Prop :=
  ∃ w2 e2, up_down w e = Some (w2, e2)
           ∧ line e2 = line e ∧ len e2 = len e ∧ pos e2 = pos e.

(** The buffer holding [ab], cursor between the two letters. *)
Definition editor_ab : editor :=
  Editor (strncpy (chars "ab") MAX_CMD_LEN)
         (replicate (Z.to_nat MAX_CMD_LEN) NUL) 2 1 0.

(** ** The words of a segment *)

(** The maximal runs of bytes of a string that are not in [delim], in
    order: the pieces a split on [delim] yields, empty ones left out. *)
Fixpoint tokens_by (delim s : cstring) : list cstring :=
  match s with
  | [] => []
  | c :: s' =>
      if is_in c delim then tokens_by delim s'
      else
        match s' with
        | [] => [[c]]
        | c' :: _ =>
            if is_in c' delim then [c] :: tokens_by delim s'
            else match tokens_by delim s' with
                 | t :: ts => (c :: t) :: ts
                 | [] => [[c]]
                 end
        end
  end.

(** The words of a segment: what "tokenize on whitespace" yields. *)
Abbreviation tokens := (tokens_by blanks).

(** The segments of a line that become Stages: the pieces between pipe
    symbols, trimmed, the empty ones dropped. *)
Definition segments (line : cstring) : list cstring :=
  filter (λ seg, seg ≠ []) (trim <$> tokens_by (chars "|") (until_nul line)).

Definition LT : ascii := "<"%char.
Definition GT : ascii := ">"%char.

(** The three redirection operators. *)
Definition is_redirection (a : cstring) : Prop :=
  a = chars "<" ∨ a = chars ">" ∨ a = chars ">>".

(** A token without [<] and [>]. *)
Definition quiet (a : cstring) : Prop := (LT ∉ a) ∧ (GT ∉ a).

(** [a] is an operator of the stream [op] redirects: [<] for the input,
    [>] and [>>] for the output. *)
Definition same_stream (op a : cstring) : Prop :=
  (op = chars "<" ∧ a = chars "<")
  ∨ ((op = chars ">" ∨ op = chars ">>") ∧ (a = chars ">" ∨ a = chars ">>")).

Global Instance same_stream_dec op a : Decision (same_stream op a).
Proof. unfold same_stream. apply _. Defined.

(** The file field of a Stage for the stream [op] redirects. *)
Definition stream_file (op : cstring) (c : Command) : option cstring :=
  if decide (op = chars "<") then input_file c else output_file c.

(** The values [arg] takes while the loop works on one token: the token
    itself and, each time a quoted part is split off ([arg = end_quote + 1]),
    what is left of it.  [n] bounds the number of splits. *)
Fixpoint tested (n : nat) (w : cstring) : list cstring :=
  match n with
  | O => []
  | S n' =>
      w :: match w with
           | q :: body =>
               match (if decide (q = QUOTE) then strchr body QUOTE else None) with
               | Some k => tested n' (drop (S k) body)
               | None => []
               end
           | [] => []
           end
  end.

Definition tested_args (w : cstring) : list cstring := tested (S (length w)) w.

(** No value tested for the tokens [ws] is an operator of the stream of
    [op]: no redirection of that stream comes before. *)
Definition stream_untouched (op : cstring) (ws : list cstring) : Prop :=
  Forall (λ w, Forall (λ a, ¬ same_stream op a) (tested_args w)) ws.

(** What bounds the iterations of the argument loop. *)
Definition args_measure (arg : option cstring) (sp : cstring) : nat :=
  match arg with
  | Some a => (1 + length a + 2 * length sp)%nat
  | None => 0%nat
  end.

(** [echo "a b"], [echo "abc"] and [ls "dir"] as typed. *)
Definition echo_quoted_a_b : cstring :=
  chars "echo " ++ [QUOTE] ++ chars "a b" ++ [QUOTE].
Definition echo_quoted_abc : cstring :=
  chars "echo " ++ [QUOTE] ++ chars "abc" ++ [QUOTE].
Definition ls_quoted_dir : cstring :=
  chars "ls " ++ [QUOTE] ++ chars "dir" ++ [QUOTE].

(** The argument vector [execvp] receives for a stage. *)
Definition argv_of (c : Command) : list cstring := unquote <$> args c.

(** ** Wiring as the specification orders it *)

(** Standard input of a stage: the pipe from the stage before it when
    there is one, else the file named after [<], else what the shell has. *)
Definition wired_stdin (inherited : ofile) (from_pipe : option ofile)
    (cmd : Command) : ofile :=
  match from_pipe with
  | Some p => p
  | None => match input_file cmd with
            | Some f => FileRead f
            | None => inherited
            end
  end.

(** Standard output of a stage: the pipe to the next stage when there is
    one, else the file named after [>] or [>>], else what the shell has. *)
Definition wired_stdout (inherited : ofile) (to_pipe : option ofile)
    (cmd : Command) : ofile :=
  match to_pipe with
  | Some p => p
  | None => match output_file cmd with
            | Some f => FileWrite f (if decide (append cmd = 0) then 0 else 1)
            | None => inherited
            end
  end.

(** Both [open] calls of the child succeed. *)
Definition opens_ok (env : os_env) (cmd : Command) : bool :=
  match input_file cmd with Some f => can_read env f | None => true end
  && match output_file cmd with Some f => can_write env f | None => true end.

(** A child that was wired as ordered. *)
Definition child_wired (env : os_env) (in0 out0 : ofile)
    (from_pipe to_pipe : option ofile) (cmd : Command) (ch : child) : Prop :=
  match ch with
  | ChildExit _ => opens_ok env cmd = false
  | ChildExec argv t =>
      opens_ok env cmd = true
      ∧ argv = argv_of cmd
      ∧ fd_lookup t stdin_fd = Some (wired_stdin in0 from_pipe cmd)
      ∧ fd_lookup t stdout_fd = Some (wired_stdout out0 to_pipe cmd)
  end.

(** A descriptor handed to [execute_command]: the standard one, or one of
    a pipe end, open in the table. *)
Definition linked (t : fdtable) (std fd : nat) (p : option ofile) : Prop :=
  (fd = std ∧ p = None)
  ∨ ((2 ≤ fd)%nat ∧ ∃ f, p = Some f ∧ fd_lookup t fd = Some f).

(** Where the loop of [execute_pipeline] stopped. *)
Definition outcome (r : shell + shell) : shell :=
  match r with inl sh | inr sh => sh end.

(** The pipe ends stage [j] of [n] is to be linked to, when [made] pipes
    existed before the pipeline and [first] feeds its first stage. *)
Definition pipe_before (made : nat) (first : option ofile) (j : nat)
  : option ofile :=
  match j with
  | O => first
  | S j' => Some (PipeRead (made + j'))
  end.

Definition pipe_after (made n j : nat) : option ofile :=
  if decide (S j = n) then None else Some (PipeWrite (made + j)).

(** ** Sample pipelines *)

Definition simple_command (name : string) (bg : Z) : Command :=
  mkCommand [chars name] None None 0 bg.

(** A system that is out of descriptors: no pipe can be created. *)
Definition env_no_pipes : os_env := OsEnv (λ _, false) (λ _, true) (λ _, true).

Definition env_ok : os_env := OsEnv (λ _, true) (λ _, true) (λ _, true).

(** The shell while an earlier background command is still running. *)
Definition shell_with_job : shell :=
  Shell [Some Terminal; Some Terminal; Some Terminal] 0
        [ChildExec [chars "sleep"; chars "5"]
                   [Some Terminal; Some Terminal; Some Terminal]]
        [] 0 0 [].

(** C3 as worded, for one run: an unset flag on the last stage means every
    outstanding child is reaped and the foreground flag is set. *)
Definition waits_when_foreground (env : os_env) (pipeline : list Command)
    (sh : shell) : Prop :=
  ∀ lastc, last pipeline = Some lastc → background lastc = 0 →
  ∃ sh', execute_pipeline env pipeline sh = Some sh'
         ∧ children sh' = [] ∧ foreground_mode sh' = 1.

(** ** The caller *)

(** [strcmp(pipeline[0].args[0], "exit") == 0] in [main]: there is no
    result when [args[0]] is NULL. *)
Definition first_word_is_exit (pipeline : list Command) : option bool :=
  c ← head pipeline; a ← head (args c); Some (bool_decide (a = chars "exit")).

(** ** The parser of the earlier revision (src/unnamed/part_000) *)

Module Earlier.

Definition LFc : ascii := ascii_of_nat 10.
Definition white : cstring := [SPACE; TAB; LFc].

(** [strtok(s, delim)]: [strtok_r] on one hidden pointer, [olds]. *)
Definition strtok (s : option cstring) (delim olds : cstring)
  : option cstring * cstring :=
  strtok_r (default olds s) delim.

(** The loop [while ((ptr = strtok(NULL, " \t\n")) != NULL)].  [i] is
    the index the next argument goes to; nothing bounds it in the source, so
    a store [args[i++] = ptr] with [i] outside the array has no defined
    result. *)
Fixpoint parse_words (fuel : nat) (olds : cstring) (i : Z) (c : Command)
  : option (Command * Z * cstring) :=
  match fuel with
  | O => None
  | S fuel' =>
      let '(ptr, olds1) := strtok None white olds in
      match ptr with
      | None => Some (c, i, olds1)
      | Some p =>
          if decide (p = chars ">") then
            let '(file, olds2) := strtok None white olds1 in
            Some (mkCommand (args c) (input_file c) file 0 (background c),
                  i, olds2)
          else if decide (p = chars ">>") then
            let '(file, olds2) := strtok None white olds1 in
            Some (mkCommand (args c) (input_file c) file 1 (background c),
                  i, olds2)
          else if decide (p = chars "<") then
            let '(file, olds2) := strtok None white olds1 in
            parse_words fuel' olds2 i
              (mkCommand (args c) file (output_file c) (append c)
                         (background c))
          else if decide (p = chars "&") then
            parse_words fuel' olds1 i (set_background c)
          else if decide (i < MAX_ARGS) then
            parse_words fuel' olds1 (i + 1) (push_arg p c)
          else None
      end
  end.

(** The outer loop; the inner calls of [strtok] move the same hidden
    pointer the outer call continues from.  [args[0] = ptr] and [int i = 1]
    open a Stage, [args[i] = NULL] closes it, inside the array or with no
    defined result. *)
Fixpoint parse_segments (fuel : nat) (token : option cstring)
    (olds : cstring) (pipeline : list Command) : option (list Command) :=
  match fuel with
  | O => None
  | S fuel' =>
      match token with
      | None => Some pipeline
      | Some tok =>
          if decide (Z.of_nat (length pipeline) < MAX_PIPES) then
            match tok with
            | [] =>
                let '(next, olds') := strtok None (chars "|") olds in
                parse_segments fuel' next olds' pipeline
            | _ :: _ =>
                let '(ptr, olds1) := strtok (Some tok) white olds in
                let c0 := mkCommand (from_option (λ a, [a]) [] ptr)
                                    None None 0 0 in
                '(c, i, olds2) ← parse_words (length tok + 1) olds1 1 c0;
                if decide (i < MAX_ARGS) then
                  let '(next, olds3) := strtok None (chars "|") olds2 in
                  parse_segments fuel' next olds3 (pipeline ++ [c])
                else None
            end
          else Some pipeline
      end
  end.

Definition parse_pipeline (line : cstring) : option (list Command) :=
  let '(token, olds) := strtok (Some (until_nul line)) (chars "|") [] in
  parse_segments (length line + 1) token olds [].

End Earlier.

(** What bounds the iterations of the segment loop. *)
Definition segments_measure (token : option cstring) (sp : cstring) : nat :=
  match token with
  | Some _ => S (length sp)
  | None => O
  end.

(** A Stage that comes from parsing one non-empty segment. *)
Definition parsed_stage (c : Command) : Prop :=
  ∃ seg, seg ≠ [] ∧ parse_command seg = Some c.

(** * Further definitions: the rest of main.c and sample inputs *)

(** ** History *)

(** The lines that count for the history: the non-empty ones. *)
Definition recorded (lines : list cstring) : list cstring :=
  filter (λ l, l ≠ []) lines.

(** The listing with every line in its place, numbered from [first]. *)
Definition numbered (first : Z) (lines : list cstring) : list history_row :=
  zip (seqZ first (Z.of_nat (length lines))) (Some <$> lines).

(** ** Typing *)

(** A string of bytes [isprint] accepts. *)
Definition printable (s : cstring) : Prop := Forall (λ c, isprint c = true) s.

(** What fits the line buffer: [MAX_CMD_LEN - 1] bytes. *)
Definition fitting (s : cstring) : cstring := take (Z.to_nat (MAX_CMD_LEN - 1)) s.

(** The Backspace key as terminals send it. *)
Definition DEL : ascii := ascii_of_nat 127.

(** [k] presses of the Up key. *)
Definition key_ups (k : nat) : list (option ascii) := mjoin (replicate k key_up).

(** A line as [read_line] produces them and the history keeps them:
    not empty, short enough for the buffer, without a NUL byte. *)
Definition line_ok (l : cstring) : Prop :=
  l ≠ [] ∧ (length l < 1024)%nat ∧ NUL ∉ l.

(** ** Parsed stages *)

(** An argument on which the quote loop of [execute_command] has nothing
    to do: if it opens with a quote, no further quote follows. *)
Definition settled (a : cstring) : Prop := head a = Some QUOTE → QUOTE ∉ tail a.

(** The state of a Stage while the argument loop is still running. *)
Definition stage_open (c : Command) : Prop :=
  Z.of_nat (length (args c)) ≤ MAX_ARGS - 1
  ∧ Forall settled (args c)
  ∧ input_file c = None ∧ output_file c = None ∧ append c = 0.

(** What holds of a Stage once the loop has ended. *)
Definition stage_closed (c : Command) : Prop :=
  Z.of_nat (length (args c)) ≤ MAX_ARGS - 1
  ∧ Forall settled (args c)
  ∧ (input_file c = None ∨ output_file c = None)
  ∧ (append c = 0 ∨ (append c = 1 ∧ is_Some (output_file c))).

(** A word without [<], [>] and quotes. *)
Definition plain (a : cstring) : Prop := quiet a ∧ (QUOTE ∉ a).

Global Instance plain_dec a : Decision (plain a).
Proof. unfold plain, quiet. apply _. Defined.

(** The arguments a run of plain words leaves: all of them but [&]. *)
Definition plain_args (ws : list cstring) : list cstring :=
  filter (λ w, w ≠ chars "&") ws.

(** The background flag after a run of plain words. *)
Definition plain_background (ws : list cstring) (bg : Z) : Z :=
  if decide (chars "&" ∈ ws) then 1 else bg.

(** A segment of [n] one-letter words. *)
Definition many_words (n : nat) : cstring := mjoin (replicate n (chars "a ")).

(** ** Children and systems *)

(** A child that holds no descriptor above 2 when it calls [execvp]. *)
Definition tidy (ch : child) : Prop :=
  match ch with
  | ChildExit _ => True
  | ChildExec _ t => ∀ fd, (3 ≤ fd)%nat → fd_lookup t fd = None
  end.

(** A system in which one pipe can be created and no second one. *)
Definition env_one_pipe : os_env :=
  OsEnv (λ n, bool_decide (n = 0%nat)) (λ _, true) (λ _, true).

(** ** Built-in commands, the signal handler and the loop of [main] *)

(** What the system answers to [getenv("HOME")] and to [chdir(path)],
    the latter given the calls of [chdir] that succeeded before. *)
Record dirs := Dirs {
  home : option cstring;
  chdir_ok : list cstring → cstring → bool
}.

(** The shell process as [main] sees it. *)
Record session := Session {
  tty : world;                  (* terminal, standard output, history *)
  proc : shell;                 (* descriptors, children, standard error *)
  chdirs : list cstring         (* arguments of the successful chdir calls *)
}.

Definition help_text : cstring :=
  chars "Built-in commands:" ++ [LF]
  ++ chars "cd [DIR] - change directory" ++ [LF]
  ++ chars "help - show help" ++ [LF]
  ++ chars "history - show command history" ++ [LF]
  ++ chars "exit - exit shell" ++ [LF].

(** The [printf("%d: %s\n", ...)] calls of [show_history], one per row;
    a NULL handed to [%s] has no defined output. *)
Fixpoint print_rows (rows : list history_row) (w : world) : option world :=
  match rows with
  | [] => Some w
  | row :: rows' =>
      s ← snd row;
      print_rows rows' (printf (fmt_d (fst row) ++ chars ": " ++ s ++ [LF]) w)
  end.

(** [chdir(path)]: whether it succeeds; with NULL for a path, as [cd]
    without a directory gives it when HOME is not set, it fails. *)
Definition chdir (d : dirs) (earlier : list cstring) (path : option cstring)
  : bool :=
  match path with
  | Some p => chdir_ok d earlier p
  | None => false
  end.

(** [execute_builtin(cmd)]: the value returned and the state afterwards.
    There is no result when [args[0]] is NULL (it is given to [strcmp]). *)
Definition execute_builtin (d : dirs) (cmd : Command) (s : session)
  : option (Z * session) :=
  a0 ← head (args cmd);
  if decide (a0 = chars "cd") then
    let path := match args cmd !! 1%nat with
                | Some p => Some p
                | None => home d
                end in
    if chdir d (chdirs s) path
    then Some (1, Session (tty s) (proc s) (chdirs s ++ option_list path))
    else Some (1, Session (tty s) (perror (chars "cd failed") (proc s))
                          (chdirs s))
  else if decide (a0 = chars "help") then
    Some (1, Session (printf help_text (tty s)) (proc s) (chdirs s))
  else if decide (a0 = chars "history") then
    w ← print_rows (show_history (hist (tty s))) (tty s);
    Some (1, Session w (proc s) (chdirs s))
  else Some (0, s).

(** [sigint_handler]: the prompt is printed again in foreground mode. *)
Definition sigint_handler (s : session) : session :=
  if decide (foreground_mode (proc s) ≠ 0)
  then Session (printf (LF :: prompt) (tty s)) (proc s) (chdirs s)
  else s.

(** How one round of the loop of [main] ends. *)
Inductive flow := Next | Leave.

(** One round of [while (1)] in [main].  [strdup] is taken to succeed, so
    that [read_line] never returns NULL; the heap ([free], [free_pipeline])
    is not part of the state. *)
Definition main_iteration (env : os_env) (d : dirs)
    (input : list (option ascii)) (s : session)
  : option (flow * session * list (option ascii)) :=
  '(input_line, w1, input') ← read_line input (printf prompt (tty s));
  let s1 := Session w1 (proc s) (chdirs s) in
  if decide (input_line = []) then Some (Next, s1, input')
  else
    pipeline ← parse_pipeline input_line;
    if decide (pipeline = []) then Some (Next, s1, input')
    else
      is_exit ← first_word_is_exit pipeline;
      if (is_exit : bool) then Some (Leave, s1, input')
      else
        c0 ← head pipeline;
        '(handled, s2) ← execute_builtin d c0 s1;
        if decide (handled ≠ 0) then Some (Next, s2, input')
        else
          sh ← execute_pipeline env pipeline (proc s2);
          Some (Next, Session (tty s2) sh (chdirs s2), input').

(** The loop of [main], cut after [n] rounds: [Leave] when the loop was
    left within them, [Next] when it is still running. *)
Fixpoint main_loop (n : nat) (env : os_env) (d : dirs)
    (input : list (option ascii)) (s : session)
  : option (flow * session * list (option ascii)) :=
  match n with
  | O => Some (Next, s, input)
  | S n' =>
      '(f, s1, input1) ← main_iteration env d input s;
      match f with
      | Leave => Some (Leave, s1, input1)
      | Next => main_loop n' env d input1 s1
      end
  end.

(** The shell right after it was started from a terminal. *)
Definition session_init : session :=
  Session (world_with history_init) shell_init [].

Definition no_home : dirs := Dirs None (λ _ _, true).



(** One line of the output of the [history] command. *)
Definition row_text (i : Z) (l : cstring) : cstring :=
  fmt_d i ++ chars ": " ++ l ++ [LF].

(** The first piece of a line between pipe symbols, the segment the
    earlier parser starts with. *)
Definition first_segment (line : cstring) : cstring :=
  default [] (head (tokens_by (chars "|") (until_nul line))).

(** One key as the loop of [read_line] takes it in: a byte other than the
    newline and ESC, or ESC with the two bytes read after it. *)
Definition whole_key (k : list ascii) : Prop :=
  (∃ c, k = [c] ∧ c ≠ LF ∧ c ≠ ESC) ∨ (∃ s0 s1, k = [ESC; s0; s1]).

(** The reads that deliver the keys [ks], byte by byte. *)
Definition key_reads (ks : list (list ascii)) : list (option ascii) :=
  Some <$> concat ks.

(** The escape byte, alone or with one more byte: an escape sequence the
    input breaks off in. *)
Definition broken_escape (x : option ascii) : list (option ascii) :=
  Some ESC :: match x with Some c => [Some c] | None => [] end.

(** The input from a read that fails: the failed call, then what later
    calls would deliver; or nothing at all, when the input is at its end. *)
Definition failing_read (tail rest : list (option ascii)) : Prop :=
  tail = None :: rest ∨ (tail = [] ∧ rest = []).

(** * Properties *)

(** ** History store *)

Lemma wrap_int_small z : - INT_MAX - 1 ≤ z ≤ INT_MAX → wrap_int z = z.
Proof.
  unfold wrap_int, INT_MAX. intros H. rewrite Z.mod_small by lia. lia.
Qed.

Lemma shift_upto_spec n h :
  (n < length h)%nat → shift_upto n h = take n (drop 1 h) ++ drop n h.
Proof.
  induction n as [|n IH]; intros Hn.
  - by rewrite take_0, drop_0.
  - unfold shift_upto in *. rewrite seq_S, foldl_app. simpl.
    rewrite IH by lia.
    destruct (lookup_lt_is_Some_2 h (S n) Hn) as [x Hx].
    assert (Hlen : length (take n (drop 1 h)) = n).
    { rewrite length_take, length_drop. lia. }
    rewrite lookup_app_r by lia. rewrite Hlen.
    rewrite lookup_drop. replace (n + (S n - n))%nat with (S n) by lia.
    rewrite Hx. simpl.
    rewrite insert_app_r_alt by lia. rewrite Hlen, Nat.sub_diag.
    rewrite (take_S_r _ _ x) by (rewrite lookup_drop; exact Hx).
    rewrite <- app_assoc. f_equal.
    destruct (lookup_lt_is_Some_2 h n ltac:(lia)) as [y Hy].
    rewrite (drop_S _ y n Hy). simpl. done.
Qed.

(** On a full array the shift drops slot 0; the store to the last slot
    then completes the move. *)
Lemma shift_history_full (h : list (option cstring)) x :
  length h = 100%nat →
  aset (shift_history h) (MAX_HISTORY - 1) x = drop 1 h ++ [x].
Proof.
  intros Hh. unfold shift_history, aset.
  change (Z.to_nat (MAX_HISTORY - 1)) with 99%nat.
  rewrite shift_upto_spec by lia.
  assert (Hd : length (take 99 (drop 1 h)) = 99%nat).
  { rewrite length_take, length_drop. lia. }
  assert (Ht : take 99 (drop 1 h) = drop 1 h).
  { apply take_ge. rewrite length_drop. lia. }
  rewrite insert_app_r_alt by lia. rewrite Hd, Nat.sub_diag, Ht.
  f_equal.
  destruct (drop 99 h) as [|y [|z r]] eqn:E; [| done |];
    apply (f_equal length) in E; rewrite length_drop in E; simpl in E; lia.
Qed.

Lemma submit_all_snoc lines l :
  submit_all (lines ++ [l]) = add_to_history l (submit_all lines).
Proof. unfold submit_all. by rewrite foldl_snoc. Qed.

Lemma retained_length lines :
  length (retained lines) = (length lines `min` 100)%nat.
Proof.
  unfold retained. rewrite length_drop.
  change (Z.to_nat MAX_HISTORY) with 100%nat. lia.
Qed.

Lemma retained_snoc_short lines l :
  (length lines < 100)%nat → retained (lines ++ [l]) = retained lines ++ [l].
Proof.
  intros H. unfold retained. change (Z.to_nat MAX_HISTORY) with 100%nat.
  rewrite length_app. simpl.
  replace (length lines + 1 - 100)%nat with 0%nat by lia.
  replace (length lines - 100)%nat with 0%nat by lia. done.
Qed.

Lemma retained_snoc_full lines l :
  (100 ≤ length lines)%nat →
  retained (lines ++ [l]) = drop 1 (retained lines) ++ [l].
Proof.
  intros H. unfold retained. change (Z.to_nat MAX_HISTORY) with 100%nat.
  rewrite length_app. simpl. rewrite drop_drop.
  rewrite drop_app_le by lia. do 2 f_equal. lia.
Qed.

(** The store after a run of non-empty submissions that the counter, an
    [int], can count. *)
Lemma submit_all_spec lines :
  Forall (λ l, l ≠ []) lines → Z.of_nat (length lines) ≤ INT_MAX →
  history (submit_all lines) = stored lines
  ∧ history_count (submit_all lines) = Z.of_nat (length lines).
Proof.
  induction lines as [|l lines IH] using rev_ind; intros Hne Hmax.
  - done.
  - rewrite Forall_app, Forall_singleton in Hne. destruct Hne as [Hne Hl].
    rewrite length_app in Hmax. simpl in Hmax.
    destruct (IH Hne ltac:(lia)) as [Hh Hc]. rewrite submit_all_snoc.
    unfold add_to_history. destruct l as [|c l]; [done|].
    rewrite Hh, Hc, length_app.
    rewrite wrap_int_small by (unfold INT_MAX in *; lia). simpl.
    case_decide as Hlt; simpl; (split; [|lia]).
    + unfold MAX_HISTORY in Hlt. unfold stored, aset.
      rewrite retained_snoc_short by lia.
      rewrite !retained_length, length_app, !retained_length. simpl.
      change (Z.to_nat MAX_HISTORY) with 100%nat.
      rewrite Nat2Z.id.
      rewrite insert_app_r_alt;
        rewrite length_fmap, retained_length; [|lia].
      rewrite (Nat.min_l (length lines) 100) by lia.
      rewrite Nat.sub_diag.
      replace (100 - length lines)%nat
        with (S (100 - (length lines + 1))) by lia.
      simpl. rewrite fmap_app. simpl. by rewrite <- app_assoc.
    + unfold MAX_HISTORY in Hlt. unfold stored.
      rewrite shift_history_full.
      2:{ rewrite length_app, length_fmap, length_replicate, retained_length.
          change (Z.to_nat MAX_HISTORY) with 100%nat. lia. }
      rewrite retained_snoc_full by lia.
      rewrite !length_app, length_drop, !retained_length. simpl.
      change (Z.to_nat MAX_HISTORY) with 100%nat.
      replace (100 - length lines `min` 100)%nat with 0%nat by lia.
      replace (100 - (length lines `min` 100 - 1 + 1))%nat with 0%nat by lia.
      simpl. rewrite !app_nil_r, fmap_app, fmap_drop. done.
Qed.

Lemma show_history_indices s :
  (show_history s).*1
  = seqZ ((if decide (history_count s > MAX_HISTORY)
           then history_count s - MAX_HISTORY else 0) + 1)
         (history_count s
          - (if decide (history_count s > MAX_HISTORY)
             then history_count s - MAX_HISTORY else 0)).
Proof.
  unfold show_history. rewrite <- list_fmap_compose.
  rewrite (Z.add_comm _ 1), <- fmap_add_seqZ.
  apply list_fmap_ext. intros _ i _. simpl. lia.
Qed.

(** C1 (as amended).  After more than a hundred non-empty lines the array
    holds exactly the hundred most recent ones, oldest first (each append
    beyond capacity evicts slot 0), and the listing has a hundred rows whose
    display numbers are consecutive and count submissions: they run from
    [n - 99] to [n] for [n] submitted lines.  The count of submissions is
    kept in an [int]: the statement is for the runs it can count, of at
    most [INT_MAX] lines. *)
Theorem history_keeps_last_100 (lines : list cstring) :
  Forall (λ l, l ≠ []) lines →
  (100 < length lines)%nat → Z.of_nat (length lines) ≤ INT_MAX →
  history (submit_all lines) = Some <$> retained lines
  ∧ retained lines = drop (length lines - 100) lines
  ∧ length (retained lines) = 100%nat
  ∧ length (show_history (submit_all lines)) = 100%nat
  ∧ (show_history (submit_all lines)).*1
    = seqZ (Z.of_nat (length lines) - 99) 100.
Proof.
  intros Hne Hn Hmax. destruct (submit_all_spec lines Hne Hmax) as [Hh Hc].
  assert (Hr : length (retained lines) = 100%nat)
    by (rewrite retained_length; lia).
  split; [|split; [done|split; [done|]]].
  - rewrite Hh. unfold stored. rewrite Hr. simpl. by rewrite app_nil_r.
  - assert (Hi := show_history_indices (submit_all lines)).
    rewrite Hc in Hi. unfold MAX_HISTORY in Hi.
    rewrite decide_True in Hi by lia.
    replace (Z.of_nat (length lines) - 100 + 1)
      with (Z.of_nat (length lines) - 99) in Hi by lia.
    replace (Z.of_nat (length lines) - (Z.of_nat (length lines) - 100))
      with 100 in Hi by lia.
    split; [|done].
    apply (f_equal length) in Hi.
    by rewrite length_fmap, length_seqZ in Hi.
Qed.

Lemma history_keeps_last_100_witness :
  history (submit_all lines101) = Some <$> retained lines101
  ∧ (show_history (submit_all lines101)).*1 = seqZ 2 100.
Proof.
  assert (Hne : Forall (λ l : cstring, l ≠ []) lines101)
    by (apply (bool_decide_unpack _); vm_compute; exact I).
  assert (Hn : (100 < length lines101)%nat) by (vm_compute; lia).
  assert (Hmax : Z.of_nat (length lines101) ≤ INT_MAX) by (by vm_compute).
  destruct (history_keeps_last_100 lines101 Hne Hn Hmax)
    as (H1 & _ & _ & _ & H2).
  split; [exact H1 | exact H2].
Defined.

(** C1 as worded fails on 101 lines: the listing is not the retained
    lines numbered from 1.  Its first row is numbered 2 and shows the third
    line; the oldest retained line, the second, comes last as row 101. *)
Lemma history_listing_counterexample :
  (100 < length lines101)%nat
  ∧ NoDup lines101
  ∧ Forall (λ l : cstring, l ≠ []) lines101
  ∧ show_history (submit_all lines101) ≠ listing_as_specified lines101
  ∧ head (listing_as_specified lines101) = Some (1, Some (cmd_line 2))
  ∧ head (show_history (submit_all lines101)) = Some (2, Some (cmd_line 3))
  ∧ last (show_history (submit_all lines101)) = Some (101, Some (cmd_line 2)).
Proof.
  split; [vm_compute; lia|].
  split; [apply (bool_decide_unpack _); vm_compute; exact I|].
  split; [apply (bool_decide_unpack _); vm_compute; exact I|].
  split; [|by vm_compute].
  intros H. apply (f_equal head) in H. vm_compute in H. discriminate H.
Qed.

(** ** Buffers *)

Lemma until_nul_app_nul s r : NUL ∉ s → until_nul (s ++ NUL :: r) = s.
Proof.
  induction s as [|c s IH]; intros Hs.
  - done.
  - apply not_elem_of_cons in Hs as [Hc Hs]. simpl.
    rewrite decide_False by done. by rewrite IH.
Qed.

Lemma until_nul_no_nul b : NUL ∉ until_nul b.
Proof.
  induction b as [|c b IH]; simpl; [apply not_elem_of_nil|].
  case_decide; [apply not_elem_of_nil|].
  apply not_elem_of_cons. split; [congruence|done].
Qed.

Lemma until_nul_id s : NUL ∉ s → until_nul s = s.
Proof.
  induction s as [|c s IH]; intros Hs; simpl; [done|].
  apply not_elem_of_cons in Hs as [Hc Hs].
  rewrite decide_False by done. by rewrite IH.
Qed.

Lemma strncpy_short s :
  (length s < 1024)%nat →
  strncpy s MAX_CMD_LEN = s ++ replicate (1024 - length s) NUL.
Proof.
  intros Hs. unfold strncpy. change (Z.to_nat MAX_CMD_LEN) with 1024%nat.
  rewrite take_app, take_ge by lia. f_equal.
  rewrite take_replicate. f_equal. lia.
Qed.

(** The shape of a well-formed buffer. *)
Lemma wf_buffer_shape b :
  wf_buffer b →
  b = until_nul b ++ replicate (1024 - length (until_nul b)) NUL
  ∧ (length (until_nul b) < 1024)%nat.
Proof.
  intros [Hb Hl]. unfold MAX_CMD_LEN in Hl.
  rewrite strncpy_short in Hb by lia. split; [done|lia].
Qed.

Lemma wf_buffer_intro s :
  NUL ∉ s → (length s < 1024)%nat →
  wf_buffer (s ++ replicate (1024 - length s) NUL)
  ∧ until_nul (s ++ replicate (1024 - length s) NUL) = s.
Proof.
  intros Hs Hl.
  assert (Hu : until_nul (s ++ replicate (1024 - length s) NUL) = s).
  { replace (1024 - length s)%nat with (S (1023 - length s)) by lia.
    simpl. by apply until_nul_app_nul. }
  split; [|done]. unfold wf_buffer. rewrite Hu.
  rewrite strncpy_short by done. split; [done|]. unfold MAX_CMD_LEN. lia.
Qed.

Lemma wf_buffer_strncpy s :
  NUL ∉ s → (length s < 1024)%nat →
  wf_buffer (strncpy s MAX_CMD_LEN) ∧ until_nul (strncpy s MAX_CMD_LEN) = s.
Proof.
  intros Hs Hl. rewrite strncpy_short by done. by apply wf_buffer_intro.
Qed.

Lemma wf_buffer_length b : wf_buffer b → length b = 1024%nat.
Proof.
  intros Hb. destruct (wf_buffer_shape b Hb) as [E Hl].
  rewrite E, length_app, length_replicate. lia.
Qed.

Lemma wf_buffer_has_nul b : wf_buffer b → NUL ∈ b.
Proof.
  intros Hb. destruct (wf_buffer_shape b Hb) as [E Hl]. rewrite E.
  apply elem_of_app. right.
  replace (1024 - length (until_nul b))%nat
    with (S (1023 - length (until_nul b))) by lia.
  simpl. apply elem_of_cons. by left.
Qed.

Lemma wf_buffer_strlen b :
  wf_buffer b → strlen b = Some (Z.of_nat (length (until_nul b))).
Proof.
  intros Hb. unfold strlen. by rewrite decide_True by by apply wf_buffer_has_nul.
Qed.

Lemma wf_buffer_string_at b : wf_buffer b → string_at b = Some (until_nul b).
Proof.
  intros Hb. unfold string_at.
  by rewrite decide_True by by apply wf_buffer_has_nul.
Qed.

Lemma wf_buffer_copy b : wf_buffer b → strncpy (until_nul b) MAX_CMD_LEN = b.
Proof. by intros [Hb _]. Qed.

Lemma wf_buffer_nul_at_len b :
  wf_buffer b → aget b (Z.of_nat (length (until_nul b))) = Some NUL.
Proof.
  intros Hb. destruct (wf_buffer_shape b Hb) as [E Hl].
  unfold aget. rewrite decide_True by lia. rewrite Nat2Z.id.
  remember (until_nul b) as s eqn:Hs. clear Hs. subst b.
  rewrite lookup_app_r by lia. rewrite Nat.sub_diag.
  replace (1024 - length s)%nat with (S (1023 - length s)) by lia.
  done.
Qed.

Ltac solve_length :=
  repeat first
    [ rewrite length_app | rewrite length_replicate | rewrite length_insert
    | rewrite length_cons | rewrite length_nil ];
  simpl; lia.

Lemma bset_Some b i c :
  0 ≤ i < Z.of_nat (length b) → bset b i c = Some (<[Z.to_nat i := c]> b).
Proof. intros H. unfold bset. by rewrite decide_True. Qed.

(** The three stores of the insertion branch, on a buffer split at the
    cursor: [s1] before it, [s2] from it on, then at least two NULs. *)
Lemma insert_buffer s1 s2 k c :
  (memmove (s1 ++ s2 ++ NUL :: NUL :: replicate k NUL)
           (Z.of_nat (length s1) + 1) (Z.of_nat (length s1))
           (Z.of_nat (length s1 + length s2) - Z.of_nat (length s1) + 1)
   ≫= λ b1, bset b1 (Z.of_nat (length s1)) c
   ≫= λ b2, bset b2 (Z.of_nat (length s1 + length s2) + 1) NUL)
  = Some (s1 ++ c :: s2 ++ NUL :: replicate k NUL).
Proof.
  set (b := s1 ++ s2 ++ NUL :: NUL :: replicate k NUL).
  assert (Hb : length b = (length s1 + length s2 + 2 + k)%nat).
  { unfold b. rewrite !length_app. simpl. rewrite length_replicate. lia. }
  unfold memmove. rewrite decide_True by lia.
  replace (Z.to_nat (Z.of_nat (length s1) + 1)) with (S (length s1)) by lia.
  replace (Z.to_nat (Z.of_nat (length s1 + length s2)
                     - Z.of_nat (length s1) + 1))
    with (S (length s2)) by lia.
  replace (Z.to_nat (Z.of_nat (length s1) + 1
                     + (Z.of_nat (length s1 + length s2)
                        - Z.of_nat (length s1) + 1)))
    with (length s1 + (length s2 + 2))%nat by lia.
  rewrite Nat2Z.id.
  assert (E1 : ∃ x, take (S (length s1)) b = s1 ++ [x]).
  { unfold b. rewrite take_app, take_ge by lia.
    replace (S (length s1) - length s1)%nat with 1%nat by lia.
    destruct s2; simpl; eauto. }
  destruct E1 as [x E1]. rewrite E1.
  assert (E2 : take (S (length s2)) (drop (length s1) b) = s2 ++ [NUL]).
  { unfold b. rewrite drop_app_length.
    rewrite take_app, take_ge by lia.
    replace (S (length s2) - length s2)%nat with 1%nat by lia. done. }
  rewrite E2.
  assert (E3 : drop (length s1 + (length s2 + 2)) b = replicate k NUL).
  { unfold b. rewrite <- drop_drop, drop_app_length.
    rewrite <- drop_drop, drop_app_length. done. }
  rewrite E3. simpl.
  rewrite bset_Some.
  2:{ solve_length. }
  simpl. rewrite Nat2Z.id.
  rewrite <- (app_assoc s1 [x]). simpl.
  rewrite insert_app_r_alt by lia. rewrite Nat.sub_diag. simpl.
  rewrite bset_Some.
  2:{ solve_length. }
  f_equal.
  replace (Z.to_nat (Z.of_nat (length s1 + length s2) + 1))
    with (length s1 + S (length s2))%nat by lia.
  rewrite insert_app_r. f_equal. simpl. f_equal.
  rewrite <- (app_assoc s2 [NUL]). simpl.
  replace (length s2) with (length s2 + 0)%nat at 1 by lia.
  by rewrite insert_app_r.
Qed.

(** The two stores of the backspace branch: [x] is the byte before the
    cursor. *)
Lemma backspace_buffer s1 x s2 k :
  (memmove (s1 ++ x :: s2 ++ NUL :: replicate k NUL)
           (Z.of_nat (length s1) + 1 - 1) (Z.of_nat (length s1) + 1)
           (Z.of_nat (length s1 + 1 + length s2)
            - (Z.of_nat (length s1) + 1) + 1)
   ≫= λ b1, bset b1 (Z.of_nat (length s1 + 1 + length s2) - 1) NUL)
  = Some (s1 ++ s2 ++ NUL :: NUL :: replicate k NUL).
Proof.
  set (b := s1 ++ x :: s2 ++ NUL :: replicate k NUL).
  assert (Hb : length b = (length s1 + 1 + length s2 + 1 + k)%nat).
  { unfold b. rewrite !length_app. simpl. rewrite length_app. simpl.
    rewrite length_replicate. lia. }
  unfold memmove. rewrite decide_True by lia.
  replace (Z.to_nat (Z.of_nat (length s1) + 1 - 1)) with (length s1) by lia.
  replace (Z.to_nat (Z.of_nat (length s1 + 1 + length s2)
                     - (Z.of_nat (length s1) + 1) + 1))
    with (S (length s2)) by lia.
  replace (Z.to_nat (Z.of_nat (length s1) + 1))
    with (length s1 + 1)%nat by lia.
  replace (Z.to_nat (Z.of_nat (length s1) + 1 - 1
                     + (Z.of_nat (length s1 + 1 + length s2)
                        - (Z.of_nat (length s1) + 1) + 1)))
    with (length s1 + (1 + length s2))%nat by lia.
  assert (E1 : take (length s1) b = s1) by (unfold b; apply take_app_length).
  rewrite E1.
  assert (E2 : take (S (length s2)) (drop (length s1 + 1) b) = s2 ++ [NUL]).
  { unfold b. rewrite <- drop_drop, drop_app_length. simpl. rewrite drop_0.
    rewrite take_app, take_ge by lia.
    replace (S (length s2) - length s2)%nat with 1%nat by lia. done. }
  rewrite E2.
  assert (E3 : drop (length s1 + (1 + length s2)) b = NUL :: replicate k NUL).
  { unfold b. rewrite <- drop_drop, drop_app_length. simpl.
    rewrite drop_app_length. done. }
  rewrite E3. simpl.
  rewrite bset_Some.
  2:{ solve_length. }
  f_equal.
  replace (Z.to_nat (Z.of_nat (length s1 + 1 + length s2) - 1))
    with (length s1 + (length s2 + 0))%nat by lia.
  rewrite insert_app_r. f_equal.
  rewrite <- (app_assoc s2 [NUL]). simpl.
  by rewrite insert_app_r.
Qed.

(** ** The history stays well-formed *)

Lemma history_init_wf : history_wf history_init.
Proof.
  unfold history_wf. simpl. split; [done|]. split; [done|]. apply Forall_nil_2.
Qed.

Lemma add_to_history_wf cmd h :
  history_wf h → history_count h < INT_MAX →
  (length cmd < 1024)%nat → NUL ∉ cmd →
  history_wf (add_to_history cmd h).
Proof.
  intros (Hc & Hlen & Hall) Hmax Hl Hn. unfold add_to_history.
  destruct cmd as [|c cmd']; [done|]. set (cmd := c :: cmd') in *.
  rewrite wrap_int_small by (unfold INT_MAX in *; lia).
  assert (Hok : entry_ok (Some cmd)).
  { unfold entry_ok, MAX_CMD_LEN. split; [lia|done]. }
  change (Z.to_nat MAX_HISTORY) with 100%nat in *.
  unfold history_wf.
  case_decide as Hlt; cbn [history history_count]; unfold MAX_HISTORY in *.
  - split; [lia|]. unfold aset. rewrite length_insert. split; [done|].
    replace (Z.to_nat ((history_count h + 1) `min` 100))
      with (S (Z.to_nat (history_count h))) by lia.
    replace (Z.to_nat (history_count h `min` 100))
      with (Z.to_nat (history_count h)) in Hall by lia.
    rewrite (take_S_r _ _ (Some cmd))
      by (apply list_lookup_insert_eq; lia).
    rewrite take_insert_ge by lia.
    apply Forall_app. split; [done|]. by apply Forall_singleton.
  - split; [lia|]. rewrite shift_history_full by done.
    split; [rewrite length_app, length_drop; simpl; lia|].
    replace (Z.to_nat (history_count h `min` 100)) with 100%nat in Hall by lia.
    rewrite take_ge in Hall by lia.
    replace (Z.to_nat ((history_count h + 1) `min` 100)) with 100%nat by lia.
    rewrite take_ge by (rewrite length_app, length_drop; simpl; lia).
    apply Forall_app. split; [by apply Forall_drop|by apply Forall_singleton].
Qed.

(** ** Editor operations keep the editing state well-formed *)

Lemma same_but_stdout_refl w : same_but_stdout w w.
Proof. by repeat split. Qed.

Lemma same_but_stdout_printf s w w' :
  same_but_stdout w w' → same_but_stdout w (printf s w').
Proof. intros (?&?&?&?). by repeat split. Qed.

Lemma same_but_stdout_trans w1 w2 w3 :
  same_but_stdout w1 w2 → same_but_stdout w2 w3 → same_but_stdout w1 w3.
Proof.
  intros (?&?&?&?) (?&?&?&?). repeat split; congruence.
Qed.

Create HintDb frame.
#[local] Hint Resolve same_but_stdout_refl same_but_stdout_printf : frame.

Lemma redraw_wf b w :
  wf_buffer b →
  ∃ w', redraw b w = Some w' ∧ same_but_stdout w w'.
Proof.
  intros Hb. unfold redraw. rewrite wf_buffer_string_at by done. simpl.
  eexists. split; eauto with frame.
Qed.

(** Splitting a well-formed editing state at the cursor. *)
Lemma editor_wf_split e :
  editor_wf e →
  ∃ s1 s2,
    until_nul (line e) = s1 ++ s2
    ∧ line e = s1 ++ s2 ++ replicate (1024 - length (s1 ++ s2)) NUL
    ∧ (NUL ∉ s1 ++ s2)
    ∧ (length (s1 ++ s2) < 1024)%nat
    ∧ pos e = Z.of_nat (length s1)
    ∧ len e = Z.of_nat (length s1 + length s2).
Proof.
  intros (Hl & Hs & Hlen & Hpos).
  destruct (wf_buffer_shape _ Hl) as [E Hlt].
  pose proof (until_nul_no_nul (line e)) as Hn.
  remember (until_nul (line e)) as s eqn:Es.
  exists (take (Z.to_nat (pos e)) s), (drop (Z.to_nat (pos e)) s).
  rewrite (app_assoc _ _ (replicate _ _)), take_drop.
  repeat split; try done.
  - rewrite length_take. lia.
  - rewrite length_take, length_drop. lia.
Qed.

Lemma insert_char_wf c w e :
  editor_wf e → c ≠ NUL →
  ∃ w' e',
    insert_char c w e = Some (w', e')
    ∧ editor_wf e' ∧ same_but_stdout w w'
    ∧ history_index e' = history_index e
    ∧ (¬ len e < MAX_CMD_LEN - 1 → w' = w ∧ e' = e)
    ∧ (len e < MAX_CMD_LEN - 1 →
       len e' = len e + 1 ∧ pos e' = pos e + 1
       ∧ until_nul (line e')
         = take (Z.to_nat (pos e)) (until_nul (line e))
           ++ c :: drop (Z.to_nat (pos e)) (until_nul (line e))).
Proof.
  intros Hwf Hc. unfold insert_char. case_decide as Hroom.
  2:{ exists w, e. split_and!; try done; try lia. }
  destruct (editor_wf_split e Hwf) as (s1 & s2 & Hu & Hline & Hn & Hlt & Hp & Hl).
  destruct Hwf as (_ & Hsaved & _ & _).
  destruct e as [b sv n p hi]. simpl in *. subst b n p.
  unfold MAX_CMD_LEN in Hroom. rewrite length_app in Hlt.
  replace (1024 - length (s1 ++ s2))%nat
    with (S (S (1022 - (length s1 + length s2)))) by (rewrite length_app; lia).
  simpl replicate.
  pose proof (insert_buffer s1 s2 (1022 - (length s1 + length s2)) c) as H.
  apply bind_Some in H as (b1 & H1 & H).
  apply bind_Some in H as (b2 & H2 & H3).
  rewrite H1. simpl. rewrite H2. simpl. rewrite H3. simpl.
  assert (Hn' : NUL ∉ (s1 ++ c :: s2)).
  { rewrite elem_of_app, elem_of_cons. rewrite elem_of_app in Hn.
    intros [?|[?|?]]; [tauto|congruence|tauto]. }
  assert (Hl' : (length (s1 ++ c :: s2) < 1024)%nat) by solve_length.
  destruct (wf_buffer_intro _ Hn' Hl') as [Hwb Hub].
  replace (1024 - length (s1 ++ c :: s2))%nat
    with (S (1022 - (length s1 + length s2))) in Hwb, Hub by solve_length.
  rewrite <- app_assoc in Hwb, Hub. simpl in Hwb, Hub.
  destruct (redraw_wf _ w Hwb) as (w1 & Hr & Hsame). rewrite Hr. simpl.
  assert (Hu2 : until_nul (s1 ++ s2 ++ NUL :: NUL
                           :: replicate (1022 - (length s1 + length s2)) NUL)
                = s1 ++ s2).
  { rewrite app_assoc. by apply until_nul_app_nul. }
  eexists _, _. split; [done|]. simpl.
  split; [|split; [by apply same_but_stdout_printf|split; [done|split]]].
  - unfold editor_wf. simpl. split_and!; try done; try lia.
    rewrite Hub. solve_length.
  - intros Hx. unfold MAX_CMD_LEN in Hx. lia.
  - intros _. split; [done|]. split; [done|].
    rewrite Hub, Hu2, Nat2Z.id. by rewrite take_app_length, drop_app_length.
Qed.

Lemma backspace_wf w e :
  editor_wf e →
  ∃ w' e',
    backspace w e = Some (w', e')
    ∧ editor_wf e' ∧ same_but_stdout w w'
    ∧ history_index e' = history_index e
    ∧ (pos e > 0 →
       len e' = len e - 1 ∧ pos e' = pos e - 1
       ∧ until_nul (line e')
         = take (Z.to_nat (pos e - 1)) (until_nul (line e))
           ++ drop (Z.to_nat (pos e)) (until_nul (line e))).
Proof.
  intros Hwf. unfold backspace. case_decide as Hgo.
  2:{ exists w, e. split_and!; try done.
      intros Hp. destruct Hwf as (_ & _ & _ & Hpos). lia. }
  destruct (editor_wf_split e Hwf) as (s1 & s2 & Hu & Hline & Hn & Hlt & Hp & Hl).
  destruct Hwf as (_ & Hsaved & _ & _).
  destruct e as [b sv n p hi]. simpl in *. subst b n p.
  destruct s1 as [|x s1 _] using rev_ind; [simpl in Hgo; lia|].
  rewrite <- !app_assoc in *. simpl in *.
  rewrite !length_app in *. simpl in *.
  replace (1024 - (length s1 + S (length s2)))%nat
    with (S (1023 - (length s1 + S (length s2)))) by lia.
  simpl replicate.
  pose proof (backspace_buffer s1 x s2 (1023 - (length s1 + S (length s2)))) as H.
  apply bind_Some in H as (b1 & H1 & H2).
  replace (Z.of_nat (length s1 + 1)) with (Z.of_nat (length s1) + 1) by lia.
  rewrite H1. simpl. rewrite H2. simpl.
  assert (Hn' : NUL ∉ (s1 ++ s2)).
  { rewrite elem_of_app. rewrite elem_of_app, elem_of_cons in Hn. tauto. }
  assert (Hl' : (length (s1 ++ s2) < 1024)%nat) by solve_length.
  destruct (wf_buffer_intro _ Hn' Hl') as [Hwb Hub].
  replace (1024 - length (s1 ++ s2))%nat
    with (S (S (1023 - (length s1 + S (length s2))))) in Hwb, Hub
    by solve_length.
  rewrite <- app_assoc in Hwb, Hub. simpl in Hwb, Hub.
  destruct (redraw_wf _ w Hwb) as (w1 & Hr & Hsame). rewrite Hr. simpl.
  assert (Hu2 : until_nul (s1 ++ x :: s2 ++ NUL
                           :: replicate (1023 - (length s1 + S (length s2))) NUL)
                = s1 ++ x :: s2).
  { pose proof (until_nul_app_nul (s1 ++ x :: s2)
                  (replicate (1023 - (length s1 + S (length s2))) NUL) Hn) as H'.
    by rewrite <- app_assoc in H'. }
  eexists _, _. split; [done|]. simpl.
  split; [|split; [by apply same_but_stdout_printf|split; [done|]]].
  - unfold editor_wf. simpl. split_and!; try done; try lia.
    rewrite Hub. solve_length.
  - intros _. split; [lia|]. split; [lia|].
    rewrite Hub, Hu2.
    replace (Z.to_nat (Z.of_nat (length s1) + 1 - 1)) with (length s1) by lia.
    replace (Z.to_nat (Z.of_nat (length s1) + 1)) with (S (length s1)) by lia.
    rewrite take_app_length. f_equal.
    rewrite drop_app_ge by lia.
    by replace (S (length s1) - length s1)%nat with 1%nat by lia.
Qed.

Lemma history_entry h idx :
  history_wf h → 0 ≤ idx < history_count h `min` MAX_HISTORY →
  ∃ s, aget (history h) idx = Some (Some s)
       ∧ (length s < 1024)%nat ∧ NUL ∉ s.
Proof.
  intros (Hc & Hlen & Hall) Hidx. unfold aget. rewrite decide_True by lia.
  rewrite Forall_lookup in Hall.
  destruct (lookup_lt_is_Some_2 (history h) (Z.to_nat idx)) as [slot Hslot].
  { rewrite Hlen. unfold MAX_HISTORY in *. lia. }
  specialize (Hall (Z.to_nat idx) slot).
  rewrite lookup_take_lt in Hall by lia.
  specialize (Hall Hslot). destruct slot as [s|]; [|done].
  destruct Hall as [Hs Hn]. exists s. unfold MAX_CMD_LEN in Hs.
  split; [done|]. split; [lia|done].
Qed.

Lemma history_out_of_bounds h idx :
  history_wf h → MAX_HISTORY ≤ idx → aget (history h) idx = None.
Proof.
  intros (Hc & Hlen & _) Hidx. unfold aget. unfold MAX_HISTORY in *.
  rewrite decide_True by lia. apply lookup_ge_None. rewrite Hlen. lia.
Qed.

Lemma load_entry_wf h idx e :
  history_wf h → editor_wf e → 0 ≤ idx < history_count h →
  match load_entry h idx e with
  | Some e' =>
      editor_wf e' ∧ history_index e' = history_index e
      ∧ saved_line e' = saved_line e
      ∧ aget (history h) idx = Some (Some (until_nul (line e')))
      ∧ pos e' = len e'
  | None => MAX_HISTORY ≤ idx
  end.
Proof.
  intros Hh (Hl & Hs & Hlen & Hpos) Hidx. unfold load_entry.
  destruct (decide (idx < MAX_HISTORY)) as [Hin|Hout].
  - destruct (history_entry h idx Hh) as (s & Hget & Hsl & Hsn); [lia|].
    rewrite Hget. simpl.
    destruct (wf_buffer_strncpy s Hsn Hsl) as [Hwb Hub].
    rewrite wf_buffer_strlen by done. simpl.
    unfold editor_wf. simpl. rewrite Hub. split_and!; try done; lia.
  - rewrite history_out_of_bounds by (done || lia). simpl. lia.
Qed.

Lemma arrow_up_wf w e :
  history_wf (hist w) → editor_wf e →
  match arrow_up w e with
  | Some (w', e') => editor_wf e' ∧ same_but_stdout w w'
  | None => MAX_HISTORY < history_count (hist w)
  end.
Proof.
  intros Hh Hwf. unfold arrow_up.
  case_decide as Hbrowse; [|split; [done|apply same_but_stdout_refl]].
  set (e1 := Editor _ _ _ _ _).
  assert (Hwf1 : editor_wf e1).
  { destruct Hwf as (Hl & Hs & Hlen & Hpos).
    unfold e1, editor_wf. simpl. split_and!; try done; try lia.
    case_decide; [|done]. by rewrite wf_buffer_copy. }
  case_decide as Hidx; [|split; [done|apply same_but_stdout_refl]].
  assert (Hrange : 0 ≤ recall_index (hist w) (history_index e1)
                   < history_count (hist w)).
  { split; [|done]. unfold recall_index. case_decide; lia. }
  pose proof (load_entry_wf (hist w) _ e1 Hh Hwf1 Hrange) as Hload.
  destruct (load_entry _ _ e1) as [e2|]; simpl.
  - destruct Hload as (Hwf2 & _).
    destruct (redraw_wf (line e2) w) as (w2 & Hr & Hsame);
      [by destruct Hwf2|].
    rewrite Hr. simpl. done.
  - lia.
Qed.

Lemma arrow_down_wf w e :
  history_wf (hist w) → editor_wf e →
  match arrow_down w e with
  | Some (w', e') => editor_wf e' ∧ same_but_stdout w w'
  | None => MAX_HISTORY < history_count (hist w)
  end.
Proof.
  intros Hh Hwf. unfold arrow_down.
  case_decide as Hbrowse; [|split; [done|apply same_but_stdout_refl]].
  set (e1 := Editor _ _ _ _ _).
  assert (Hwf1 : editor_wf e1) by (by unfold e1, editor_wf in *).
  assert (Hstep :
    match (if decide (history_index e1 = 0) then
             strlen (strncpy (until_nul (saved_line e1)) MAX_CMD_LEN)
             ≫= λ n, Some (Editor (strncpy (until_nul (saved_line e1)) MAX_CMD_LEN)
                                   (saved_line e1) n n (history_index e1))
           else
             if decide (recall_index (hist w) (history_index e1)
                        < history_count (hist w))
             then load_entry (hist w)
                             (recall_index (hist w) (history_index e1)) e1
             else Some e1)
    with
    | Some e2 => editor_wf e2
    | None => MAX_HISTORY < history_count (hist w)
    end).
  { case_decide as Hzero.
    - destruct Hwf1 as (Hl & Hs & Hlen & Hpos).
      rewrite wf_buffer_copy by done.
      rewrite wf_buffer_strlen by done. simpl.
      unfold editor_wf. simpl. split_and!; try done; lia.
    - case_decide as Hidx; [|done].
      assert (Hrange : 0 ≤ recall_index (hist w) (history_index e1)
                       < history_count (hist w)).
      { split; [|done]. unfold recall_index. case_decide; lia. }
      pose proof (load_entry_wf (hist w) _ e1 Hh Hwf1 Hrange) as Hload.
      destruct (load_entry _ _ e1) as [e2|]; [by destruct Hload|lia]. }
  destruct (if decide (history_index e1 = 0) then _ else _) as [e2|]; simpl;
    [|done].
  destruct (redraw_wf (line e2) w) as (w2 & Hr & Hsame); [by destruct Hstep|].
  rewrite Hr. simpl. done.
Qed.

Lemma arrow_right_wf w e :
  editor_wf e →
  editor_wf (arrow_right w e).2 ∧ same_but_stdout w (arrow_right w e).1.
Proof.
  intros (Hl & Hs & Hlen & Hpos). unfold arrow_right.
  case_decide; simpl; (split; [|by repeat split]).
  - unfold editor_wf. simpl. split_and!; try done; lia.
  - by unfold editor_wf.
Qed.

Lemma arrow_left_wf w e :
  editor_wf e →
  editor_wf (arrow_left w e).2 ∧ same_but_stdout w (arrow_left w e).1.
Proof.
  intros (Hl & Hs & Hlen & Hpos). unfold arrow_left.
  case_decide; simpl; (split; [|by repeat split]).
  - unfold editor_wf. simpl. split_and!; try done; lia.
  - by unfold editor_wf.
Qed.

Lemma arrow_wf c w e :
  history_wf (hist w) → editor_wf e →
  match arrow c w e with
  | Some (w', e') => editor_wf e' ∧ same_but_stdout w w'
  | None =>
      (c = "A"%char ∨ c = "B"%char) ∧ MAX_HISTORY < history_count (hist w)
  end.
Proof.
  intros Hh Hwf. unfold arrow.
  case_decide as HA.
  { pose proof (arrow_up_wf w e Hh Hwf) as H.
    destruct (arrow_up w e) as [[w' e']|]; [done|]. split; [by left|done]. }
  case_decide as HB.
  { pose proof (arrow_down_wf w e Hh Hwf) as H.
    destruct (arrow_down w e) as [[w' e']|]; [done|]. split; [by right|done]. }
  case_decide as HC.
  { pose proof (arrow_right_wf w e Hwf) as H.
    by destruct (arrow_right w e). }
  case_decide as HD.
  { pose proof (arrow_left_wf w e Hwf) as H.
    by destruct (arrow_left w e). }
  split; [done|apply same_but_stdout_refl].
Qed.

Lemma isprint_not_nul c : isprint c = true → c ≠ NUL.
Proof.
  unfold isprint. intros H%bool_decide_eq_true ->.
  change (code NUL) with 0 in H. lia.
Qed.

Lemma plain_key_wf c w e :
  editor_wf e →
  ∃ w' e', plain_key c w e = Some (w', e')
           ∧ editor_wf e' ∧ same_but_stdout w w'.
Proof.
  intros Hwf. unfold plain_key. case_decide as Hbs.
  { destruct (backspace_wf w e Hwf) as (w' & e' & H & ? & ? & _). eauto. }
  destruct (isprint c) eqn:Hp.
  { destruct (insert_char_wf c w e Hwf (isprint_not_nul c Hp))
      as (w' & e' & H & ? & ? & _). eauto. }
  exists w, e. split_and!; try done.
Qed.

Lemma editor_init_wf : editor_wf editor_init.
Proof.
  assert (H : wf_buffer (replicate (Z.to_nat MAX_CMD_LEN) NUL)).
  { apply (wf_buffer_intro []); [apply not_elem_of_nil|simpl; lia]. }
  unfold editor_wf, editor_init. simpl line. simpl saved_line.
  split_and!; try done.
Qed.

Lemma editor_wf_buffer_safe e : editor_wf e → buffer_safe e.
Proof.
  intros (Hl & Hs & Hlen & Hpos). unfold buffer_safe.
  destruct (wf_buffer_shape _ Hl) as [_ Hlt].
  rewrite (wf_buffer_length _ Hl), Hlen. unfold MAX_CMD_LEN.
  split_and!; try done; try lia.
  by apply wf_buffer_nul_at_len.
Qed.

(** The loop never touches the terminal attributes, whatever the exit. *)
Lemma read_loop_wf input :
  ∀ w e, history_wf (hist w) → editor_wf e →
  match read_loop input w e with
  | Some (w', e', rest) => same_but_stdout w w' ∧ wf_buffer (line e')
  | None => MAX_HISTORY < history_count (hist w)
  end.
Proof.
  induction input as [input IH] using (induction_ltof1 _ length).
  unfold ltof in IH. intros w e Hh Hwf.
  assert (Hline : wf_buffer (line e)) by (by destruct Hwf).
  destruct input as [|[c|] rest]; simpl;
    [split; eauto with frame | | split; eauto with frame].
  case_decide as Hlf.
  { split; eauto with frame. }
  case_decide as Hesc.
  - destruct rest as [|[s0|] [|[s1|] rest2]];
      try (split; by eauto with frame).
    case_decide as Hbr.
    + pose proof (arrow_wf s1 w e Hh Hwf) as Ha.
      destruct (arrow s1 w e) as [[w1 e1]|]; simpl; [|by destruct Ha].
      destruct Ha as (Hwf1 & Hsame).
      assert (Hh1 : history_wf (hist w1)).
      { destruct Hsame as (_ & _ & _ & ->). done. }
      pose proof (IH rest2 ltac:(simpl; lia) w1 e1 Hh1 Hwf1) as Hrec.
      destruct (read_loop rest2 w1 e1) as [[[w' e'] r]|].
      * destruct Hrec as [Hs' Hb]. split; [|done].
        by eapply same_but_stdout_trans.
      * destruct Hsame as (_ & _ & _ & <-). done.
    + apply (IH rest2); [simpl; lia|done|done].
  - destruct (plain_key_wf c w e Hwf) as (w1 & e1 & Hk & Hwf1 & Hsame).
    rewrite Hk. simpl.
    assert (Hh1 : history_wf (hist w1)).
    { destruct Hsame as (_ & _ & _ & ->). done. }
    pose proof (IH rest ltac:(simpl; lia) w1 e1 Hh1 Hwf1) as Hrec.
    destruct (read_loop rest w1 e1) as [[[w' e'] r]|].
    * destruct Hrec as [Hs' Hb]. split; [|done].
      by eapply same_but_stdout_trans.
    * destruct Hsame as (_ & _ & _ & <-). done.
Qed.

(** A line handed back by [read_line] fits a buffer, and the history it
    leaves is well-formed again: [history_wf] holds throughout a session,
    as long as the counter has not reached [INT_MAX]. *)
Lemma read_line_history_wf input w s w' rest :
  history_wf (hist w) → history_count (hist w) < INT_MAX →
  read_line input w = Some (s, w', rest) →
  history_wf (hist w') ∧ (length s < 1024)%nat ∧ NUL ∉ s.
Proof.
  intros Hh Hmax. unfold read_line.
  pose proof (read_loop_wf input (enableRawMode w) editor_init Hh editor_init_wf)
    as Hloop.
  destruct (read_loop input (enableRawMode w) editor_init)
    as [[[w1 e] r]|]; simpl; [|done].
  destruct Hloop as ((Ht & Ho & Hlog & Hhist) & Hb).
  rewrite wf_buffer_string_at by done. simpl.
  destruct (wf_buffer_shape _ Hb) as [_ Hlt].
  pose proof (until_nul_no_nul (line e)) as Hn.
  change (hist (enableRawMode w)) with (hist w) in Hhist.
  case_decide; intros [= <- <- <-]; (split; [|done]).
  - change (history_wf (add_to_history (until_nul (line e)) (hist w1))).
    rewrite Hhist. by apply add_to_history_wf.
  - change (history_wf (hist w1)). by rewrite Hhist.
Qed.

(** C5.  Whatever the input, and so whichever way the loop is left (a
    newline, the end of the input, a failed read, also between the bytes of
    an escape sequence), [read_line] ends with the terminal attributes it
    found, and it calls [tcsetattr] exactly twice: once for raw mode, once
    to restore.  The only runs without a result are those whose history
    recall reads past the [history] array, which takes more than
    [MAX_HISTORY] recorded lines. *)
Theorem read_line_restores_terminal input w :
  history_wf (hist w) →
  match read_line input w with
  | Some (s, w', rest) =>
      term w' = term w
      ∧ tc_log w' = tc_log w ++ [raw_of (term w); term w]
  | None => MAX_HISTORY < history_count (hist w)
  end.
Proof.
  intros Hh. unfold read_line.
  pose proof (read_loop_wf input (enableRawMode w) editor_init Hh editor_init_wf)
    as Hloop.
  destruct (read_loop input (enableRawMode w) editor_init)
    as [[[w1 e] rest]|]; simpl; [|done].
  destruct Hloop as ((Ht & Ho & Hlog & Hhist) & Hb).
  rewrite wf_buffer_string_at by done. simpl.
  assert (Hterm : term (disableRawMode w1) = term w) by (simpl; by rewrite Ho).
  assert (Hlog' : tc_log (disableRawMode w1)
                  = tc_log w ++ [raw_of (term w); term w]).
  { simpl. rewrite Hlog, Ho. simpl. by rewrite <- app_assoc. }
  by case_decide.
Qed.

Lemma read_line_restores_terminal_witness :
  history_wf (hist (world_with history_init))
  ∧ match read_line (keys "ls" ++ [Some ESC; Some "["%char; None])
                    (world_with history_init) with
    | Some (s, w', rest) =>
        term w' = cooked ∧ tc_log w' = [raw_of cooked; cooked]
    | None => MAX_HISTORY < 0
    end.
Proof.
  assert (H : history_wf (hist (world_with history_init))).
  { unfold history_wf. apply (bool_decide_unpack _). vm_compute. exact I. }
  split; [exact H|].
  exact (read_line_restores_terminal
           (keys "ls" ++ [Some ESC; Some "["%char; None])
           (world_with history_init) H).
Defined.

(** ** History recall *)

Lemma arrow_up_first w e :
  history_wf (hist w) → editor_wf e → history_index e = 0 →
  0 < history_count (hist w) ≤ MAX_HISTORY →
  ∃ w1 e1, arrow_up w e = Some (w1, e1)
           ∧ editor_wf e1 ∧ history_index e1 = 1 ∧ saved_line e1 = line e
           ∧ pos e1 = len e1
           ∧ aget (history (hist w)) (history_count (hist w) - 1)
             = Some (Some (until_nul (line e1)))
           ∧ same_but_stdout w w1.
Proof.
  intros Hh Hwf Hidx Hcount.
  pose proof Hwf as (Hl & Hs & Hlen & Hpos).
  destruct e as [b sv n p hi]. simpl in *. subst hi.
  unfold arrow_up. simpl.
  rewrite decide_True by lia. rewrite wf_buffer_copy by done.
  change (0 + 1) with 1.
  assert (Hri : recall_index (hist w) 1 = history_count (hist w) - 1).
  { unfold recall_index. case_decide; lia. }
  rewrite Hri. rewrite decide_True by lia.
  set (e1 := Editor _ _ _ _ _).
  assert (Hwf1 : editor_wf e1) by (by unfold e1, editor_wf).
  pose proof (load_entry_wf (hist w) (history_count (hist w) - 1) e1 Hh Hwf1
                ltac:(lia)) as Hload.
  destruct (load_entry _ _ e1) as [e2|]; [|lia].
  destruct Hload as (Hwf2 & Hi2 & Hs2 & Hget & Hp2). simpl.
  destruct (redraw_wf (line e2) w) as (w1 & Hr & Hsame); [by destruct Hwf2|].
  rewrite Hr. simpl. exists w1, e2. by split_and!.
Qed.

Lemma arrow_down_to_draft w e :
  history_index e = 1 → wf_buffer (saved_line e) →
  ∃ w2, arrow_down w e
        = Some (w2, Editor (saved_line e) (saved_line e)
                           (Z.of_nat (length (until_nul (saved_line e))))
                           (Z.of_nat (length (until_nul (saved_line e)))) 0)
        ∧ same_but_stdout w w2.
Proof.
  intros Hidx Hs. destruct e as [b sv n p hi]. simpl in *. subst hi.
  unfold arrow_down. simpl.
  rewrite wf_buffer_copy by done. rewrite wf_buffer_strlen by done. simpl.
  destruct (redraw_wf sv w Hs) as (w2 & Hr & Hsame).
  rewrite Hr. simpl. by exists w2.
Qed.

Lemma up_down_spec w e :
  history_wf (hist w) → editor_wf e → history_index e = 0 →
  0 < history_count (hist w) ≤ MAX_HISTORY →
  ∃ w2 e2, up_down w e = Some (w2, e2)
           ∧ line e2 = line e ∧ len e2 = len e ∧ pos e2 = len e
           ∧ history_index e2 = 0 ∧ same_but_stdout w w2.
Proof.
  intros Hh Hwf Hidx Hcount.
  destruct (arrow_up_first w e Hh Hwf Hidx Hcount)
    as (w1 & e1 & Hup & Hwf1 & Hi1 & Hs1 & _ & _ & Hsame1).
  pose proof Hwf as (Hl & _ & Hlen & _).
  destruct (arrow_down_to_draft w1 e1 Hi1) as (w2 & Hdown & Hsame2).
  { by rewrite Hs1. }
  unfold up_down. rewrite Hup. simpl. rewrite Hdown.
  eexists _, _. split; [done|]. simpl. rewrite Hs1, <- Hlen.
  split_and!; try done. by eapply same_but_stdout_trans.
Qed.

(** C8 (as amended).  With an empty history Up, and Down after it, change
    nothing at all and print nothing.  With one to [MAX_HISTORY] recorded
    lines and the editor not browsing, Up followed by Down gives back the
    buffer and the length as they were before the recall; the cursor ends at
    the end of the buffer. *)
Theorem up_then_down_restores_buffer w e :
  history_wf (hist w) → editor_wf e → history_index e = 0 →
  history_count (hist w) ≤ MAX_HISTORY →
  (history_count (hist w) = 0 →
   arrow_up w e = Some (w, e) ∧ up_down w e = Some (w, e))
  ∧ (0 < history_count (hist w) →
     ∃ w2 e2, up_down w e = Some (w2, e2)
              ∧ line e2 = line e ∧ len e2 = len e ∧ pos e2 = len e).
Proof.
  intros Hh Hwf Hidx Hcount. split.
  - intros Hempty.
    assert (Hup : arrow_up w e = Some (w, e)).
    { unfold arrow_up. by rewrite decide_False by lia. }
    split; [done|]. unfold up_down. rewrite Hup. simpl.
    unfold arrow_down. by rewrite decide_False by lia.
  - intros Hpos.
    destruct (up_down_spec w e Hh Hwf Hidx ltac:(lia))
      as (w2 & e2 & H & ? & ? & ? & _).
    by exists w2, e2.
Qed.

Lemma up_then_down_restores_buffer_witness :
  ∃ w2 e2, up_down (world_with (submit_all [cmd_line 1])) editor_ab
           = Some (w2, e2)
           ∧ line e2 = line editor_ab ∧ len e2 = 2 ∧ pos e2 = 2.
Proof.
  assert (Hh : history_wf (hist (world_with (submit_all [cmd_line 1])))).
  { unfold history_wf. apply (bool_decide_unpack _). vm_compute. exact I. }
  assert (Hwf : editor_wf editor_ab).
  { unfold editor_wf, wf_buffer. apply (bool_decide_unpack _).
    vm_compute. exact I. }
  assert (Hc : history_count (hist (world_with (submit_all [cmd_line 1])))
               ≤ MAX_HISTORY) by (vm_compute; discriminate).
  assert (Hp : 0 < history_count (hist (world_with (submit_all [cmd_line 1]))))
    by (vm_compute; reflexivity).
  exact (proj2 (up_then_down_restores_buffer
                  (world_with (submit_all [cmd_line 1])) editor_ab
                  Hh Hwf eq_refl Hc) Hp).
Defined.

(** C8 as worded fails for the cursor.  After typing [ab] and one Left the
    cursor stands at offset 1; Up followed by Down brings the buffer back
    and leaves the cursor at offset 2.  A letter typed next lands at the
    end: the line read is [abc], not [acb]. *)
Lemma up_down_moves_cursor :
  ∃ w, typed_ab_left = Some (w, editor_ab)
       ∧ history_count (hist w) = 1
       ∧ history_index editor_ab = 0
       ∧ (∃ w2 e2, up_down w editor_ab = Some (w2, e2)
                   ∧ line e2 = line editor_ab ∧ pos editor_ab = 1 ∧ pos e2 = 2)
       ∧ ¬ recall_round_trip w editor_ab
       ∧ (fst ∘ fst) <$> read_line (keys "ab" ++ key_left ++ key_up ++ key_down
                                    ++ keys "c" ++ [Some LF])
                                   (world_with (submit_all [cmd_line 1]))
         = Some (chars "abc").
Proof.
  eexists. split; [vm_compute; reflexivity|].
  split; [reflexivity|]. split; [reflexivity|].
  split; [eexists _, _; split; [vm_compute; reflexivity|by vm_compute]|].
  split; [|by vm_compute].
  intros (w2 & e2 & H & _ & _ & Hp).
  vm_compute in H. injection H as <- <-. vm_compute in Hp. discriminate Hp.
Qed.

(** C9 fails on the code.  After 101 submitted lines the first Up computes
    [idx = history_count - history_index = 100], which passes the guard
    [idx < history_count] and is used to read [history[100]], one slot past
    the array of [MAX_HISTORY] pointers. *)
Lemma recall_index_out_of_bounds :
  history_wf (submit_all lines101)
  ∧ history_count (submit_all lines101) = 101
  ∧ recall_index (submit_all lines101) 1 = 100
  ∧ ¬ (recall_index (submit_all lines101) 1
       < history_count (submit_all lines101) `min` MAX_HISTORY)
  ∧ aget (history (submit_all lines101)) 100 = None
  ∧ arrow_up (world_with (submit_all lines101)) editor_init = None
  ∧ read_line (key_up ++ [Some LF]) (world_with (submit_all lines101)) = None
  ∧ (λ r, (r.1.1, hist r.1.2, r.2))
      <$> read_lines 101 (typed lines101 ++ key_up ++ [Some LF])
                     (world_with history_init)
    = Some (lines101, submit_all lines101, key_up ++ [Some LF])
  ∧ read_lines 102 (typed lines101 ++ key_up ++ [Some LF])
               (world_with history_init) = None.
Proof.
  split.
  { unfold history_wf. apply (bool_decide_unpack _). vm_compute. exact I. }
  split; [vm_compute; reflexivity|]. split; [vm_compute; reflexivity|].
  split; [vm_compute; intros H; discriminate H|].
  split; [vm_compute; reflexivity|]. split; [vm_compute; reflexivity|].
  split; [vm_compute; reflexivity|].
  split; vm_compute; reflexivity.
Qed.

(** ** Buffer safety *)

(** C10.  A printable byte is inserted, at the cursor, only while
    [len < MAX_CMD_LEN - 1]; otherwise the keystroke changes nothing.  Every keystroke handled inside
    the loop (a printable byte, backspace, any other byte, the four arrows)
    leaves a buffer of [MAX_CMD_LEN] bytes with a NUL at offset [len] and
    [0 <= pos <= len <= MAX_CMD_LEN - 1].  An arrow has no resulting state
    only when the recall reads past the [history] array. *)
Theorem editor_buffer_safe c w e :
  history_wf (hist w) → editor_wf e →
  (isprint c = true →
   ∃ w' e', plain_key c w e = Some (w', e')
            ∧ (¬ len e < MAX_CMD_LEN - 1 → w' = w ∧ e' = e)
            ∧ (len e < MAX_CMD_LEN - 1 →
               len e' = len e + 1 ∧ pos e' = pos e + 1
               ∧ until_nul (line e')
                 = take (Z.to_nat (pos e)) (until_nul (line e))
                   ++ c :: drop (Z.to_nat (pos e)) (until_nul (line e))))
  ∧ (∃ w' e', plain_key c w e = Some (w', e')
              ∧ editor_wf e' ∧ buffer_safe e')
  ∧ match arrow c w e with
    | Some (w', e') => editor_wf e' ∧ buffer_safe e'
    | None =>
        (c = "A"%char ∨ c = "B"%char) ∧ MAX_HISTORY < history_count (hist w)
    end.
Proof.
  intros Hh Hwf. split_and!.
  - intros Hp. unfold plain_key.
    assert (Hnb : ¬ (code c = 127 ∨ code c = 8)).
    { unfold isprint in Hp. apply bool_decide_eq_true in Hp. lia. }
    rewrite decide_False by done. rewrite Hp.
    destruct (insert_char_wf c w e Hwf (isprint_not_nul c Hp))
      as (w' & e' & H & _ & _ & _ & Hfull & Hroom).
    exists w', e'. split; [done|]. split; [done|]. exact Hroom.
  - destruct (plain_key_wf c w e Hwf) as (w' & e' & H & Hwf' & _).
    exists w', e'. split; [done|]. split; [done|].
    by apply editor_wf_buffer_safe.
  - pose proof (arrow_wf c w e Hh Hwf) as H.
    destruct (arrow c w e) as [[w' e']|]; [|done].
    destruct H as [Hwf' _]. split; [done|]. by apply editor_wf_buffer_safe.
Qed.

Lemma editor_buffer_safe_witness :
  ∃ w' e', plain_key "c"%char (world_with (submit_all [cmd_line 1])) editor_ab
           = Some (w', e')
           ∧ editor_wf e' ∧ buffer_safe e'.
Proof.
  assert (Hh : history_wf (hist (world_with (submit_all [cmd_line 1])))).
  { unfold history_wf. apply (bool_decide_unpack _). vm_compute. exact I. }
  assert (Hwf : editor_wf editor_ab).
  { unfold editor_wf, wf_buffer. apply (bool_decide_unpack _).
    vm_compute. exact I. }
  exact (proj1 (proj2 (editor_buffer_safe "c"%char
                         (world_with (submit_all [cmd_line 1])) editor_ab
                         Hh Hwf))).
Defined.

(** ** Tokenizer *)

Lemma strcspn_le s d : (strcspn s d ≤ length s)%nat.
Proof. induction s as [|c s IH]; simpl; [lia|]. destruct (is_in c d); simpl; lia. Qed.

Lemma strspn_le s d : (strspn s d ≤ length s)%nat.
Proof. induction s as [|c s IH]; simpl; [lia|]. destruct (is_in c d); simpl; lia. Qed.

(** A token is never empty, and each call shortens what is left. *)
Lemma strtok_r_Some s d a sp :
  strtok_r s d = (Some a, sp) →
  a ≠ [] ∧ (length a + 2 * length sp + 1 ≤ 2 * length s)%nat.
Proof.
  unfold strtok_r. pose proof (strspn_le s d) as Hk.
  destruct (drop (strspn s d) s) as [|c s1] eqn:E; [done|].
  intros [= <- <-].
  assert (Hl : (length (c :: s1) ≤ length s)%nat).
  { rewrite <- E, length_drop. lia. }
  pose proof (strcspn_le (c :: s1) d) as Hn.
  simpl in *. destruct (is_in c d) eqn:Hc.
  - (* the first byte after the skipped delimiters is no delimiter *)
    exfalso. clear Hn Hl Hk. revert E Hc.
    induction s as [|x s IH]; simpl; [done|].
    destruct (is_in x d) eqn:Hx; simpl; [apply IH|].
    intros [= -> ->]. congruence.
  - split; [done|]. simpl.
    rewrite length_take, length_drop. lia.
Qed.

Lemma strtok_r_measure s d a sp :
  strtok_r s d = (a, sp) → (args_measure a sp < 2 * length s + 1)%nat.
Proof.
  destruct a as [a|]; intros H; simpl; [|lia].
  apply strtok_r_Some in H as [_ H]. lia.
Qed.

Lemma strtok_r_skip c s d :
  is_in c d = true → strtok_r (c :: s) d = strtok_r s d.
Proof. intros H. unfold strtok_r. simpl. by rewrite H. Qed.

Lemma strtok_r_word c s d :
  is_in c d = false →
  strtok_r (c :: s) d
  = (Some (c :: take (strcspn s d) s), drop (S (strcspn s d)) s).
Proof. intros H. unfold strtok_r. simpl. rewrite H. simpl. by rewrite H. Qed.

Lemma tokens_by_word d s :
  ∀ c, is_in c d = false →
  tokens_by d (c :: s)
  = (c :: take (strcspn s d) s) :: tokens_by d (drop (S (strcspn s d)) s).
Proof.
  induction s as [|c' s' IH]; intros c Hc.
  - simpl. by rewrite Hc.
  - change (tokens_by d (c :: c' :: s'))
      with (if is_in c d then tokens_by d (c' :: s')
            else if is_in c' d then [c] :: tokens_by d (c' :: s')
                 else match tokens_by d (c' :: s') with
                      | t :: ts => (c :: t) :: ts
                      | [] => [[c]]
                      end).
    rewrite Hc. destruct (is_in c' d) eqn:Hc'.
    + simpl. rewrite Hc'. done.
    + rewrite (IH c' Hc'). simpl strcspn. rewrite Hc'. done.
Qed.

(** [strtok_r] hands out the pieces of the string one by one. *)
Lemma strtok_r_tokens d s :
  (strtok_r s d).1 = head (tokens_by d s)
  ∧ tokens_by d (strtok_r s d).2 = tail (tokens_by d s).
Proof.
  induction s as [|c s IH]; [done|].
  destruct (is_in c d) eqn:Hc.
  - rewrite strtok_r_skip by done. simpl. by rewrite Hc.
  - rewrite strtok_r_word, tokens_by_word by done. done.
Qed.

Lemma strtok_r_next d s a sp :
  strtok_r s d = (a, sp) →
  a = head (tokens_by d s) ∧ tokens_by d sp = tail (tokens_by d s).
Proof.
  intros H. pose proof (strtok_r_tokens d s) as [H1 H2].
  rewrite H in H1, H2. done.
Qed.

(** ** Argument loop *)

Lemma strchr_Some s c k :
  strchr s c = Some k → (c ∉ take k s) ∧ s !! k = Some c.
Proof.
  revert k. induction s as [|x s IH]; intros k; simpl; [done|].
  case_decide as Hx.
  - intros [= <-]. subst. split; [apply not_elem_of_nil|done].
  - destruct (strchr s c) as [k'|]; [|done]. simpl. intros [= <-].
    destruct (IH k' eq_refl) as [Hn Hl]. simpl. split; [|done].
    apply not_elem_of_cons. split; [congruence|done].
Qed.

Lemma strchr_None s c : strchr s c = None → c ∉ s.
Proof.
  induction s as [|x s IH]; simpl; [intros _; apply not_elem_of_nil|].
  case_decide as Hx; [done|].
  destruct (strchr s c); [done|]. intros _.
  apply not_elem_of_cons. split; [congruence|by apply IH].
Qed.

Lemma elem_of_drop_inv {A} (x : A) n l : x ∈ drop n l → x ∈ l.
Proof.
  intros H. rewrite <- (take_drop n l). apply elem_of_app. by right.
Qed.

(** With enough fuel the loop ends, and it only ever adds arguments. *)
Lemma parse_args_total fuel :
  ∀ arg sp c,
    (args_measure arg sp < fuel)%nat →
    ∃ c', parse_args fuel arg sp c = Some c' ∧ args c `prefix_of` args c'.
Proof.
  induction fuel as [|f IH]; intros arg sp c Hm; [lia|].
  destruct arg as [a|]; simpl; [|by exists c].
  simpl in Hm.
  assert (Hnext : ∀ c1, args c `prefix_of` args c1 →
            ∃ c', (let '(arg', sp') := strtok_r sp blanks in
                   parse_args f arg' sp' c1) = Some c'
                  ∧ args c `prefix_of` args c').
  { intros c1 Hc1. destruct (strtok_r sp blanks) as [arg' sp'] eqn:E.
    destruct (IH arg' sp' c1) as (c' & H & Hp).
    - destruct arg' as [a'|]; simpl; [|lia].
      apply strtok_r_Some in E as [_ E]. lia.
    - exists c'. split; [done|]. by etrans. }
  assert (Hpush : ∀ x, args c `prefix_of` args (push_arg x c))
    by (intros x; by apply prefix_app_r).
  case_decide as Hroom; [|by exists c].
  case_decide as Hout.
  { destruct (strtok_r sp blanks) as [[f0|] sp1]; [|by exists c].
    destruct (match f0 with
              | [] => Some f0
              | q :: _ => if decide (q = QUOTE)
                          then (strtok_r sp1 [QUOTE]).1 else Some f0
              end); eexists; (split; [done|]); done. }
  case_decide as Hin.
  { destruct (strtok_r sp blanks).1; eexists; (split; [done|]); done. }
  case_decide as Hbg; [by apply Hnext|].
  destruct a as [|q body]; [by apply Hnext|].
  destruct (if decide (q = QUOTE) then strchr body QUOTE else None)
    as [k|] eqn:Ek; [|by apply Hnext].
  destruct (IH (Some (drop (S k) body)) sp (push_arg (take k body) c))
    as (c' & H & Hp).
  - simpl in *. rewrite length_drop. lia.
  - exists c'. split; [done|]. etrans; [apply Hpush|done].
Qed.

(** ** The parser always returns *)

Lemma parse_command_total seg : ∃ c, parse_command seg = Some c.
Proof.
  unfold parse_command. destruct (strtok_r seg blanks) as [arg sp] eqn:E.
  destruct (parse_args_total (2 * length seg + 1) arg sp new_command)
    as (c & H & _); [by eapply strtok_r_measure|].
  by exists c.
Qed.

Lemma parse_segments_total fuel :
  ∀ token sp p,
    (segments_measure token sp < fuel)%nat →
    Z.of_nat (length p) ≤ MAX_PIPES → Forall parsed_stage p →
    ∃ p', parse_segments fuel token sp p = Some p'
          ∧ Z.of_nat (length p') ≤ MAX_PIPES ∧ Forall parsed_stage p'.
Proof.
  induction fuel as [|f IH]; intros token sp p Hm Hlen Hall; [lia|].
  destruct token as [tok|]; simpl; [|by exists p].
  case_decide as Hroom; [|by exists p].
  destruct (strtok_r sp _) as [next sp'] eqn:E.
  assert (Hm' : (segments_measure next sp' < f)%nat).
  { simpl in Hm. destruct next as [a|]; simpl; [|lia].
    apply strtok_r_Some in E as [Ha E].
    destruct a; [done|]. simpl in E. lia. }
  destruct (trim tok) as [|x seg] eqn:Et.
  - by apply IH.
  - destruct (parse_command_total (x :: seg)) as [c Hc]. rewrite Hc. simpl.
    apply IH; [done|rewrite length_app; simpl; lia|].
    apply Forall_app. split; [done|]. apply Forall_singleton.
    by exists (x :: seg).
Qed.

(** [parse_pipeline] returns for every line, with at most [MAX_PIPES]
    stages, each parsed from a segment that was not empty after trimming. *)
Lemma parse_pipeline_total line :
  ∃ p, parse_pipeline line = Some p
       ∧ Z.of_nat (length p) ≤ MAX_PIPES ∧ Forall parsed_stage p.
Proof.
  unfold parse_pipeline.
  destruct (strtok_r (until_nul line) (chars "|")) as [token sp] eqn:E.
  apply parse_segments_total; [|done|done].
  destruct token as [a|]; simpl; [|lia].
  apply strtok_r_Some in E as [Ha E]. destruct a; [done|]. simpl in E. lia.
Qed.

(** ** From the line to its Stages *)

Lemma pieces_after d s a sp :
  strtok_r s d = (a, sp) →
  match a with Some t => t :: tokens_by d sp | None => [] end = tokens_by d s.
Proof.
  intros E. apply strtok_r_next in E as [-> ->].
  by destruct (tokens_by d s).
Qed.

Lemma parse_segments_spec fuel :
  ∀ token sp p,
    (segments_measure token sp < fuel)%nat →
    Z.of_nat (length p) ≤ MAX_PIPES →
    parse_segments fuel token sp p
    = mapM parse_command
        (take (10 - length p)
           (filter (λ seg, seg ≠ [])
              (trim <$> match token with
                        | Some t => t :: tokens_by (chars "|") sp
                        | None => []
                        end)))
      ≫= λ rest, Some (p ++ rest).
Proof.
  induction fuel as [|f IH]; intros token sp p Hm Hlen; [lia|].
  destruct token as [tok|]; simpl parse_segments.
  2:{ destruct (10 - length p)%nat; cbn; by rewrite app_nil_r. }
  unfold MAX_PIPES in *. case_decide as Hroom.
  2:{ replace (10 - length p)%nat with 0%nat by lia. rewrite take_0. cbn.
      by rewrite app_nil_r. }
  change (chars "|") with ["|"%char] in *.
  destruct (strtok_r sp _) as [next sp'] eqn:E.
  assert (Hm' : (segments_measure next sp' < f)%nat).
  { simpl in Hm. destruct next as [a|]; simpl; [|lia].
    apply strtok_r_Some in E as [Ha E].
    destruct a; [done|]. simpl in E. lia. }
  rewrite fmap_cons, <- (pieces_after _ _ _ _ E).
  destruct (trim tok) as [|x seg] eqn:Et.
  - rewrite filter_cons_False by (intros H; by apply H).
    by apply IH.
  - rewrite filter_cons_True by done.
    replace (10 - length p)%nat with (S (10 - S (length p))) by lia.
    cbn [take mapM].
    destruct (parse_command (x :: seg)) as [c|]; [|done]. cbn [mbind option_bind].
    rewrite IH by (done || (rewrite length_app; simpl; lia)).
    rewrite length_app. simpl length.
    replace (10 - (length p + 1))%nat with (10 - S (length p))%nat by lia.
    destruct (mapM parse_command _) as [rest|]; [|done]. cbn.
    by rewrite <- app_assoc.
Qed.

(** X11.  The Stages of a line are the parses of its first [MAX_PIPES]
    segments, in order, where the segments are the pieces between pipe
    symbols with the spaces at both ends taken off; pieces that are empty
    then leave no Stage, and pieces after the tenth segment are dropped. *)
Lemma parse_pipeline_segments line :
  parse_pipeline line = mapM parse_command (take 10 (segments line)).
Proof.
  unfold parse_pipeline, segments.
  change (chars "|") with ["|"%char] in *.
  destruct (strtok_r (until_nul line) _) as [token sp] eqn:E.
  rewrite parse_segments_spec.
  - change (chars "|") with ["|"%char]. rewrite (pieces_after _ _ _ _ E).
    simpl length. rewrite Nat.sub_0_r.
    by destruct (mapM parse_command _).
  - destruct token as [a|]; simpl; [|lia].
    apply strtok_r_Some in E as [Ha E]. destruct a; [done|]. simpl in E. lia.
  - done.
Qed.

Lemma quiet_not_redirection a : quiet a → ¬ is_redirection a.
Proof.
  intros [Hl Hg] [->|[->| ->]].
  - apply Hl. apply elem_of_cons. by left.
  - apply Hg. apply elem_of_cons. by left.
  - apply Hg. apply elem_of_cons. by left.
Qed.

Lemma stream_file_push op x c : stream_file op (push_arg x c) = stream_file op c.
Proof. unfold stream_file. by case_decide. Qed.

Lemma stream_file_background op c :
  stream_file op (set_background c) = stream_file op c.
Proof. unfold stream_file. by case_decide. Qed.

Lemma stream_file_input op c :
  op = chars "<" → stream_file op c = input_file c.
Proof. intros ->. done. Qed.

Lemma stream_file_output op c :
  op ≠ chars "<" → stream_file op c = output_file c.
Proof. intros H. unfold stream_file. by rewrite decide_False. Qed.

(** The loop on a segment that ends in the operator [op], as long as no
    value it tests before is an operator of the same stream: the file field
    of that stream stays unset, whether the loop reaches the final operator,
    stops at a redirection of the other stream or runs out of room. *)
Lemma parse_args_stream op fuel :
  is_redirection op →
  ∀ a sp c ws n,
    (args_measure (Some a) sp < fuel)%nat →
    stream_file op c = None →
    ((length a < n)%nat
     ∧ Forall (λ x, ¬ same_stream op x) (tested n a)
     ∧ tokens sp = ws ++ [op] ∧ stream_untouched op ws)
    ∨ (a = op ∧ tokens sp = []) →
    ∃ c', parse_args fuel (Some a) sp c = Some c' ∧ stream_file op c' = None.
Proof.
  intros Hop. induction fuel as [|f IH]; intros a sp c ws n Hm Hc Hst;
    [simpl in Hm; lia|].
  simpl. case_decide as Hroom; [|by exists c].
  destruct Hst as [(Hn & Ha & Htok & Hws)|[-> Htok]].
  - (* a value tested before the final operator *)
    destruct n as [|n']; [lia|]. simpl tested in Ha.
    apply Forall_cons in Ha as [Hnot Ha].
    assert (Hnext : ∀ c1, stream_file op c1 = None →
              ∃ c', (let '(arg', sp') := strtok_r sp blanks in
                     parse_args f arg' sp' c1) = Some c'
                    ∧ stream_file op c' = None).
    { intros c1 Hc1. destruct (strtok_r sp blanks) as [arg' sp'] eqn:E.
      pose proof (strtok_r_next _ _ _ _ E) as [Harg Hsp]. rewrite Htok in Harg, Hsp.
      destruct ws as [|w ws']; simpl in Harg, Hsp; subst arg'.
      - apply (IH op sp' c1 [] 0%nat); try done; [|by right].
        apply strtok_r_Some in E as [_ E]. simpl in *. lia.
      - apply Forall_cons in Hws as [Hw Hws'].
        apply (IH w sp' c1 ws' (S (length w))); try done;
          [|left; split_and!; try done; lia].
        apply strtok_r_Some in E as [_ E]. simpl in *. lia. }
    case_decide as Hout.
    { (* [>] or [>>]: the final operator is [<] *)
      assert (Hin : op = chars "<").
      { destruct Hop as [?|Hop]; [done|]. exfalso. apply Hnot. by right. }
      rewrite stream_file_input in Hc by done.
      destruct (strtok_r sp blanks) as [[f0|] sp1];
        [|exists c; by rewrite stream_file_input].
      destruct (match f0 with
                | [] => Some f0
                | q :: _ => if decide (q = QUOTE)
                            then (strtok_r sp1 [QUOTE]).1 else Some f0
                end); eexists; (split; [done|]);
        by rewrite stream_file_input. }
    case_decide as Hin.
    { (* [<]: the final operator is [>] or [>>] *)
      assert (Hout' : op ≠ chars "<").
      { intros ->. apply Hnot. by left. }
      rewrite stream_file_output in Hc by done.
      destruct (strtok_r sp blanks).1; eexists; (split; [done|]);
        by rewrite stream_file_output. }
    case_decide as Hbg; [apply Hnext; by rewrite stream_file_background|].
    destruct a as [|q body]; [apply Hnext; by rewrite stream_file_push|].
    destruct (if decide (q = QUOTE) then strchr body QUOTE else None)
      as [k|] eqn:Ek; [|apply Hnext; by rewrite stream_file_push].
    apply (IH _ sp _ ws n'); [| by rewrite stream_file_push |].
    + simpl in *. rewrite length_drop. lia.
    + left. split_and!; try done. rewrite length_drop. simpl in Hn. lia.
  - (* the final operator: nothing follows it *)
    assert (Hnone : (strtok_r sp blanks).1 = None).
    { destruct (strtok_r_tokens blanks sp) as [H _]. by rewrite Htok in H. }
    destruct (strtok_r sp blanks) as [file sp1]. simpl in Hnone. subst file.
    case_decide; [by exists c|].
    case_decide; [by exists c|].
    destruct Hop as [->|[->| ->]]; tauto.
Qed.

(** C6 (as amended).  When the last word of a segment is a redirection
    operator and no redirection of the same stream comes before it (no value
    the loop tests for an earlier word is an operator of that stream),
    parsing the segment yields a Stage in which the file of that stream is
    not set.  Earlier words may hold [<] and [>] bytes, and an earlier
    redirection of the other stream does no harm. *)
Theorem dangling_redirection_ignored seg ws op :
  tokens seg = ws ++ [op] → is_redirection op → stream_untouched op ws →
  ∃ c, parse_command seg = Some c ∧ stream_file op c = None.
Proof.
  intros Htok Hop Hws. unfold parse_command.
  destruct (strtok_r seg blanks) as [arg sp] eqn:E.
  pose proof (strtok_r_measure _ _ _ _ E) as Hm.
  pose proof (strtok_r_next _ _ _ _ E) as [Ha Hsp]. rewrite Htok in Ha, Hsp.
  assert (Hnew : stream_file op new_command = None)
    by (unfold stream_file; by case_decide).
  destruct ws as [|w ws']; simpl in Ha, Hsp; subst arg.
  - apply (parse_args_stream op _ Hop op sp new_command [] 0%nat); try done.
    by right.
  - apply Forall_cons in Hws as [Hw Hws'].
    apply (parse_args_stream op _ Hop w sp new_command ws' (S (length w)));
      try done.
    left. split_and!; try done. lia.
Qed.

Lemma dangling_redirection_ignored_witness :
  stream_untouched (chars ">") [chars "sort"; chars "<"; chars "a>b"]
  ∧ ∃ c, parse_command (chars "sort < a>b >") = Some c
         ∧ stream_file (chars ">") c = None.
Proof.
  assert (H : stream_untouched (chars ">") [chars "sort"; chars "<"; chars "a>b"]).
  { unfold stream_untouched. apply (bool_decide_unpack _). vm_compute. exact I. }
  split; [exact H|].
  apply (dangling_redirection_ignored (chars "sort < a>b >")
           [chars "sort"; chars "<"; chars "a>b"] (chars ">")).
  - reflexivity.
  - right. left. reflexivity.
  - exact H.
Defined.

(** C6 as worded fails when an earlier operator of the same stream has
    taken its file name: in [ls > out >] and in [ls > >] the last word is [>]
    with nothing after it, yet the Stage has an output file ([out], and [>]
    itself). *)
Lemma dangling_redirection_counterexample :
  tokens (chars "ls > out >") = [chars "ls"; chars ">"; chars "out"; chars ">"]
  ∧ parse_pipeline (chars "ls > out >")
    = Some [mkCommand [chars "ls"] None (Some (chars "out")) 0 0]
  ∧ tokens (chars "ls > >") = [chars "ls"; chars ">"; chars ">"]
  ∧ parse_pipeline (chars "ls > >")
    = Some [mkCommand [chars "ls"] None (Some (chars ">")) 0 0]
  ∧ ¬ (∀ seg ws op,
         tokens seg = ws ++ [op] → is_redirection op →
         ∃ c, parse_command seg = Some c ∧ stream_file op c = None).
Proof.
  split_and!; try reflexivity.
  intros H.
  destruct (H (chars "ls > out >") [chars "ls"; chars ">"; chars "out"]
              (chars ">") eq_refl) as (c & Hc & Ho).
  { right. left. reflexivity. }
  vm_compute in Hc. injection Hc as <-. discriminate Ho.
Qed.

(** ** Quoted tokens *)

Lemma unquote_no_quote a : head a ≠ Some QUOTE → unquote a = a.
Proof. intros H. unfold unquote. rewrite decide_False; [done|tauto]. Qed.

Lemma unquote_open_quote body :
  QUOTE ∉ body → unquote (QUOTE :: body) = QUOTE :: body.
Proof.
  intros H. unfold unquote. rewrite decide_False; [done|].
  intros (Hl & _ & Hlast). destruct body as [|x body _] using rev_ind.
  - simpl in Hl. lia.
  - rewrite app_comm_cons, last_snoc in Hlast. injection Hlast as ->.
    apply H. apply elem_of_app. right. apply elem_of_cons. by left.
Qed.

(** C7 fails on the code, through two slips of the quote handling.  The
    closing quote is looked for with [strchr] inside the current word only,
    a word being what [strtok_r] cut at blanks: for [echo "a b"] no quoted
    span is seen, the Stage holds the two words as typed, quotes included,
    [execvp] receives them so, and no argument is [a b].  And what follows
    the closing quote inside the word is taken for a further word, even when
    it is empty: [echo "abc"] and [ls "dir"] get an empty argument after the
    quoted one, three arguments where the claim has two. *)
Lemma quoted_token_defects :
  tokens echo_quoted_a_b
  = [chars "echo"; QUOTE :: chars "a"; chars "b" ++ [QUOTE]]
  ∧ parse_pipeline echo_quoted_a_b
    = Some [mkCommand [chars "echo"; QUOTE :: chars "a"; chars "b" ++ [QUOTE]]
                      None None 0 0]
  ∧ argv_of (mkCommand [chars "echo"; QUOTE :: chars "a"; chars "b" ++ [QUOTE]]
                       None None 0 0)
    = [chars "echo"; QUOTE :: chars "a"; chars "b" ++ [QUOTE]]
  ∧ ¬ (∃ c, parse_pipeline echo_quoted_a_b = Some [c]
            ∧ chars "a b" ∈ argv_of c)
  ∧ parse_pipeline echo_quoted_abc
    = Some [mkCommand [chars "echo"; chars "abc"; []] None None 0 0]
  ∧ parse_pipeline ls_quoted_dir
    = Some [mkCommand [chars "ls"; chars "dir"; []] None None 0 0].
Proof.
  split_and!; try reflexivity.
  intros (c & Hc & Hin). vm_compute in Hc. injection Hc as <-.
  revert Hin. apply (bool_decide_unpack _). vm_compute. exact I.
Qed.

(** ** Stages without arguments *)

(** C2 fails on the code.  A segment made only of [&], or that starts with
    a redirection operator, passes the emptiness test and still leaves
    [args[0]] NULL; [main] then hands that NULL to [strcmp].  The earlier
    revision does the same on a line that is a single blank. *)
Lemma stage_without_arguments :
  parse_pipeline (chars "&") = Some [mkCommand [] None None 0 1]
  ∧ parse_pipeline (chars "> out")
    = Some [mkCommand [] None (Some (chars "out")) 0 0]
  ∧ parse_pipeline (chars "ls | < in")
    = Some [mkCommand [chars "ls"] None None 0 0;
            mkCommand [] (Some (chars "in")) None 0 0]
  ∧ parse_pipeline [TAB] = Some [mkCommand [] None None 0 0]
  ∧ head (args (mkCommand [] None None 0 1)) = None
  ∧ first_word_is_exit [mkCommand [] None None 0 1] = None
  ∧ Earlier.parse_pipeline (chars " ") = Some [mkCommand [] None None 0 0].
Proof. split_and!; reflexivity. Qed.

(** ** Descriptor tables *)

Lemma fd_lookup_install t fd f j :
  fd_lookup (fd_install t fd f) j
  = if decide (j = fd) then Some f else fd_lookup t j.
Proof.
  unfold fd_lookup, fd_install. case_decide as Hj.
  - subst. rewrite list_lookup_insert_eq; [done|]. solve_length.
  - rewrite list_lookup_insert_ne by done.
    destruct (decide (j < length t)%nat).
    + by rewrite lookup_app_l.
    + rewrite lookup_app_r by lia. rewrite (lookup_ge_None_2 t) by lia.
      destruct (replicate _ _ !! _) as [x|] eqn:E; [|done].
      apply lookup_replicate in E as [-> _]. done.
Qed.

Lemma fd_lookup_close fd t j :
  fd_lookup (close fd t) j = if decide (j = fd) then None else fd_lookup t j.
Proof.
  unfold fd_lookup, close. case_decide as Hj.
  - subst. destruct (decide (fd < length t)%nat).
    + by rewrite list_lookup_insert_eq.
    + rewrite list_insert_ge by lia. by rewrite lookup_ge_None_2 by lia.
  - by rewrite list_lookup_insert_ne.
Qed.

Lemma fd_lookup_dup2 old new t j :
  fd_lookup (dup2 old new t) j
  = match fd_lookup t old with
    | Some f => if decide (j = new) then Some f else fd_lookup t j
    | None => fd_lookup t j
    end.
Proof.
  unfold dup2. destruct (fd_lookup t old) as [f|] eqn:E; [|done].
  apply fd_lookup_install.
Qed.

Lemma lowest_free_free t : fd_lookup t (lowest_free t) = None.
Proof. induction t as [|[f|] t IH]; done. Qed.

Lemma lowest_free_ne t j : is_Some (fd_lookup t j) → lowest_free t ≠ j.
Proof. intros [f Hf] <-. by rewrite lowest_free_free in Hf. Qed.

Lemma fd_lookup_redirect f target t j :
  is_Some (fd_lookup t target) →
  fd_lookup (redirect f target t) j
  = if decide (j = target) then Some f else fd_lookup t j.
Proof.
  intros Ht. unfold redirect.
  pose proof (lowest_free_ne t target Ht) as Hne.
  pose proof (lowest_free_free t) as Hfree.
  rewrite fd_lookup_close, fd_lookup_dup2, !fd_lookup_install.
  repeat case_decide; subst; congruence.
Qed.

Lemma fd_lookup_close_from_3 t j :
  (j < 3)%nat → fd_lookup (close_from_3 t) j = fd_lookup t j.
Proof. intros Hj. unfold fd_lookup, close_from_3. by rewrite lookup_take_lt. Qed.

(** ** The executor, for any answers of the system *)

Section Executor.

Context (env : os_env).

(** *** The child's descriptors *)

Lemma redirect_input_spec cmd t :
  is_Some (fd_lookup t stdin_fd) →
  match redirect_input env cmd t with
  | Some t1 =>
      match input_file cmd with Some f => can_read env f | None => true end
      = true
      ∧ ∀ j, fd_lookup t1 j
             = if decide (j = stdin_fd)
               then match input_file cmd with
                    | Some f => Some (FileRead f)
                    | None => fd_lookup t stdin_fd
                    end
               else fd_lookup t j
  | None =>
      match input_file cmd with Some f => can_read env f | None => true end
      = false
  end.
Proof.
  intros Ht. unfold redirect_input.
  destruct (input_file cmd) as [f|].
  - destruct (can_read env f); [|done]. split; [done|].
    intros j. by apply fd_lookup_redirect.
  - split; [done|]. intros j. case_decide; by subst.
Qed.

Lemma redirect_output_spec cmd t :
  is_Some (fd_lookup t stdout_fd) →
  match redirect_output env cmd t with
  | Some t1 =>
      match output_file cmd with Some f => can_write env f | None => true end
      = true
      ∧ ∀ j, fd_lookup t1 j
             = if decide (j = stdout_fd)
               then match output_file cmd with
                    | Some f =>
                        Some (FileWrite f (if decide (append cmd = 0)
                                           then 0 else 1))
                    | None => fd_lookup t stdout_fd
                    end
               else fd_lookup t j
  | None =>
      match output_file cmd with Some f => can_write env f | None => true end
      = false
  end.
Proof.
  intros Ht. unfold redirect_output.
  destruct (output_file cmd) as [f|].
  - destruct (can_write env f); [|done]. split; [done|].
    intros j. by apply fd_lookup_redirect.
  - split; [done|]. intros j. case_decide; by subst.
Qed.

Lemma use_fd_spec t std fd p j :
  (std < 2)%nat → linked t std fd p →
  fd_lookup (use_fd fd std t) j
  = match p with
    | None => fd_lookup t j
    | Some f => if decide (j = std) then Some f
                else if decide (j = fd) then None else fd_lookup t j
    end.
Proof.
  intros Hstd [[-> ->]|(Hfd & f & -> & Hf)]; unfold use_fd.
  - by rewrite decide_False by (intros H; by apply H).
  - rewrite decide_True by lia.
    rewrite fd_lookup_close, fd_lookup_dup2, Hf.
    repeat case_decide; subst; (done || lia).
Qed.

Ltac std_fds :=
  change stdin_fd with 0%nat in *; change stdout_fd with 1%nat in *.

(** What [child_run] leaves on descriptors 0 and 1. *)
Lemma child_run_wiring cmd input_fd output_fd t in0 out0 pin pout :
  fd_lookup t stdin_fd = Some in0 → fd_lookup t stdout_fd = Some out0 →
  linked t stdin_fd input_fd pin → linked t stdout_fd output_fd pout →
  input_fd ≠ output_fd →
  child_wired env in0 out0 pin pout cmd
    (child_run env cmd (argv_of cmd) input_fd output_fd t).
Proof.
  intros H0 H1 Hin Hout Hne. unfold child_run, child_wired, opens_ok.
  pose proof (redirect_input_spec cmd t ltac:(by rewrite H0)) as Hri.
  destruct (redirect_input env cmd t) as [t1|]; [|by rewrite Hri].
  destruct Hri as [Hok1 Ht1]. rewrite Hok1.
  pose proof (redirect_output_spec cmd t1) as Hro.
  rewrite (Ht1 stdout_fd) in Hro. rewrite decide_False in Hro by done.
  specialize (Hro ltac:(by rewrite H1)).
  destruct (redirect_output env cmd t1) as [t2|]; [|by rewrite Hro].
  destruct Hro as [Hok2 Ht2]. rewrite Hok2.
  pose proof (use_fd_spec t2 stdin_fd input_fd pin) as Ht3.
  pose proof (use_fd_spec (use_fd input_fd stdin_fd t2) stdout_fd output_fd pout)
    as Ht4.
  std_fds.
  assert (Hlook : ∀ j, j ≠ 0%nat → j ≠ 1%nat → fd_lookup t2 j = fd_lookup t j).
  { intros j Hj0 Hj1. rewrite Ht2, decide_False by done.
    by rewrite Ht1, decide_False by done. }
  assert (Hin2 : linked t2 0 input_fd pin).
  { destruct Hin as [?|(Hfd & f & -> & Hf)]; [by left|right].
    split; [done|]. exists f. split; [done|]. rewrite Hlook; [done|lia|lia]. }
  assert (Ht3' : ∀ j, fd_lookup (use_fd input_fd 0 t2) j = _)
    by (intros j; apply (Ht3 j); [lia|done]).
  clear Ht3.
  assert (Hout3 : linked (use_fd input_fd 0 t2) 1 output_fd pout).
  { destruct Hout as [?|(Hfd & f & -> & Hf)]; [by left|right].
    split; [done|]. exists f. split; [done|]. rewrite Ht3'.
    assert (fd_lookup t2 output_fd = Some f) by (rewrite Hlook; [done|lia|lia]).
    destruct pin as [p|]; [|done].
    rewrite decide_False by lia. by rewrite decide_False by done. }
  assert (Ht4' : ∀ j, fd_lookup (use_fd output_fd 1 (use_fd input_fd 0 t2)) j = _)
    by (intros j; apply (Ht4 j); [lia|done]).
  clear Ht4.
  split; [done|]. split; [done|].
  rewrite !fd_lookup_close_from_3 by lia.
  rewrite !Ht4', !Ht3'. unfold wired_stdin, wired_stdout.
  assert (Hi_fd : pin = None ∨ (2 ≤ input_fd)%nat)
    by (destruct Hin as [[_ ?]|[? _]]; [by left|by right]).
  assert (Ho_fd : pout = None ∨ (2 ≤ output_fd)%nat)
    by (destruct Hout as [[_ ?]|[? _]]; [by left|by right]).
  assert (F0 : fd_lookup t2 0
               = Some match input_file cmd with
                      | Some f => FileRead f
                      | None => in0
                      end).
  { rewrite Ht2, decide_False by lia. rewrite Ht1, decide_True by done.
    destruct (input_file cmd); [done|]. by rewrite H0. }
  assert (F1 : fd_lookup t2 1
               = Some match output_file cmd with
                      | Some f =>
                          FileWrite f (if decide (append cmd = 0) then 0 else 1)
                      | None => out0
                      end).
  { rewrite Ht2, decide_True by done.
    destruct (output_file cmd); [done|]. by rewrite H1. }
  destruct Hi_fd as [->|Hi_fd], Ho_fd as [->|Ho_fd];
    try destruct pin as [p|]; try destruct pout as [q|];
    split; repeat (case_decide; try lia); done.
Qed.

(** *** The spawning loop *)

Lemma spawn_stages_cons cmd cmd2 rest input_fd sh :
  spawn_stages env (cmd :: cmd2 :: rest) input_fd sh
  = match pipe env sh with
    | None => inl (perror (chars "pipe failed") sh)
    | Some (r, w, sh0) =>
        let sh1 := execute_command env cmd input_fd w sh0 in
        let sh2 := if decide (input_fd ≠ stdin_fd)
                   then with_fds (close input_fd (fds sh1)) sh1 else sh1 in
        let sh3 := with_fds (close w (fds sh2)) sh2 in
        spawn_stages env (cmd2 :: rest) r sh3
    end.
Proof. reflexivity. Qed.

Lemma spawn_stages_spec stages :
  ∀ input_fd sh pin in0 out0,
    fd_lookup (fds sh) stdin_fd = Some in0 →
    fd_lookup (fds sh) stdout_fd = Some out0 →
    linked (fds sh) stdin_fd input_fd pin →
    ∃ spawned,
      children (outcome (spawn_stages env stages input_fd sh))
      = children sh ++ spawned
      ∧ reaped (outcome (spawn_stages env stages input_fd sh)) = reaped sh
      ∧ wait_calls (outcome (spawn_stages env stages input_fd sh))
        = wait_calls sh
      ∧ foreground_mode (outcome (spawn_stages env stages input_fd sh))
        = foreground_mode sh
      ∧ match spawn_stages env stages input_fd sh with
        | inr _ => length spawned = length stages
        | inl _ =>
            (length spawned < length stages)%nat
            ∧ ∃ j, (j + 1 < length stages)%nat
                   ∧ pipe_ok env (pipes_made sh + j) = false
        end
      ∧ ∀ j cmd ch,
          stages !! j = Some cmd → spawned !! j = Some ch →
          child_wired env in0 out0
            (pipe_before (pipes_made sh) pin j)
            (pipe_after (pipes_made sh) (length stages) j) cmd ch.
Proof.
  induction stages as [|cmd rest IH]; intros input_fd sh pin in0 out0 H0 H1 Hin.
  { exists []. simpl. rewrite app_nil_r. split_and!; try done. }
  assert (Hfd : input_fd ≠ 1%nat).
  { destruct Hin as [[-> _]|[? _]]; [done|lia]. }
  destruct rest as [|cmd2 rest].
  - (* the last stage writes to the shell's standard output *)
    clear IH. simpl spawn_stages. cbv zeta.
    exists [child_run env cmd (argv_of cmd) input_fd stdout_fd (fds sh)].
    split_and!; try (case_decide; done); try done.
    intros [|j] cmd' ch Hc Hs; [|done].
    injection Hc as <-. injection Hs as <-.
    apply child_run_wiring; try done. by left.
  - rewrite spawn_stages_cons. unfold pipe.
    destruct (pipe_ok env (pipes_made sh)) eqn:Hp.
    2:{ exists []. simpl. rewrite app_nil_r. split_and!; try done; try lia.
        exists 0%nat. rewrite Nat.add_0_r. split; [simpl; lia|done]. }
    cbv zeta.
    set (n := pipes_made sh).
    set (r := lowest_free (fds sh)).
    set (t1 := fd_install (fds sh) r (PipeRead n)).
    set (w := lowest_free t1).
    set (t2 := fd_install t1 w (PipeWrite n)).
    std_fds.
    assert (Hr : fd_lookup (fds sh) r = None) by apply lowest_free_free.
    assert (Hw : fd_lookup t1 w = None) by apply lowest_free_free.
    assert (Hw' : w ≠ r ∧ fd_lookup (fds sh) w = None).
    { unfold t1 in Hw. rewrite fd_lookup_install in Hw.
      case_decide; [done|]. done. }
    destruct Hw' as [Hwr Hw0].
    assert (Hr2 : (2 ≤ r)%nat).
    { destruct r as [|[|r']]; [congruence|congruence|lia]. }
    assert (Hw2 : (2 ≤ w)%nat).
    { destruct w as [|[|w']]; [congruence|congruence|lia]. }
    assert (Hin_r : input_fd ≠ r ∧ input_fd ≠ w).
    { destruct Hin as [[-> _]|(? & f & _ & Hf)]; [lia|].
      split; intros ->; congruence. }
    destruct Hin_r as [Hir Hiw].
    assert (Ht2 : ∀ j, fd_lookup t2 j
                       = if decide (j = w) then Some (PipeWrite n)
                         else if decide (j = r) then Some (PipeRead n)
                              else fd_lookup (fds sh) j).
    { intros j. unfold t2, t1. by rewrite !fd_lookup_install. }
    set (ch := child_run env cmd (unquote <$> args cmd) input_fd w t2).
    assert (Hch : child_wired env in0 out0 pin (Some (PipeWrite n)) cmd ch).
    { apply child_run_wiring; std_fds; try done.
      - rewrite Ht2. rewrite !decide_False by lia. done.
      - rewrite Ht2. rewrite !decide_False by lia. done.
      - destruct Hin as [?|(? & f & ? & Hf)]; [by left|right].
        split; [done|]. exists f. split; [done|].
        rewrite Ht2. by rewrite !decide_False by done.
      - right. split; [done|]. exists (PipeWrite n). split; [done|].
        rewrite Ht2. by rewrite decide_True. }
    match goal with
    | |- context [spawn_stages env (cmd2 :: rest) r ?s] => set (sh3 := s)
    end.
    assert (Hfds3 : ∀ j, fd_lookup (fds sh3) j
                         = if decide (j = w) then None
                           else if decide (j = input_fd ∧ input_fd ≠ 0%nat)
                                then None else fd_lookup t2 j).
    { intros j. unfold sh3.
      destruct (decide (input_fd ≠ 0%nat)) as [Hne|He]; simpl;
        rewrite !fd_lookup_close; repeat case_decide; try done; tauto. }
    assert (Hproj : children sh3 = children sh ++ [ch]
                    ∧ reaped sh3 = reaped sh ∧ wait_calls sh3 = wait_calls sh
                    ∧ foreground_mode sh3 = foreground_mode sh
                    ∧ pipes_made sh3 = S n).
    { unfold sh3. by destruct (decide (input_fd ≠ 0%nat)). }
    destruct Hproj as (Hc3 & Hr3 & Hwc3 & Hfg3 & Hpm3).
    destruct (IH r sh3 (Some (PipeRead n)) in0 out0)
      as (spawned & Hch' & Hre & Hwc & Hfg & Hlen & Hwire).
    { rewrite Hfds3, Ht2. repeat (case_decide; try lia); try done; tauto. }
    { rewrite Hfds3, Ht2. repeat (case_decide; try lia); try done; tauto. }
    { right. split; [done|]. exists (PipeRead n). split; [done|].
      rewrite Hfds3, Ht2. repeat (case_decide; try lia); try done; tauto. }
    exists (ch :: spawned). split_and!.
    + rewrite Hch', Hc3. by rewrite <- app_assoc.
    + by rewrite Hre.
    + by rewrite Hwc.
    + by rewrite Hfg.
    + destruct (spawn_stages env (cmd2 :: rest) r sh3).
      * destruct Hlen as (Hl & j & Hj & Hpj). split; [simpl in *; lia|].
        exists (S j). split; [simpl in *; lia|].
        rewrite Hpm3 in Hpj. by rewrite Nat.add_succ_r.
      * simpl in *. lia.
    + intros [|j] cmd' ch' Hc Hs.
      * injection Hc as <-. injection Hs as <-.
        unfold pipe_before, pipe_after. rewrite decide_False by (simpl; lia).
        by rewrite Nat.add_0_r.
      * specialize (Hwire j cmd' ch' Hc Hs). rewrite Hpm3 in Hwire.
        unfold pipe_before, pipe_after in *.
        replace (match j with
                 | 0%nat => Some (PipeRead n)
                 | S j' => Some (PipeRead (S n + j'))
                 end) with (Some (PipeRead (n + j))) in Hwire
          by (destruct j; f_equal; f_equal; lia).
        replace (S n + j)%nat with (n + S j)%nat in Hwire by lia.
        simpl length in *.
        destruct (decide (S j = S (length rest))),
                 (decide (S (S j) = S (S (length rest)))); try lia; done.
Qed.

Lemma spawn_stages_frame stages :
  ∀ input_fd sh,
    ∃ spawned,
      children (outcome (spawn_stages env stages input_fd sh))
      = children sh ++ spawned
      ∧ reaped (outcome (spawn_stages env stages input_fd sh)) = reaped sh
      ∧ wait_calls (outcome (spawn_stages env stages input_fd sh))
        = wait_calls sh
      ∧ foreground_mode (outcome (spawn_stages env stages input_fd sh))
        = foreground_mode sh
      ∧ ((∀ j, (j + 1 < length stages)%nat
               → pipe_ok env (pipes_made sh + j) = true) →
         length spawned = length stages
         ∧ ∃ sh', spawn_stages env stages input_fd sh = inr sh').
Proof.
  induction stages as [|cmd rest IH]; intros input_fd sh.
  { exists []. simpl. rewrite app_nil_r. split_and!; try done. eauto. }
  destruct rest as [|cmd2 rest].
  - clear IH. simpl spawn_stages. cbv zeta.
    exists [child_run env cmd (unquote <$> args cmd) input_fd stdout_fd (fds sh)].
    split_and!; try (case_decide; done). intros _. split; [done|eauto].
  - rewrite spawn_stages_cons. unfold pipe.
    destruct (pipe_ok env (pipes_made sh)) eqn:Hp.
    2:{ exists []. simpl. rewrite app_nil_r. split_and!; try done.
        intros H. specialize (H 0%nat ltac:(simpl; lia)).
        rewrite Nat.add_0_r in H. congruence. }
    cbv zeta.
    match goal with
    | |- context [spawn_stages env (cmd2 :: rest) ?r ?s] =>
        set (sh3 := s); set (r0 := r)
    end.
    assert (Hproj : ∃ ch, children sh3 = children sh ++ [ch]
                    ∧ reaped sh3 = reaped sh ∧ wait_calls sh3 = wait_calls sh
                    ∧ foreground_mode sh3 = foreground_mode sh
                    ∧ pipes_made sh3 = S (pipes_made sh)).
    { eexists. unfold sh3. by destruct (decide (input_fd ≠ stdin_fd)). }
    destruct Hproj as (ch & Hc3 & Hr3 & Hwc3 & Hfg3 & Hpm3).
    destruct (IH r0 sh3) as (spawned & Hch' & Hre & Hwc & Hfg & Hall).
    exists (ch :: spawned). split_and!.
    + rewrite Hch', Hc3. by rewrite <- app_assoc.
    + by rewrite Hre.
    + by rewrite Hwc.
    + by rewrite Hfg.
    + intros H. destruct Hall as [Hl Hinr].
      * intros j Hj. rewrite Hpm3.
        replace (S (pipes_made sh) + j)%nat with (pipes_made sh + S j)%nat by lia.
        apply H. simpl in *. lia.
      * split; [simpl in *; lia|done].
Qed.

Lemma wait_loop_all cs :
  ∀ sh, children sh = cs →
  wait_loop (S (length cs)) sh
  = Some (Shell (fds sh) (pipes_made sh) [] (reaped sh ++ cs)
                (wait_calls sh + length cs + 1) (foreground_mode sh)
                (stderr sh)).
Proof.
  induction cs as [|c cs IH]; intros sh Hcs.
  - simpl. unfold waitpid. rewrite Hcs. simpl.
    rewrite app_nil_r. do 2 f_equal. lia.
  - change (wait_loop (S (length (c :: cs))) sh)
      with (match waitpid sh with
            | (Some _, sh') => wait_loop (S (length cs)) sh'
            | (None, sh') => Some sh'
            end).
    unfold waitpid. rewrite Hcs. rewrite IH by done. simpl.
    rewrite <- app_assoc. do 2 f_equal. lia.
Qed.

Lemma aget_last {A} (l : list A) : aget l (Z.of_nat (length l) - 1) = last l.
Proof.
  unfold aget. destruct l as [|x l _] using rev_ind.
  - reflexivity.
  - rewrite length_app. simpl. rewrite decide_True by lia.
    rewrite last_snoc.
    replace (Z.to_nat (Z.of_nat (length l + 1) - 1)) with (length l) by lia.
    rewrite lookup_app_r by lia. by rewrite Nat.sub_diag.
Qed.

(** C3 (as amended).  Once every stage has been spawned, which is the case
    when each pipe could be created, only the background flag of the last
    stage decides: unset, the shell waits until no child at all is left,
    those of earlier pipelines included, and sets the foreground flag; set,
    it returns without one call to waitpid.  The flags of earlier stages do
    not appear in the outcome. *)
Theorem wait_follows_last_stage pipeline sh lastc :
  last pipeline = Some lastc →
  (∀ j, (j + 1 < length pipeline)%nat
        → pipe_ok env (pipes_made sh + j) = true) →
  ∃ sh' spawned,
    execute_pipeline env pipeline sh = Some sh'
    ∧ length spawned = length pipeline
    ∧ if decide (background lastc = 0) then
        children sh' = []
        ∧ reaped sh' = reaped sh ++ children sh ++ spawned
        ∧ foreground_mode sh' = 1
      else
        children sh' = children sh ++ spawned
        ∧ reaped sh' = reaped sh
        ∧ wait_calls sh' = wait_calls sh
        ∧ foreground_mode sh' = 0.
Proof.
  intros Hlast Hpipes. unfold execute_pipeline.
  destruct (spawn_stages_frame pipeline stdin_fd sh)
    as (spawned & Hch & Hre & Hwc & Hfg & Hall).
  destruct (Hall Hpipes) as (Hlen & sh1 & Hinr).
  rewrite Hinr in *. simpl in Hch, Hre, Hwc, Hfg.
  rewrite aget_last, Hlast. cbn -[wait_loop].
  case_decide as Hbg.
  - rewrite (wait_loop_all (children sh1) sh1 eq_refl). simpl.
    eexists _, spawned. split; [done|]. split; [done|]. simpl.
    rewrite Hre, Hch. done.
  - eexists _, spawned. split; [done|]. split; [done|]. simpl. done.
Qed.

(** C4.  In a shell whose descriptors 0 and 1 are open, every child that
    [execute_pipeline] forks and that gets as far as [execvp] has its
    standard input on the pipe from the stage before it, unless it is the
    first stage, and its standard output on the pipe to the next stage,
    unless it is the last: a file named after [<] is what the child reads
    only in the first stage, a file named after [>] or [>>] is what it
    writes only in the last one.  A child ends before [execvp] exactly when
    one of its files cannot be opened. *)
Theorem pipe_linkage_precedence pipeline sh in0 out0 :
  pipeline ≠ [] →
  fd_lookup (fds sh) stdin_fd = Some in0 →
  fd_lookup (fds sh) stdout_fd = Some out0 →
  ∃ sh' spawned,
    execute_pipeline env pipeline sh = Some sh'
    ∧ reaped sh' ++ children sh' = reaped sh ++ children sh ++ spawned
    ∧ ((∀ j, (j + 1 < length pipeline)%nat
             → pipe_ok env (pipes_made sh + j) = true)
       → length spawned = length pipeline)
    ∧ ∀ j cmd ch,
        pipeline !! j = Some cmd → spawned !! j = Some ch →
        match ch with
        | ChildExit _ => opens_ok env cmd = false
        | ChildExec argv t =>
            opens_ok env cmd = true
            ∧ fd_lookup t stdin_fd
              = Some (match j with
                      | O => match input_file cmd with
                             | Some f => FileRead f
                             | None => in0
                             end
                      | S j' => PipeRead (pipes_made sh + j')
                      end)
            ∧ fd_lookup t stdout_fd
              = Some (if decide (S j = length pipeline)
                      then match output_file cmd with
                           | Some f =>
                               FileWrite f (if decide (append cmd = 0)
                                            then 0 else 1)
                           | None => out0
                           end
                      else PipeWrite (pipes_made sh + j))
        end.
Proof.
  intros Hne H0 H1.
  destruct (spawn_stages_spec pipeline stdin_fd sh None in0 out0 H0 H1)
    as (spawned & Hch & Hre & Hwc & Hfg & Hlen & Hwire); [by left|].
  destruct (spawn_stages_frame pipeline stdin_fd sh)
    as (spawned' & Hch' & _ & _ & _ & Hall).
  assert (spawned' = spawned) as -> by (rewrite Hch in Hch'; by simplify_list_eq).
  assert (Hex : ∃ sh', execute_pipeline env pipeline sh = Some sh'
                       ∧ reaped sh' ++ children sh'
                         = reaped sh ++ children sh ++ spawned).
  { unfold execute_pipeline.
    destruct (spawn_stages env pipeline stdin_fd sh) as [sh1|sh1];
      simpl in Hch, Hre.
    - exists sh1. split; [done|]. by rewrite Hre, Hch.
    - rewrite aget_last.
      destruct (last pipeline) as [lastc|] eqn:El.
      2:{ by apply last_None in El. }
      cbn -[wait_loop]. case_decide.
      + rewrite (wait_loop_all (children sh1) sh1 eq_refl). simpl.
        eexists. split; [done|]. simpl.
        by rewrite app_nil_r, Hre, Hch.
      + eexists. split; [done|]. simpl. by rewrite Hre, Hch. }
  destruct Hex as (sh' & Hex & Hall').
  exists sh', spawned. split; [done|]. split; [done|].
  split; [intros Hp; by destruct (Hall Hp)|].
  intros j cmd ch Hj Hs. specialize (Hwire j cmd ch Hj Hs).
  unfold child_wired in Hwire. destruct ch as [msg|argv t]; [done|].
  destruct Hwire as (Hok & _ & Hi & Ho). split; [done|].
  rewrite Hi, Ho. unfold wired_stdin, wired_stdout, pipe_before, pipe_after.
  split.
  - by destruct j.
  - by case_decide.
Qed.

End Executor.

Lemma wait_follows_last_stage_witness :
  ∃ sh' spawned,
    execute_pipeline env_ok
      [simple_command "yes" 1; simple_command "head" 0] shell_with_job
    = Some sh'
    ∧ length spawned = 2%nat
    ∧ children sh' = []
    ∧ reaped sh' = children shell_with_job ++ spawned
    ∧ foreground_mode sh' = 1.
Proof.
  exact (wait_follows_last_stage env_ok
           [simple_command "yes" 1; simple_command "head" 0] shell_with_job
           (simple_command "head" 0) eq_refl (λ _ _, eq_refl)).
Defined.

(** C3 as worded fails when a pipe cannot be created: the loop returns
    early, so with the last stage's flag unset nobody is waited for and the
    foreground flag keeps its value. *)
Lemma no_wait_after_pipe_failure :
  last [simple_command "ls" 0; simple_command "wc" 0]
  = Some (simple_command "wc" 0)
  ∧ execute_pipeline env_no_pipes
      [simple_command "ls" 0; simple_command "wc" 0] shell_with_job
    = Some (perror (chars "pipe failed") shell_with_job)
  ∧ children (perror (chars "pipe failed") shell_with_job)
    = children shell_with_job
  ∧ wait_calls (perror (chars "pipe failed") shell_with_job) = 0%nat
  ∧ foreground_mode (perror (chars "pipe failed") shell_with_job) = 0
  ∧ ¬ waits_when_foreground env_no_pipes
        [simple_command "ls" 0; simple_command "wc" 0] shell_with_job.
Proof.
  split_and!; try reflexivity.
  intros H. destruct (H _ eq_refl eq_refl) as (sh' & Hex & Hc & _).
  vm_compute in Hex. injection Hex as <-. discriminate Hc.
Qed.

Lemma pipe_linkage_precedence_witness :
  ∃ sh' spawned,
    execute_pipeline env_ok
      [mkCommand [chars "sort"] (Some (chars "in")) (Some (chars "lost")) 0 0;
       mkCommand [chars "uniq"] (Some (chars "unused")) (Some (chars "out")) 1 0]
      shell_init
    = Some sh'
    ∧ reaped sh' ++ children sh' = spawned
    ∧ spawned
      = [ChildExec [chars "sort"]
           [Some (FileRead (chars "in")); Some (PipeWrite 0); Some Terminal];
         ChildExec [chars "uniq"]
           [Some (PipeRead 0); Some (FileWrite (chars "out") 1); Some Terminal]].
Proof.
  destruct (pipe_linkage_precedence env_ok
              [mkCommand [chars "sort"] (Some (chars "in"))
                         (Some (chars "lost")) 0 0;
               mkCommand [chars "uniq"] (Some (chars "unused"))
                         (Some (chars "out")) 1 0]
              shell_init Terminal Terminal ltac:(done) eq_refl eq_refl)
    as (sh' & spawned & Hex & Hall & _).
  exists sh', spawned. split; [exact Hex|].
  vm_compute in Hex. injection Hex as <-.
  split; [exact Hall|]. vm_compute in Hall. by rewrite <- Hall.
Defined.


(** * Further properties of the code *)

(** ** The history below and above its capacity *)

Lemma short_run_counted (lines : list cstring) :
  (length lines ≤ 100)%nat → Z.of_nat (length lines) ≤ INT_MAX.
Proof. unfold INT_MAX. lia. Qed.

Lemma retained_short lines : (length lines ≤ 100)%nat → retained lines = lines.
Proof.
  intros H. unfold retained. change (Z.to_nat MAX_HISTORY) with 100%nat.
  by replace (length lines - 100)%nat with 0%nat by lia.
Qed.

Lemma stored_lookup lines (j : nat) :
  (j < 100)%nat → mjoin (stored lines !! j) = retained lines !! j.
Proof.
  intros Hj. unfold stored.
  destruct (decide (j < length (retained lines))%nat) as [Hin|Hout].
  - rewrite lookup_app_l by (by rewrite length_fmap).
    rewrite list_lookup_fmap. by destruct (retained lines !! j).
  - rewrite lookup_app_r by (rewrite length_fmap; lia).
    rewrite (lookup_ge_None_2 (retained lines)) by lia.
    destruct (replicate _ _ !! _) as [x|] eqn:E; [|done].
    by apply lookup_replicate in E as [-> _].
Qed.

Lemma listing_within_capacity (lines : list cstring) :
  Forall (λ l, l ≠ []) lines → (length lines ≤ 100)%nat →
  show_history (submit_all lines) = numbered 1 lines.
Proof.
  intros Hne Hn.
  destruct (submit_all_spec lines Hne (short_run_counted _ Hn)) as [Hh Hc].
  unfold show_history, numbered. rewrite Hh, Hc.
  rewrite decide_False by (unfold MAX_HISTORY; lia). rewrite Z.sub_0_r.
  apply list_eq. intros i.
  rewrite list_lookup_fmap, lookup_zip_with, list_lookup_fmap.
  destruct (decide (i < length lines)%nat) as [Hi|Hi].
  - rewrite !lookup_seqZ_lt by lia. simpl.
    destruct (lookup_lt_is_Some_2 lines i Hi) as [l Hl]. rewrite Hl. simpl.
    do 2 f_equal; [lia|].
    unfold aget, MAX_HISTORY. rewrite Z.add_0_l, Z.mod_small by lia.
    rewrite decide_True by lia. rewrite Nat2Z.id.
    rewrite stored_lookup by lia. by rewrite retained_short.
  - by rewrite !lookup_seqZ_ge by lia.
Qed.

(** X1.  Up to [MAX_HISTORY] non-empty lines are all kept, in submission
    order, in the first slots of the array; the slots after them are still
    NULL; and [show_history] lists them in that order, numbered from 1. *)
Theorem history_within_capacity (lines : list cstring) :
  Forall (λ l, l ≠ []) lines → (length lines ≤ 100)%nat →
  history (submit_all lines)
  = (Some <$> lines) ++ replicate (100 - length lines) None
  ∧ history_count (submit_all lines) = Z.of_nat (length lines)
  ∧ show_history (submit_all lines) = numbered 1 lines.
Proof.
  intros Hne Hn.
  destruct (submit_all_spec lines Hne (short_run_counted _ Hn)) as [Hh Hc].
  split_and!; [|done|by apply listing_within_capacity].
  rewrite Hh. unfold stored. by rewrite retained_short.
Qed.

Lemma history_within_capacity_witness :
  Forall (λ l, l ≠ []) [chars "ls"; chars "pwd"]
  ∧ show_history (submit_all [chars "ls"; chars "pwd"])
    = [(1, Some (chars "ls")); (2, Some (chars "pwd"))].
Proof.
  assert (H : Forall (λ l : list ascii, l ≠ []) [chars "ls"; chars "pwd"]).
  { by repeat constructor. }
  split; [exact H|].
  exact (proj2 (proj2 (history_within_capacity [chars "ls"; chars "pwd"] H
                         ltac:(simpl; lia)))).
Defined.

(** X2.  Past the capacity, and as long as the [int] that counts the
    submissions has not passed [INT_MAX], the rows of [show_history] are
    numbered as the submissions were, but row [k] shows slot
    [(n + k) mod MAX_HISTORY] of the array, not slot [k]: the texts come out
    rotated by [n mod 100] against their numbers. *)
Theorem history_listing_rotation (lines : list cstring) (k : nat) :
  Forall (λ l, l ≠ []) lines → (100 < length lines)%nat →
  Z.of_nat (length lines) ≤ INT_MAX → (k < 100)%nat →
  show_history (submit_all lines) !! k
  = Some (Z.of_nat (length lines) - 99 + Z.of_nat k,
          retained lines !! ((length lines + k) `mod` 100)%nat).
Proof.
  intros Hne Hn Hmax Hk. destruct (submit_all_spec lines Hne Hmax) as [Hh Hc].
  unfold show_history. rewrite Hh, Hc. unfold MAX_HISTORY.
  rewrite decide_True by lia.
  rewrite list_lookup_fmap, lookup_seqZ_lt by lia.
  cbn -[Nat.modulo Z.modulo]. do 2 f_equal; [lia|].
  assert (Hm : (Z.of_nat (length lines) - 100 + Z.of_nat k) `mod` 100
               = Z.of_nat ((length lines + k) `mod` 100)%nat).
  { rewrite Nat2Z.inj_mod, Nat2Z.inj_add.
    replace (Z.of_nat (length lines) - 100 + Z.of_nat k)
      with (Z.of_nat (length lines) + Z.of_nat k + (-1) * 100) by lia.
    by rewrite Z.mod_add by lia. }
  rewrite Hm. unfold aget. rewrite decide_True by lia. rewrite Nat2Z.id.
  apply stored_lookup. apply Nat.mod_upper_bound. lia.
Qed.

Lemma history_listing_rotation_witness :
  Forall (λ l, l ≠ []) lines101
  ∧ show_history (submit_all lines101) !! 0%nat = Some (2, Some (cmd_line 3)).
Proof.
  assert (H : Forall (λ l : list ascii, l ≠ []) lines101).
  { apply Forall_fmap, Forall_forall. intros n _. done. }
  split; [exact H|].
  exact (history_listing_rotation lines101 0 H ltac:(vm_compute; lia)
           ltac:(by vm_compute) ltac:(lia)).
Defined.

Lemma recorded_snoc lines l :
  recorded (lines ++ [l])
  = recorded lines ++ (if decide (l = []) then [] else [l]).
Proof.
  unfold recorded. rewrite filter_app. f_equal.
  case_decide as Hl; [by rewrite filter_cons_False by (by intros Hl')|].
  by rewrite filter_cons_True.
Qed.

(** X3.  Empty commands leave no trace: the store after any run of
    submissions is the store after its non-empty lines alone.  As long as
    there are no more of these than an [int] counts, at most [INT_MAX],
    [history_count] is their number. *)
Theorem empty_lines_not_recorded (lines : list cstring) :
  Z.of_nat (length (recorded lines)) ≤ INT_MAX →
  submit_all lines = submit_all (recorded lines)
  ∧ history_count (submit_all lines) = Z.of_nat (length (recorded lines)).
Proof.
  intros Hmax.
  assert (E : submit_all lines = submit_all (recorded lines)).
  { clear Hmax. induction lines as [|l lines IH] using rev_ind; [done|].
    rewrite recorded_snoc, submit_all_snoc, IH.
    case_decide as Hl; [subst; by rewrite app_nil_r|].
    by rewrite submit_all_snoc. }
  split; [done|]. rewrite E.
  apply submit_all_spec; [|done]. unfold recorded. apply Forall_forall.
  intros l Hl. by apply list_elem_of_filter in Hl as [? _].
Qed.

Lemma empty_lines_not_recorded_witness :
  submit_all [chars "ls"; []; chars "pwd"; []]
  = submit_all [chars "ls"; chars "pwd"]
  ∧ history_count (submit_all [chars "ls"; []; chars "pwd"; []]) = 2.
Proof.
  exact (empty_lines_not_recorded [chars "ls"; []; chars "pwd"; []]
           ltac:(by vm_compute)).
Defined.

(** ** Typing a line *)

Lemma isprint_plain c :
  isprint c = true → c ≠ LF ∧ c ≠ ESC ∧ ¬ (code c = 127 ∨ code c = 8).
Proof.
  unfold isprint. intros H%bool_decide_eq_true.
  split_and!; [intros -> | intros -> | lia].
  - change (code LF) with 10 in H. lia.
  - change (code ESC) with 27 in H. lia.
Qed.

Lemma read_loop_plain c rest w e :
  isprint c = true →
  read_loop (Some c :: rest) w e
  = insert_char c w e ≫= λ '(w1, e1), read_loop rest w1 e1.
Proof.
  intros Hp. destruct (isprint_plain c Hp) as (Hlf & Hesc & Hbs).
  simpl. rewrite !decide_False by done. unfold plain_key.
  by rewrite decide_False, Hp by done.
Qed.

(** Typing at the end of the buffer appends, until the buffer is full. *)
Lemma read_loop_typed s :
  ∀ w e rest,
    editor_wf e → pos e = len e → printable s →
    ∃ w' e',
      read_loop ((Some <$> s) ++ rest) w e = read_loop rest w' e'
      ∧ editor_wf e' ∧ pos e' = len e'
      ∧ until_nul (line e') = fitting (until_nul (line e) ++ s)
      ∧ history_index e' = history_index e
      ∧ same_but_stdout w w'.
Proof.
  unfold fitting. change (Z.to_nat (MAX_CMD_LEN - 1)) with 1023%nat.
  induction s as [|c s IH]; intros w e rest Hwf Hend Hs.
  - exists w, e. split_and!; try done.
    rewrite app_nil_r. destruct Hwf as (Hl & _).
    destruct (wf_buffer_shape _ Hl) as [_ Hlt]. by rewrite take_ge by lia.
  - apply Forall_cons in Hs as [Hc Hs].
    rewrite fmap_cons. simpl app. rewrite read_loop_plain by done.
    destruct (insert_char_wf c w e Hwf (isprint_not_nul c Hc))
      as (w1 & e1 & Hins & Hwf1 & Hsame1 & Hidx1 & Hfull & Hroom).
    rewrite Hins. simpl.
    pose proof Hwf as (Hl & _ & Hlen & _).
    destruct (wf_buffer_shape _ Hl) as [_ Hlt].
    destruct (decide (len e < MAX_CMD_LEN - 1)) as [Hr|Hr].
    + destruct (Hroom Hr) as (Hlen1 & Hpos1 & Hu1).
      destruct (IH w1 e1 rest Hwf1 ltac:(lia) Hs)
        as (w' & e' & Hrun & Hwf' & Hend' & Hu' & Hidx' & Hsame').
      exists w', e'. split_and!; try done.
      * rewrite Hu', Hu1, Hend, Hlen, Nat2Z.id.
        rewrite (take_ge (until_nul (line e))),
          (drop_ge (until_nul (line e))) by lia.
        by rewrite <- app_assoc.
      * congruence.
      * by eapply same_but_stdout_trans.
    + destruct (Hfull Hr) as [-> ->].
      destruct (IH w e rest Hwf Hend Hs)
        as (w' & e' & Hrun & Hwf' & Hend' & Hu' & Hidx' & Hsame').
      exists w', e'. split_and!; try done.
      rewrite Hu'. unfold MAX_CMD_LEN in Hr.
      rewrite !take_app_le by lia. done.
Qed.

Lemma editor_init_empty : until_nul (line editor_init) = [].
Proof.
  destruct editor_init_wf as (_ & _ & Hlen & _).
  change (len editor_init) with 0 in Hlen.
  by destruct (until_nul (line editor_init)).
Qed.

(** X4.  A run of printable bytes followed by Enter comes back from
    [read_line] as typed, cut to the [MAX_CMD_LEN - 1] bytes the buffer
    takes; the bytes after the newline are left unread, the returned line
    is what is added to the history (nothing for an empty line), and the
    terminal is as before. *)
Theorem read_line_returns_typed (s : cstring) rest w :
  printable s →
  ∃ w', read_line ((Some <$> s) ++ Some LF :: rest) w
        = Some (fitting s, w', rest)
        ∧ hist w' = add_to_history (fitting s) (hist w)
        ∧ term w' = term w.
Proof.
  intros Hs. unfold read_line.
  destruct (read_loop_typed s (enableRawMode w) editor_init (Some LF :: rest)
              editor_init_wf eq_refl Hs)
    as (w1 & e1 & Hrun & Hwf1 & Hend1 & Hu1 & _ & Ht & Ho & Hlog & Hh).
  rewrite Hrun. simpl read_loop.
  rewrite editor_init_empty in Hu1. simpl in Hu1.
  destruct Hwf1 as (Hl1 & _ & Hlen1 & _).
  cbn [mbind option_bind]. rewrite wf_buffer_string_at by done.
  cbn [mbind option_bind]. rewrite Hu1.
  eexists. split; [done|].
  change (hist (enableRawMode w)) with (hist w) in Hh.
  change (orig_termios (enableRawMode w)) with (term w) in Ho.
  case_decide as Hpos.
  - cbn. by rewrite Hh, Ho.
  - cbn. rewrite Hh, Ho. split; [|done].
    rewrite Hu1 in Hlen1. by destruct (fitting s); [|simpl in Hlen1; lia].
Qed.

Lemma read_line_returns_typed_witness :
  printable (chars "ls -l")
  ∧ ∃ w', read_line (keys "ls -l" ++ Some LF :: keys "pwd")
                    (world_with history_init)
          = Some (chars "ls -l", w', keys "pwd")
          ∧ hist w' = add_to_history (chars "ls -l") history_init
          ∧ term w' = cooked.
Proof.
  assert (H : printable (chars "ls -l")) by (by repeat constructor).
  split; [exact H|].
  exact (read_line_returns_typed (chars "ls -l") (keys "pwd")
           (world_with history_init) H).
Defined.

Lemma read_loop_failing tail rest w e :
  failing_read tail rest → read_loop tail w e = Some (w, set_len 0 e, rest).
Proof. by intros [->|[-> ->]]. Qed.

Lemma read_loop_broken x tail rest w e :
  failing_read tail rest →
  read_loop (broken_escape x ++ tail) w e = Some (w, e, rest).
Proof. by intros [->|[-> ->]]; destruct x. Qed.

(** Whole keys take the loop from one editing state to another, whatever
    is read after them. *)
Lemma read_loop_typed_keys ks :
  ∀ w e, history_wf (hist w) → history_count (hist w) ≤ MAX_HISTORY →
  editor_wf e → Forall whole_key ks →
  ∃ w1 e1,
    (∀ tail, read_loop (key_reads ks ++ tail) w e = read_loop tail w1 e1)
    ∧ editor_wf e1 ∧ same_but_stdout w w1.
Proof.
  induction ks as [|k ks IH]; intros w e Hh Hc Hwf Hks.
  { exists w, e. split_and!; [done|done|apply same_but_stdout_refl]. }
  apply Forall_cons in Hks as [Hk Hks].
  assert (Hnext : ∀ w1 e1, editor_wf e1 → same_but_stdout w w1 →
            ∃ w2 e2,
              (∀ tail, read_loop (key_reads ks ++ tail) w1 e1
                       = read_loop tail w2 e2)
              ∧ editor_wf e2 ∧ same_but_stdout w w2).
  { intros w1 e1 Hwf1 Hsame.
    assert (Hhist : hist w1 = hist w) by (by destruct Hsame as (_ & _ & _ & ?)).
    destruct (IH w1 e1) as (w2 & e2 & Hrun & Hwf2 & Hsame2);
      [by rewrite Hhist|by rewrite Hhist|done|done|].
    exists w2, e2. split_and!; [done|done|by eapply same_but_stdout_trans]. }
  destruct Hk as [(c & -> & Hlf & Hesc)|(s0 & s1 & ->)].
  - destruct (plain_key_wf c w e Hwf) as (w1 & e1 & Hkey & Hwf1 & Hsame).
    destruct (Hnext w1 e1 Hwf1 Hsame) as (w2 & e2 & Hrun & Hwf2 & Hsame2).
    exists w2, e2. split_and!; [|done|done].
    intros tail.
    change (key_reads ([c] :: ks) ++ tail) with (Some c :: key_reads ks ++ tail).
    cbn [read_loop].
    rewrite decide_False by done. rewrite decide_False by done.
    rewrite Hkey. cbn [mbind option_bind]. apply Hrun.
  - destruct (decide (s0 = "["%char)) as [->|Hbr].
    + pose proof (arrow_wf s1 w e Hh Hwf) as Ha.
      destruct (arrow s1 w e) as [[w1 e1]|] eqn:Harrow; [|destruct Ha; lia].
      destruct Ha as (Hwf1 & Hsame).
      destruct (Hnext w1 e1 Hwf1 Hsame) as (w2 & e2 & Hrun & Hwf2 & Hsame2).
      exists w2, e2. split_and!; [|done|done].
      intros tail.
      change (key_reads ([ESC; "["%char; s1] :: ks) ++ tail)
        with (Some ESC :: Some "["%char :: Some s1 :: key_reads ks ++ tail).
      cbn [read_loop].
      rewrite decide_False by done. rewrite decide_True by done.
      rewrite decide_True by done. rewrite Harrow.
      cbn [mbind option_bind]. apply Hrun.
    + destruct (Hnext w e Hwf (same_but_stdout_refl w))
        as (w2 & e2 & Hrun & Hwf2 & Hsame2).
      exists w2, e2. split_and!; [|done|done].
      intros tail.
      change (key_reads ([ESC; s0; s1] :: ks) ++ tail)
        with (Some ESC :: Some s0 :: Some s1 :: key_reads ks ++ tail).
      cbn [read_loop].
      rewrite decide_False by done. rewrite decide_True by done.
      rewrite decide_False by done. apply Hrun.
Qed.

(** X5.  When a read fails, or the input ends, before Enter, [read_line]
    still hands back the line as it stands after the keys typed so far, the
    line Enter would have returned.  What becomes of the history depends on
    the read that failed.  The read at the top of the loop leaves with
    [len = 0], so nothing is recorded.  The two reads after an ESC byte
    leave the loop with [len] as it is, so the line is recorded as after
    Enter. *)
Theorem read_line_end_of_input ks tail rest w :
  history_wf (hist w) → history_count (hist w) ≤ MAX_HISTORY →
  Forall whole_key ks → failing_read tail rest →
  ∃ l,
    (∃ w0, read_line (key_reads ks ++ [Some LF]) w = Some (l, w0, [])
           ∧ hist w0 = add_to_history l (hist w))
    ∧ (∃ w1, read_line (key_reads ks ++ tail) w = Some (l, w1, rest)
             ∧ hist w1 = hist w ∧ term w1 = term w)
    ∧ (∀ x, ∃ w2, read_line (key_reads ks ++ broken_escape x ++ tail) w
                  = Some (l, w2, rest)
                  ∧ hist w2 = add_to_history l (hist w)
                  ∧ term w2 = term w).
Proof.
  intros Hh Hc Hks Hf.
  destruct (read_loop_typed_keys ks (enableRawMode w) editor_init Hh Hc
              editor_init_wf Hks)
    as (w1 & e1 & Hrun & (Hline & _ & Hlen & _) & (Ht & Ho & Hlog & Hhist)).
  change (hist (enableRawMode w)) with (hist w) in Hhist.
  change (orig_termios (enableRawMode w)) with (term w) in Ho.
  assert (Hrec : hist (if decide (len e1 > 0)
                       then with_hist (add_to_history (until_nul (line e1))
                                         (hist (disableRawMode w1)))
                              (disableRawMode w1)
                       else disableRawMode w1)
                 = add_to_history (until_nul (line e1)) (hist w)).
  { case_decide as Hpos; cbn; rewrite Hhist; [done|].
    by destruct (until_nul (line e1)); [|simpl in Hlen; lia]. }
  exists (until_nul (line e1)). split_and!.
  - unfold read_line. rewrite Hrun. cbn [read_loop].
    rewrite decide_True by done. cbn [mbind option_bind].
    rewrite wf_buffer_string_at by done. cbn [mbind option_bind].
    eexists. split; [done|].
    etrans; [|exact Hrec]. by case_decide.
  - unfold read_line. rewrite Hrun, (read_loop_failing tail rest) by done.
    cbn [mbind option_bind]. cbn [line set_len].
    rewrite wf_buffer_string_at by done.
    cbn [mbind option_bind len set_len]. rewrite decide_False by lia.
    eexists. split; [done|]. cbn. by rewrite Hhist, Ho.
  - intros x. unfold read_line.
    rewrite Hrun, (read_loop_broken x tail rest) by done.
    cbn [mbind option_bind]. rewrite wf_buffer_string_at by done.
    cbn [mbind option_bind].
    eexists. split; [done|]. split; [exact Hrec|].
    case_decide; cbn; by rewrite Ho.
Qed.

(** [ls], the Left arrow and then the end of the input: the line is
    returned unrecorded; with one more ESC byte before the end it is
    returned and recorded. *)
Lemma read_line_end_of_input_witness :
  history_wf (hist (world_with history_init))
  ∧ history_count (hist (world_with history_init)) ≤ MAX_HISTORY
  ∧ Forall whole_key [chars "l"; chars "s"; [ESC; "["%char; "D"%char]]
  ∧ failing_read [] []
  ∧ ∃ l,
      (∃ w0, read_line (keys "ls" ++ key_left ++ [Some LF])
                       (world_with history_init) = Some (l, w0, [])
             ∧ hist w0 = add_to_history l history_init)
      ∧ (∃ w1, read_line (keys "ls" ++ key_left) (world_with history_init)
               = Some (l, w1, [])
               ∧ hist w1 = history_init ∧ term w1 = cooked)
      ∧ (∃ w2, read_line (keys "ls" ++ key_left ++ [Some ESC])
                         (world_with history_init)
               = Some (l, w2, [])
               ∧ hist w2 = add_to_history l history_init
               ∧ term w2 = cooked).
Proof.
  assert (Hh : history_wf (hist (world_with history_init)))
    by exact history_init_wf.
  assert (Hc : history_count (hist (world_with history_init)) ≤ MAX_HISTORY)
    by (by vm_compute).
  assert (Hks : Forall whole_key
                  [chars "l"; chars "s"; [ESC; "["%char; "D"%char]]).
  { repeat apply Forall_cons_2; [left|left|right|apply Forall_nil_2].
    - by eexists.
    - by eexists.
    - by eexists _, _. }
  assert (Hf : failing_read [] []) by (by right).
  split_and!; [exact Hh|exact Hc|exact Hks|exact Hf|].
  destruct (read_line_end_of_input _ [] [] (world_with history_init)
              Hh Hc Hks Hf) as (l & H0 & H1 & H2).
  exists l. split_and!.
  - exact H0.
  - exact H1.
  - exact (H2 None).
Defined.

(** ** Editing *)

(** X6.  Backspace undoes an insertion wherever the cursor is: after a
    printable byte was inserted into a buffer with room, Backspace gives
    back the buffer, the length and the cursor position from before. *)
Theorem insert_then_backspace c w e :
  editor_wf e → isprint c = true → len e < MAX_CMD_LEN - 1 →
  ∃ w1 e1 w2 e2,
    plain_key c w e = Some (w1, e1)
    ∧ plain_key DEL w1 e1 = Some (w2, e2)
    ∧ line e2 = line e ∧ len e2 = len e ∧ pos e2 = pos e.
Proof.
  intros Hwf Hc Hroom.
  destruct (isprint_plain c Hc) as (_ & _ & Hbs).
  destruct (insert_char_wf c w e Hwf (isprint_not_nul c Hc))
    as (w1 & e1 & Hins & Hwf1 & _ & _ & _ & Hdone).
  destruct (Hdone Hroom) as (Hlen1 & Hpos1 & Hu1).
  destruct (backspace_wf w1 e1 Hwf1) as (w2 & e2 & Hdel & Hwf2 & _ & _ & Hback).
  pose proof Hwf as (Hl & _ & Hlen & Hpos).
  destruct (Hback ltac:(lia)) as (Hlen2 & Hpos2 & Hu2).
  exists w1, e1, w2, e2. split_and!; try lia.
  - unfold plain_key. by rewrite decide_False, Hc.
  - unfold plain_key. by rewrite decide_True by (by left).
  - destruct Hwf2 as (Hl2 & _).
    rewrite <- (wf_buffer_copy _ Hl2), <- (wf_buffer_copy _ Hl). f_equal.
    rewrite Hu2, Hu1, Hpos1.
    replace (Z.to_nat (pos e + 1 - 1)) with (Z.to_nat (pos e)) by lia.
    replace (Z.to_nat (pos e + 1)) with (S (Z.to_nat (pos e))) by lia.
    set (u := until_nul (line e)) in *.
    assert (Hp : length (take (Z.to_nat (pos e)) u) = Z.to_nat (pos e)).
    { rewrite length_take. lia. }
    rewrite take_app_le, take_ge by lia.
    rewrite drop_app_ge by lia. rewrite Hp.
    replace (S (Z.to_nat (pos e)) - Z.to_nat (pos e))%nat with 1%nat by lia.
    change (take (Z.to_nat (pos e)) u ++ drop (Z.to_nat (pos e)) u = u).
    apply take_drop.
Qed.

Lemma insert_then_backspace_witness :
  editor_wf editor_ab
  ∧ ∃ w1 e1 w2 e2,
      plain_key "x"%char (world_with history_init) editor_ab = Some (w1, e1)
      ∧ plain_key DEL w1 e1 = Some (w2, e2)
      ∧ line e2 = line editor_ab ∧ len e2 = 2 ∧ pos e2 = 1.
Proof.
  assert (H : editor_wf editor_ab).
  { destruct (wf_buffer_strncpy (chars "ab")) as [Hb Hu];
      [by apply (bool_decide_unpack _) | simpl; lia |].
    destruct editor_init_wf as (Hz & _).
    unfold editor_wf, editor_ab. cbn [line saved_line len pos].
    rewrite Hu. split_and!; try done. }
  split; [exact H|].
  exact (insert_then_backspace "x"%char (world_with history_init) editor_ab
           H eq_refl ltac:(unfold MAX_CMD_LEN; simpl; lia)).
Defined.

(** ** Recalling earlier lines *)

Lemma line_ok_nonempty lines :
  Forall line_ok lines → Forall (λ l, l ≠ []) lines.
Proof. intros H. eapply Forall_impl; [exact H|]. by intros l (? & _). Qed.

Lemma submit_all_wf lines :
  Forall line_ok lines → Z.of_nat (length lines) ≤ INT_MAX →
  history_wf (submit_all lines).
Proof.
  induction lines as [|l lines IH] using rev_ind; intros Hok Hmax.
  - apply history_init_wf.
  - rewrite Forall_app, Forall_singleton in Hok.
    destruct Hok as [Hok (_ & Hl & Hn)].
    rewrite length_app in Hmax. simpl in Hmax.
    rewrite submit_all_snoc. apply add_to_history_wf; auto; [apply IH; auto; lia|].
    destruct (submit_all_spec lines (line_ok_nonempty _ Hok)) as [_ ->]; lia.
Qed.

(** One press of Up while older lines remain. *)
Lemma arrow_up_next w e :
  history_wf (hist w) → editor_wf e →
  0 ≤ history_index e < history_count (hist w) →
  history_count (hist w) ≤ MAX_HISTORY →
  ∃ w1 e1, arrow_up w e = Some (w1, e1)
           ∧ editor_wf e1 ∧ history_index e1 = history_index e + 1
           ∧ pos e1 = len e1
           ∧ aget (history (hist w))
                  (history_count (hist w) - (history_index e + 1))
             = Some (Some (until_nul (line e1)))
           ∧ same_but_stdout w w1.
Proof.
  intros Hh Hwf Hidx Hcount. unfold arrow_up.
  rewrite decide_True by lia.
  set (e1 := Editor _ _ _ _ _).
  assert (Hwf1 : editor_wf e1).
  { destruct Hwf as (Hl & Hs & Hlen & Hpos).
    unfold e1, editor_wf. simpl. split_and!; try done; try lia.
    case_decide; [|done]. by rewrite wf_buffer_copy. }
  assert (Hri : recall_index (hist w) (history_index e1)
                = history_count (hist w) - (history_index e + 1)).
  { unfold recall_index, e1. simpl. case_decide; lia. }
  rewrite Hri. rewrite decide_True by lia.
  assert (Hrange : 0 ≤ history_count (hist w) - (history_index e + 1)
                   < history_count (hist w)) by lia.
  pose proof (load_entry_wf (hist w) _ e1 Hh Hwf1 Hrange) as Hload.
  destruct (load_entry _ _ e1) as [e2|]; [|lia].
  destruct Hload as (Hwf2 & Hi2 & _ & Hget & Hp2). simpl.
  destruct (redraw_wf (line e2) w) as (w1 & Hr & Hsame); [by destruct Hwf2|].
  rewrite Hr. simpl. exists w1, e2. by split_and!.
Qed.

Lemma read_loop_key_up rest w e :
  read_loop (key_up ++ rest) w e
  = arrow_up w e ≫= λ '(w1, e1), read_loop rest w1 e1.
Proof. reflexivity. Qed.

(** [k] presses of Up from browsing index [j]: the index moves to
    [min (j + k) n]; if that is [j] nothing changed, otherwise the buffer
    holds the line that many places before the end of the history. *)
Lemma read_loop_key_ups k :
  ∀ w e rest,
    history_wf (hist w) → editor_wf e →
    0 ≤ history_index e ≤ history_count (hist w) →
    history_count (hist w) ≤ MAX_HISTORY →
    let n := history_count (hist w) in
    let j' := (history_index e + Z.of_nat k) `min` n in
    ∃ w' e',
      read_loop (key_ups k ++ rest) w e = read_loop rest w' e'
      ∧ editor_wf e' ∧ history_index e' = j' ∧ same_but_stdout w w'
      ∧ (j' = history_index e → w' = w ∧ e' = e)
      ∧ (history_index e < j' →
         pos e' = len e'
         ∧ aget (history (hist w)) (n - j') = Some (Some (until_nul (line e')))).
Proof.
  induction k as [|k IH]; intros w e rest Hh Hwf Hidx Hcount n j'.
  - exists w, e. subst j' n. split_and!; try done; try lia.
  - unfold key_ups. simpl replicate. cbn [mjoin list_join].
    change (mjoin (replicate k key_up)) with (key_ups k).
    rewrite <- app_assoc, read_loop_key_up.
    destruct (decide (history_index e < n)) as [Hlt|Hge].
    + destruct (arrow_up_next w e Hh Hwf ltac:(lia) Hcount)
        as (w1 & e1 & Hup & Hwf1 & Hi1 & Hp1 & Hget1 & Hsame1).
      rewrite Hup. cbn [mbind option_bind].
      assert (Hhist : hist w1 = hist w) by (by destruct Hsame1 as (_&_&_&?)).
      destruct (IH w1 e1 rest) as (w' & e' & Hrun & Hwf' & Hi' & Hsame' & Hstay & Hmove);
        rewrite ?Hhist; try done; [fold n; lia|].
      rewrite Hhist in *. fold n in Hi', Hstay, Hmove, Hget1.
      exists w', e'. split_and!; try done.
      * subst j'. lia.
      * by eapply same_but_stdout_trans.
      * subst j'. lia.
      * intros _. destruct (decide (history_index e' = history_index e1)) as [E|E].
        -- destruct Hstay as [-> ->]; [lia|]. split; [done|].
           rewrite <- Hget1. f_equal. subst j'. lia.
        -- destruct Hmove as [? Hg]; [lia|]. split; [done|].
           rewrite <- Hg. f_equal. subst j'. lia.
    + unfold arrow_up at 1. rewrite decide_False by (subst n; lia).
      cbn [mbind option_bind].
      destruct (IH w e rest Hh Hwf Hidx Hcount)
        as (w' & e' & Hrun & Hwf' & Hi' & Hsame' & Hstay & Hmove).
      fold n in Hi', Hstay, Hmove.
      exists w', e'. split_and!; try done.
      * subst j'. lia.
      * intros _. apply Hstay. lia.
      * subst j'. lia.
Qed.

(** X7.  With one to [MAX_HISTORY] lines in the history, pressing Up [k]
    times and then Enter returns the [k]-th most recent line (the oldest
    one when [k] is larger than the history) and records it once more as
    the newest entry. *)
Theorem recall_returns_earlier_line (lines : list cstring) (k : nat) rest w :
  Forall line_ok lines → (0 < length lines ≤ 100)%nat → (0 < k)%nat →
  hist w = submit_all lines →
  ∃ s w',
    read_line (key_ups k ++ Some LF :: rest) w = Some (s, w', rest)
    ∧ lines !! (length lines - k `min` length lines)%nat = Some s
    ∧ hist w' = add_to_history s (hist w).
Proof.
  intros Hok Hn Hk Hw.
  assert (Hmax : Z.of_nat (length lines) ≤ INT_MAX)
    by (apply short_run_counted; lia).
  destruct (submit_all_spec lines (line_ok_nonempty _ Hok) Hmax) as [Hh Hc].
  pose proof (submit_all_wf lines Hok Hmax) as Hwfh.
  rewrite <- Hw in Hh, Hc, Hwfh.
  unfold read_line.
  destruct (read_loop_key_ups k (enableRawMode w) editor_init (Some LF :: rest))
    as (w1 & e1 & Hrun & Hwf1 & Hi1 & (Ht & Ho & Hlog & Hhist) & _ & Hmove);
    try done.
  { change (hist (enableRawMode w)) with (hist w).
    change (history_index editor_init) with 0. lia. }
  { change (hist (enableRawMode w)) with (hist w). unfold MAX_HISTORY. lia. }
  change (hist (enableRawMode w)) with (hist w) in *.
  change (history_index editor_init) with 0 in *.
  rewrite Hc in *.
  destruct Hmove as [Hp1 Hget]; [lia|].
  rewrite Hrun. simpl read_loop. cbn [mbind option_bind].
  destruct Hwf1 as (Hl1 & _ & Hlen1 & _).
  rewrite wf_buffer_string_at by done. cbn [mbind option_bind].
  set (s := until_nul (line e1)) in *.
  assert (Hs : lines !! (length lines - k `min` length lines)%nat = Some s).
  { unfold aget in Hget. rewrite decide_True in Hget by lia.
    rewrite Hh in Hget.
    replace (Z.to_nat (Z.of_nat (length lines)
                       - (0 + Z.of_nat k) `min` Z.of_nat (length lines)))
      with (length lines - k `min` length lines)%nat in Hget by lia.
    unfold stored in Hget. rewrite retained_short in Hget by lia.
    rewrite lookup_app_l in Hget by (rewrite length_fmap; lia).
    rewrite list_lookup_fmap in Hget.
    destruct (lines !! _) as [l|]; simpl in Hget; congruence. }
  exists s. eexists. split_and!; [done|done|].
  assert (Hne : s ≠ []).
  { rewrite Forall_forall in Hok.
    apply (Hok s). by eapply list_elem_of_lookup_2. }
  rewrite decide_True by (rewrite Hlen1; destruct s; [done|simpl; lia]).
  cbn. by rewrite Hhist.
Qed.

Lemma recall_returns_earlier_line_witness :
  Forall line_ok [chars "ls"; chars "pwd"; chars "date"]
  ∧ ∃ s w',
      read_line (key_ups 2 ++ [Some LF])
                (world_with (submit_all [chars "ls"; chars "pwd"; chars "date"]))
      = Some (s, w', [])
      ∧ [chars "ls"; chars "pwd"; chars "date"] !! 1%nat = Some s
      ∧ hist w' = add_to_history s
                    (submit_all [chars "ls"; chars "pwd"; chars "date"]).
Proof.
  assert (H : Forall line_ok [chars "ls"; chars "pwd"; chars "date"]).
  { repeat constructor; try done; try (simpl; lia);
      by apply (bool_decide_unpack _). }
  split; [exact H|].
  exact (recall_returns_earlier_line [chars "ls"; chars "pwd"; chars "date"]
           2 []
           (world_with (submit_all [chars "ls"; chars "pwd"; chars "date"]))
           H ltac:(simpl; lia) ltac:(lia) eq_refl).
Defined.

(** ** What every parsed Stage looks like *)

Lemma stage_open_closed c : stage_open c → stage_closed c.
Proof. intros (? & ? & ? & ? & ?). unfold stage_closed. auto. Qed.

Lemma stage_open_push a c :
  stage_open c → Z.of_nat (length (args c)) < MAX_ARGS - 1 → settled a →
  stage_open (push_arg a c).
Proof.
  intros (Hl & Hs & ? & ? & ?) Hroom Ha. unfold stage_open. simpl.
  rewrite length_app. simpl. split_and!; try done; [lia|].
  apply Forall_app. split; [done|]. by apply Forall_singleton.
Qed.

Lemma parse_args_shape fuel :
  ∀ arg sp c c',
    stage_open c → parse_args fuel arg sp c = Some c' → stage_closed c'.
Proof.
  induction fuel as [|f IH]; intros arg sp c c' Hc; [done|].
  pose proof (stage_open_closed c Hc) as Hcc.
  destruct arg as [a|]; simpl; [|by intros [= <-]].
  case_decide as Hroom; [|by intros [= <-]].
  assert (Hnext : ∀ c1, stage_open c1 →
            (let '(arg', sp') := strtok_r sp blanks in
             parse_args f arg' sp' c1) = Some c' → stage_closed c').
  { intros c1 Hc1. destruct (strtok_r sp blanks) as [arg' sp']. by apply IH. }
  destruct Hc as (Hl & Hs & Hi & Ho & Happ).
  case_decide as Hout.
  { destruct (strtok_r sp blanks) as [[f0|] sp1]; [|by intros [= <-]].
    destruct (match f0 with
              | [] => Some f0
              | q :: _ => if decide (q = QUOTE)
                          then (strtok_r sp1 [QUOTE]).1 else Some f0
              end) as [f'|]; intros [= <-]; [|done].
    unfold stage_closed. simpl. split_and!; try done; [by left|].
    case_decide; [right|left]; eauto. }
  case_decide as Hin.
  { destruct (strtok_r sp blanks).1; intros [= <-]; [|done].
    unfold stage_closed. simpl. split_and!; try done; [by right|by left]. }
  case_decide as Hbg.
  { apply Hnext. by unfold stage_open. }
  destruct a as [|q body].
  { apply Hnext, stage_open_push; [by unfold stage_open|done|done]. }
  destruct (if decide (q = QUOTE) then strchr body QUOTE else None)
    as [k|] eqn:Ek.
  - apply IH, stage_open_push; [by unfold stage_open|done|].
    case_decide; [|done]. apply strchr_Some in Ek as [Hk _].
    intros Hh. destruct (take k body) as [|x r]; [done|].
    injection Hh as ->. exfalso. apply Hk, elem_of_cons. by left.
  - apply Hnext, stage_open_push; [by unfold stage_open|done|].
    intros Hh. injection Hh as ->. rewrite decide_True in Ek by done.
    by apply strchr_None.
Qed.

Lemma parsed_stage_closed c : parsed_stage c → stage_closed c.
Proof.
  intros (seg & _ & H). unfold parse_command in H.
  destruct (strtok_r seg blanks) as [arg sp].
  eapply parse_args_shape; [|exact H].
  unfold stage_open, new_command. simpl. unfold MAX_ARGS.
  split_and!; try done; lia.
Qed.

Lemma settled_unquote a : settled a → unquote a = a.
Proof.
  intros Ha. destruct a as [|q body]; [done|].
  destruct (decide (q = QUOTE)) as [->|Hq].
  - apply unquote_open_quote. by apply Ha.
  - apply unquote_no_quote. simpl. congruence.
Qed.

(** X8.  Whatever the line, [parse_pipeline] fills at most [MAX_PIPES]
    entries of the pipeline and at most [MAX_ARGS - 1] arguments of each, so
    that the NULL it writes after the arguments is inside [args] too. *)
Theorem parsed_stages_fit_arrays (line : cstring) :
  ∃ p, parse_pipeline line = Some p
       ∧ (length p ≤ 10)%nat
       ∧ Forall (λ c, (length (args c) ≤ 63)%nat) p.
Proof.
  destruct (parse_pipeline_total line) as (p & Hp & Hlen & Hall).
  exists p. split; [done|]. unfold MAX_PIPES in Hlen. split; [lia|].
  eapply Forall_impl; [exact Hall|]. intros c Hc.
  destruct (parsed_stage_closed c Hc) as (Hl & _). unfold MAX_ARGS in Hl. lia.
Qed.

(** X9.  No parsed Stage has both an input and an output file: the
    argument loop stops at the first redirection it handles.  The append
    flag is 0 or 1, and 1 only together with an output file. *)
Theorem one_redirection_per_stage (line : cstring) :
  ∃ p, parse_pipeline line = Some p
       ∧ Forall (λ c, (input_file c = None ∨ output_file c = None)
                      ∧ (append c = 0
                         ∨ (append c = 1 ∧ is_Some (output_file c)))) p.
Proof.
  destruct (parse_pipeline_total line) as (p & Hp & _ & Hall).
  exists p. split; [done|].
  eapply Forall_impl; [exact Hall|]. intros c Hc.
  by destruct (parsed_stage_closed c Hc) as (_ & _ & ? & ?).
Qed.

(** X10.  The loop at the head of [execute_command], which strips a pair
    of enclosing quotes, never finds one on a Stage that [parse_pipeline]
    produced: the argument vector handed to [execvp] is the parsed one, and
    no pointer of [args] is moved before [free_pipeline] frees it. *)
Theorem quote_loop_changes_nothing (line : cstring) :
  ∃ p, parse_pipeline line = Some p ∧ Forall (λ c, argv_of c = args c) p.
Proof.
  destruct (parse_pipeline_total line) as (p & Hp & _ & Hall).
  exists p. split; [done|].
  eapply Forall_impl; [exact Hall|]. intros c Hc.
  destruct (parsed_stage_closed c Hc) as (_ & Hs & _).
  unfold argv_of. induction Hs as [|a l Ha Hl IH]; [done|].
  rewrite fmap_cons, IH. f_equal. by apply settled_unquote.
Qed.

(** ** Segments of plain words *)

Lemma plain_not_redirection a : plain a → ¬ is_redirection a.
Proof. intros [Hq _]. by apply quiet_not_redirection. Qed.

(** One plain word: it is stored, or sets the background flag when it is
    [&], and the loop moves on to the next word. *)
Lemma parse_args_plain_step fuel a sp c :
  plain a → (args_measure (Some a) sp < fuel)%nat →
  Z.of_nat (length (args c)) < MAX_ARGS - 1 →
  ∃ f,
    parse_args fuel (Some a) sp c
    = (let '(arg', sp') := strtok_r sp blanks in
       parse_args f arg' sp'
         (mkCommand (args c ++ plain_args [a]) (input_file c) (output_file c)
                    (append c) (plain_background [a] (background c))))
    ∧ (2 * length sp < f)%nat.
Proof.
  intros Ha Hm Hroom. destruct fuel as [|f]; [simpl in Hm; lia|].
  pose proof (plain_not_redirection a Ha) as Hnr.
  exists f. split; [|simpl in Hm; lia].
  simpl parse_args. rewrite decide_True by done.
  rewrite decide_False by (intros [?|?]; apply Hnr; unfold is_redirection; tauto).
  rewrite decide_False by (intros ?; apply Hnr; unfold is_redirection; tauto).
  unfold plain_args, plain_background.
  case_decide as Hbg.
  { subst a. rewrite filter_cons_False by (by intros H).
    rewrite decide_True by (apply elem_of_cons; by left).
    simpl. by rewrite app_nil_r. }
  rewrite filter_cons_True by done.
  rewrite (decide_False (P := chars "&" ∈ [a]))
    by (intros H%list_elem_of_singleton; apply Hbg; symmetry; exact H).
  destruct a as [|q body]; [done|].
  rewrite decide_False; [done|].
  intros ->. destruct Ha as [_ Hq]. apply Hq, elem_of_cons. by left.
Qed.

(** The loop over a run of plain words [a :: ws], up to the token that
    follows them, if any. *)
Lemma parse_args_plain ws :
  ∀ fuel a sp c ts,
    (args_measure (Some a) sp < fuel)%nat →
    Forall plain (a :: ws) →
    tokens sp = ws ++ ts →
    Z.of_nat (length (args c) + length (plain_args (a :: ws))) < MAX_ARGS - 1 →
    ∃ fuel' sp',
      parse_args fuel (Some a) sp c
      = parse_args fuel' (head ts) sp'
          (mkCommand (args c ++ plain_args (a :: ws)) (input_file c)
                     (output_file c) (append c)
                     (plain_background (a :: ws) (background c)))
      ∧ tokens sp' = tail ts
      ∧ (args_measure (head ts) sp' < fuel')%nat.
Proof.
  induction ws as [|w ws IH]; intros fuel a sp c ts Hm Hpl Htok Hlen;
    apply Forall_cons in Hpl as [Ha Hws];
    (destruct (parse_args_plain_step fuel a sp c Ha Hm) as (f & Hstep & Hf);
     [lia|]);
    rewrite Hstep; clear Hstep;
    destruct (strtok_r sp blanks) as [arg' sp'] eqn:E;
    pose proof (strtok_r_next _ _ _ _ E) as [Harg Hsp];
    rewrite Htok in Harg, Hsp; simpl in Harg, Hsp; subst arg'.
  - exists f, sp'. split; [done|]. split; [done|].
    destruct ts as [|t ts]; simpl; [lia|].
    apply strtok_r_Some in E as [_ E]. lia.
  - assert (Hcount : length (plain_args (a :: w :: ws))
                     = (length (plain_args [a]) + length (plain_args (w :: ws)))%nat).
    { unfold plain_args. rewrite (filter_app _ [a] (w :: ws)).
      by rewrite length_app. }
    destruct (IH f w sp'
                (mkCommand (args c ++ plain_args [a]) (input_file c)
                           (output_file c) (append c)
                           (plain_background [a] (background c))) ts)
      as (fuel' & sp'' & Hrun & Htok' & Hm'); [|done|done| |].
    + apply strtok_r_Some in E as [_ E]. simpl. lia.
    + cbn [args]. rewrite length_app. lia.
    + exists fuel', sp''. split; [|done]. rewrite Hrun.
      cbn [args input_file output_file append background].
      assert (Hargs : (args c ++ plain_args [a]) ++ plain_args (w :: ws)
                      = args c ++ plain_args (a :: w :: ws)).
      { unfold plain_args. rewrite <- app_assoc, <- filter_app. done. }
      assert (Hbg : plain_background (w :: ws)
                      (plain_background [a] (background c))
                    = plain_background (a :: w :: ws) (background c)).
      { unfold plain_background.
        pose proof (elem_of_cons (w :: ws) (chars "&") a) as Hc.
        pose proof (list_elem_of_singleton (chars "&") a) as Hs.
        repeat case_decide; try done; tauto. }
      by rewrite Hargs, Hbg.
Qed.

Lemma parse_args_done fuel arg sp c :
  (0 < fuel)%nat → ¬ Z.of_nat (length (args c)) < MAX_ARGS - 1 →
  parse_args fuel arg sp c = Some c.
Proof.
  intros Hf Hfull. destruct fuel as [|f]; [lia|].
  destruct arg as [a|]; simpl; [|done]. by rewrite decide_False.
Qed.

Lemma plain_args_id ws : chars "&" ∉ ws → plain_args ws = ws.
Proof.
  intros H. unfold plain_args. induction ws as [|w ws IH]; [done|].
  apply not_elem_of_cons in H as [Hw Hws].
  rewrite filter_cons_True by done. by rewrite IH.
Qed.

(** X12.  A segment made of plain words only, fewer than [MAX_ARGS - 1]
    of them arguments, becomes the Stage with these words as arguments and
    no file; [&] is no argument, and wherever it stands among the words, not
    only at the end, it sets the background flag. *)
Theorem plain_words_stage (seg : cstring) :
  Forall plain (tokens seg) → (length (plain_args (tokens seg)) < 63)%nat →
  parse_command seg
  = Some (mkCommand (plain_args (tokens seg)) None None 0
                    (plain_background (tokens seg) 0)).
Proof.
  intros Hpl Hlen. unfold parse_command.
  destruct (strtok_r seg blanks) as [arg sp] eqn:E.
  pose proof (strtok_r_measure _ _ _ _ E) as Hm.
  pose proof (strtok_r_next _ _ _ _ E) as [Ha Hsp].
  destruct (tokens_by blanks seg) as [|a ws]; simpl in Ha, Hsp; subst arg.
  - by replace (2 * length seg + 1)%nat with (S (2 * length seg)) by lia.
  - destruct (parse_args_plain ws _ a sp new_command [] Hm Hpl)
      as (fuel' & sp' & Hrun & _ & Hf).
    + by rewrite app_nil_r.
    + simpl args. simpl length at 1. unfold MAX_ARGS. lia.
    + rewrite Hrun. simpl head. simpl in Hf.
      destruct fuel' as [|f']; [lia|]. done.
Qed.

Lemma plain_words_stage_witness :
  Forall plain (tokens (chars "sleep & 5"))
  ∧ parse_command (chars "sleep & 5")
    = Some (mkCommand [chars "sleep"; chars "5"] None None 0 1).
Proof.
  assert (H : Forall plain (tokens (chars "sleep & 5"))).
  { apply (bool_decide_unpack _). vm_compute. exact I. }
  split; [exact H|].
  exact (plain_words_stage (chars "sleep & 5") H ltac:(vm_compute; lia)).
Defined.

(** The step of the loop at a redirection operator that is followed by a
    file name without an opening quote. *)
Lemma parse_args_redirect fuel op sp c f rest :
  is_redirection op → tokens sp = f :: rest → head f ≠ Some QUOTE →
  (0 < fuel)%nat → Z.of_nat (length (args c)) < MAX_ARGS - 1 →
  parse_args fuel (Some op) sp c
  = Some (if decide (op = chars "<") then set_input f c
          else set_output f (if decide (op = chars ">>") then 1 else 0) c).
Proof.
  intros Hop Htok Hf Hfuel Hroom. destruct fuel as [|fuel]; [lia|].
  simpl parse_args. rewrite decide_True by done.
  destruct (strtok_r sp blanks) as [file sp1] eqn:E.
  pose proof (strtok_r_next _ _ _ _ E) as [Hfile _].
  rewrite Htok in Hfile. simpl in Hfile. subst file. simpl.
  assert (Hq : match f with
               | [] => Some f
               | q :: _ => if decide (q = QUOTE)
                           then (strtok_r sp1 [QUOTE]).1 else Some f
               end = Some f).
  { destruct f as [|q r]; [done|]. rewrite decide_False; [done|].
    intros ->. by apply Hf. }
  destruct Hop as [->|[->| ->]].
  - rewrite decide_False by (by intros [?|?]). by rewrite !decide_True by done.
  - rewrite decide_True by (by left). rewrite Hq.
    rewrite decide_False by done. by rewrite (decide_False (P := _ = chars "<")).
  - rewrite decide_True by (by right). rewrite Hq.
    rewrite decide_True by done. by rewrite (decide_False (P := _ = chars "<")).
Qed.

(** X13.  The first redirection operator closes the Stage: with plain
    words before it and a file name after it, the Stage gets the words as
    arguments and the file on the side the operator names, [>>] setting the
    append flag; whatever follows the file name (more words, [&], a second
    redirection) is dropped. *)
Theorem redirection_ends_stage (seg : cstring) ws op f rest :
  tokens seg = ws ++ op :: f :: rest →
  Forall plain ws → (length (plain_args ws) < 63)%nat →
  is_redirection op → head f ≠ Some QUOTE →
  parse_command seg
  = Some (mkCommand (plain_args ws)
            (if decide (op = chars "<") then Some f else None)
            (if decide (op = chars "<") then None else Some f)
            (if decide (op = chars ">>") then 1 else 0)
            (plain_background ws 0)).
Proof.
  intros Htok Hpl Hlen Hop Hf. unfold parse_command.
  destruct (strtok_r seg blanks) as [arg sp] eqn:E.
  pose proof (strtok_r_measure _ _ _ _ E) as Hm.
  pose proof (strtok_r_next _ _ _ _ E) as [Ha Hsp].
  rewrite Htok in Ha, Hsp.
  destruct ws as [|a ws]; simpl in Ha, Hsp; subst arg.
  - rewrite (parse_args_redirect (2 * length seg + 1) op sp new_command f rest
               Hop Hsp Hf ltac:(lia) ltac:(simpl; unfold MAX_ARGS; lia)).
    destruct Hop as [->|[->| ->]]; reflexivity.
  - destruct (parse_args_plain ws _ a sp new_command (op :: f :: rest) Hm Hpl Hsp)
      as (fuel' & sp' & Hrun & Htok' & Hf').
    { simpl args. simpl length at 1. unfold MAX_ARGS. lia. }
    rewrite Hrun. simpl head. simpl tail in Htok'.
    assert (Hfuel : (0 < fuel')%nat) by (simpl in Hf'; lia).
    rewrite (parse_args_redirect fuel' op sp' _ f rest Hop Htok' Hf Hfuel);
      [|simpl args; unfold MAX_ARGS; lia].
    destruct Hop as [->|[->| ->]]; reflexivity.
Qed.

Lemma redirection_ends_stage_witness :
  tokens (chars "sort -r < in > out &")
  = [chars "sort"; chars "-r"] ++ chars "<" :: chars "in" :: [chars ">"; chars "out"; chars "&"]
  ∧ parse_command (chars "sort -r < in > out &")
    = Some (mkCommand [chars "sort"; chars "-r"] (Some (chars "in")) None 0 0).
Proof.
  split; [reflexivity|].
  refine (redirection_ends_stage (chars "sort -r < in > out &")
            [chars "sort"; chars "-r"] (chars "<") (chars "in")
            [chars ">"; chars "out"; chars "&"] eq_refl _ _ _ _).
  - apply (bool_decide_unpack _). vm_compute. exact I.
  - vm_compute. lia.
  - by left.
  - done.
Defined.

(** X14.  Once [MAX_ARGS - 1] arguments are stored the loop is left:
    what follows in the segment is ignored, be it further words, [&] or a
    redirection. *)
Theorem arguments_beyond_63_ignored (seg : cstring) ws rest :
  tokens seg = ws ++ rest →
  Forall plain ws → chars "&" ∉ ws → length ws = 63%nat →
  parse_command seg = Some (mkCommand ws None None 0 0).
Proof.
  intros Htok Hpl Hamp Hlen.
  destruct ws as [|a ws]; [done|].
  destruct ws as [|w63 ws _] using rev_ind; [done|].
  rewrite app_comm_cons in Hpl, Hamp.
  rewrite Forall_app, Forall_singleton in Hpl. destruct Hpl as [Hpl Hw].
  apply not_elem_of_app in Hamp as [Hamp Hw63].
  rewrite list_elem_of_singleton in Hw63.
  simpl in Hlen. rewrite length_app in Hlen. simpl in Hlen.
  unfold parse_command.
  destruct (strtok_r seg blanks) as [arg sp] eqn:E.
  pose proof (strtok_r_measure _ _ _ _ E) as Hm.
  pose proof (strtok_r_next _ _ _ _ E) as [Ha Hsp].
  rewrite Htok in Ha, Hsp. simpl in Ha, Hsp. subst arg.
  rewrite <- app_assoc in Hsp. simpl in Hsp.
  destruct (parse_args_plain ws _ a sp new_command (w63 :: rest) Hm Hpl Hsp)
    as (fuel' & sp' & Hrun & Htok' & Hf').
  { rewrite plain_args_id by done. simpl. unfold MAX_ARGS. lia. }
  rewrite Hrun. simpl head. simpl tail in Htok'.
  rewrite plain_args_id by done.
  unfold plain_background. rewrite decide_False by done.
  destruct (parse_args_plain_step fuel' w63 sp'
              (mkCommand (args new_command ++ a :: ws) None None 0 0) Hw Hf')
    as (f & Hstep & Hfuel).
  { simpl. unfold MAX_ARGS. lia. }
  simpl in Hstep. simpl. rewrite Hstep.
  destruct (strtok_r sp' blanks) as [arg' sp''].
  rewrite parse_args_done.
  - unfold plain_args, plain_background.
    rewrite filter_cons_True by (intros H; by apply Hw63).
    rewrite decide_False
      by (intros H%list_elem_of_singleton; by apply Hw63).
    done.
  - lia.
  - cbn [args]. unfold plain_args.
    rewrite filter_cons_True by (intros H; by apply Hw63).
    simpl. rewrite ?length_app. simpl. unfold MAX_ARGS. lia.
Qed.

Lemma arguments_beyond_63_ignored_witness :
  tokens (many_words 63 ++ chars "> out &")
  = replicate 63 (chars "a") ++ [chars ">"; chars "out"; chars "&"]
  ∧ parse_command (many_words 63 ++ chars "> out &")
    = Some (mkCommand (replicate 63 (chars "a")) None None 0 0).
Proof.
  split; [by vm_compute|].
  refine (arguments_beyond_63_ignored (many_words 63 ++ chars "> out &")
            (replicate 63 (chars "a")) [chars ">"; chars "out"; chars "&"]
            _ _ _ _).
  - by vm_compute.
  - apply (bool_decide_unpack _). vm_compute. exact I.
  - apply (bool_decide_unpack _). vm_compute. exact I.
  - reflexivity.
Defined.

(** ** The shell's own descriptors *)

Section Descriptors.

Context (env : os_env).

Lemma fds_execute_command cmd i o sh :
  fds (execute_command env cmd i o sh) = fds sh
  ∧ pipes_made (execute_command env cmd i o sh) = pipes_made sh.
Proof. done. Qed.

(** Only a failed [pipe] makes the loop write to standard error. *)
Lemma spawn_stages_stderr stages :
  ∀ input_fd sh,
    match spawn_stages env stages input_fd sh with
    | inr sh' => stderr sh' = stderr sh
    | inl sh' => stderr sh' = stderr sh ++ [chars "pipe failed"]
    end.
Proof.
  induction stages as [|cmd rest IH]; intros input_fd sh; [done|].
  destruct rest as [|cmd2 rest].
  - simpl. by case_decide.
  - rewrite spawn_stages_cons. unfold pipe.
    destruct (pipe_ok env (pipes_made sh)); [|done]. cbv zeta.
    match goal with
    | |- context [spawn_stages env (cmd2 :: rest) ?r ?s] =>
        pose proof (IH r s) as H;
        destruct (spawn_stages env (cmd2 :: rest) r s) as [sh'|sh'];
        rewrite H; by case_decide
    end.
Qed.

(** One round of the loop for a stage that is not the last: a pipe is
    created on the two lowest free descriptors [r] and [w], the stage is
    forked, and the shell closes the descriptor it was handed, unless that
    is standard input, and the write end [w]. *)
Lemma spawn_stages_round cmd cmd2 rest input_fd sh :
  pipe_ok env (pipes_made sh) = true →
  is_Some (fd_lookup (fds sh) stdin_fd) →
  ∃ r w sh3 ch,
    spawn_stages env (cmd :: cmd2 :: rest) input_fd sh
    = spawn_stages env (cmd2 :: rest) r sh3
    ∧ (∀ fd, fd_lookup (fds sh3) fd
             = if decide (fd = w) then None
               else if decide (fd = input_fd ∧ input_fd ≠ stdin_fd) then None
               else if decide (fd = r) then Some (PipeRead (pipes_made sh))
               else fd_lookup (fds sh) fd)
    ∧ fd_lookup (fds sh) r = None ∧ fd_lookup (fds sh) w = None
    ∧ r ≠ stdin_fd ∧ w ≠ stdin_fd ∧ w ≠ r
    ∧ pipes_made sh3 = S (pipes_made sh)
    ∧ children sh3 = children sh ++ [ch]
    ∧ stderr sh3 = stderr sh.
Proof.
  intros Hp H0. rewrite spawn_stages_cons. unfold pipe. rewrite Hp. cbv zeta.
  set (r := lowest_free (fds sh)).
  set (t1 := fd_install (fds sh) r (PipeRead (pipes_made sh))).
  set (w := lowest_free t1).
  set (t2 := fd_install t1 w (PipeWrite (pipes_made sh))).
  match goal with
  | |- context [spawn_stages env (cmd2 :: rest) r ?s] => set (sh3 := s)
  end.
  assert (Hr : fd_lookup (fds sh) r = None) by apply lowest_free_free.
  assert (Hw : fd_lookup t1 w = None) by apply lowest_free_free.
  assert (Hr0 : r ≠ stdin_fd) by (by apply lowest_free_ne).
  assert (Hwr : w ≠ r).
  { intros E. rewrite E in Hw. unfold t1 in Hw.
    rewrite fd_lookup_install, decide_True in Hw by done. done. }
  assert (Hw' : fd_lookup (fds sh) w = None).
  { unfold t1 in Hw. rewrite fd_lookup_install, decide_False in Hw by done.
    done. }
  assert (Hw0 : w ≠ stdin_fd).
  { intros E. rewrite E in Hw'. destruct H0 as [x Hx]. congruence. }
  exists r, w, sh3. eexists. split; [done|]. split_and!; try done.
  - intros fd. unfold sh3. simpl. rewrite fd_lookup_close.
    case_decide as Ew; [done|].
    destruct (decide (input_fd ≠ stdin_fd)) as [Hin|Hin]; simpl.
    + rewrite fd_lookup_close. unfold t2, t1.
      rewrite !fd_lookup_install.
      repeat case_decide; try done; tauto.
    + unfold t2, t1. rewrite !fd_lookup_install.
      repeat case_decide; try done; tauto.
  - unfold sh3. by destruct (decide (input_fd ≠ stdin_fd)).
  - unfold sh3. by destruct (decide (input_fd ≠ stdin_fd)).
  - unfold sh3. by destruct (decide (input_fd ≠ stdin_fd)).
Qed.

(** The loop of [execute_pipeline] when every pipe can be created: it
    closes the descriptor it was handed, unless that is standard input,
    and every pipe end it opened. *)
Lemma spawn_stages_fds stages :
  ∀ input_fd sh,
    stages ≠ [] →
    is_Some (fd_lookup (fds sh) stdin_fd) →
    (∀ j, (j + 1 < length stages)%nat
          → pipe_ok env (pipes_made sh + j) = true) →
    ∃ sh',
      spawn_stages env stages input_fd sh = inr sh'
      ∧ (∀ fd, fd_lookup (fds sh') fd
               = if decide (fd = input_fd ∧ input_fd ≠ stdin_fd) then None
                 else fd_lookup (fds sh) fd)
      ∧ pipes_made sh' = (pipes_made sh + (length stages - 1))%nat.
Proof.
  induction stages as [|cmd rest IH]; intros input_fd sh Hne H0 Hpipes; [done|].
  destruct rest as [|cmd2 rest].
  - clear IH. simpl spawn_stages. cbv zeta. eexists. split; [done|].
    split.
    + intros fd. case_decide as Hin; simpl.
      * rewrite fd_lookup_close. repeat case_decide; try done; tauto.
      * repeat case_decide; try done; tauto.
    + case_decide; simpl; lia.
  - pose proof (Hpipes 0%nat ltac:(simpl; lia)) as Hp.
    rewrite Nat.add_0_r in Hp.
    destruct (spawn_stages_round cmd cmd2 rest input_fd sh Hp H0)
      as (r & w & sh3 & ch & Hround & Ht3 & Hr & Hw' & Hr0 & Hw0 & Hwr
          & Hpm3 & _).
    rewrite Hround.
    destruct (IH r sh3) as (sh' & Hrun & Hfds & Hpm); [done| | |].
    + rewrite Ht3. rewrite decide_False by (intros ?; congruence).
      rewrite decide_False by (intros [? ?]; congruence).
      rewrite decide_False by (intros ?; congruence). done.
    + intros j Hj. rewrite Hpm3.
      replace (S (pipes_made sh) + j)%nat with (pipes_made sh + S j)%nat by lia.
      apply Hpipes. simpl in *. lia.
    + exists sh'. split; [done|]. split.
      * intros fd. rewrite Hfds, Ht3.
        destruct (decide (fd = r)) as [E|Hfr].
        -- rewrite decide_True by (split; [exact E|exact Hr0]).
           rewrite E, Hr. by case_match.
        -- rewrite (decide_False (P := fd = r ∧ _)) by tauto.
           destruct (decide (fd = w)) as [E|Hfw]; [|done].
           rewrite E, Hw'. by case_match.
      * rewrite Hpm, Hpm3. simpl. lia.
Qed.

(** X15.  A pipeline all of whose pipes could be created leaves the
    shell, if its standard input is open, with the descriptors it had
    before: each pipe end opened for the pipeline is closed again in the
    shell, foreground or background.  One pipe is created per pair of
    neighbouring stages. *)
Theorem pipeline_restores_descriptors pipeline sh :
  pipeline ≠ [] →
  is_Some (fd_lookup (fds sh) stdin_fd) →
  (∀ j, (j + 1 < length pipeline)%nat
        → pipe_ok env (pipes_made sh + j) = true) →
  ∃ sh',
    execute_pipeline env pipeline sh = Some sh'
    ∧ (∀ fd, fd_lookup (fds sh') fd = fd_lookup (fds sh) fd)
    ∧ pipes_made sh' = (pipes_made sh + (length pipeline - 1))%nat
    ∧ stderr sh' = stderr sh.
Proof.
  intros Hne H0 Hpipes. unfold execute_pipeline.
  destruct (spawn_stages_fds pipeline stdin_fd sh Hne H0 Hpipes)
    as (sh1 & Hrun & Hfds & Hpm).
  pose proof (spawn_stages_stderr pipeline stdin_fd sh) as Herr.
  rewrite Hrun in *.
  rewrite aget_last.
  destruct (last pipeline) as [lastc|] eqn:El; [|by apply last_None in El].
  cbn -[wait_loop].
  assert (Hsame : ∀ fd, fd_lookup (fds sh1) fd = fd_lookup (fds sh) fd).
  { intros fd. rewrite Hfds. rewrite decide_False; [done|tauto]. }
  destruct (decide (background lastc = 0)).
  - rewrite (wait_loop_all (children sh1) sh1 eq_refl). simpl.
    eexists. split; [done|]. by split_and!.
  - eexists. split; [done|]. by split_and!.
Qed.

(** The loop when the pipe after the stages [pre] cannot be created. *)
Lemma spawn_stages_pipe_failure cmd cmd2 post pre :
  ∀ input_fd sh fin,
    is_Some (fd_lookup (fds sh) stdin_fd) →
    fd_lookup (fds sh) input_fd = Some fin →
    (∀ j, (j < length pre)%nat → pipe_ok env (pipes_made sh + j) = true) →
    pipe_ok env (pipes_made sh + length pre) = false →
    ∃ sh',
      spawn_stages env (pre ++ cmd :: cmd2 :: post) input_fd sh = inl sh'
      ∧ stderr sh' = stderr sh ++ [chars "pipe failed"]
      ∧ length (children sh') = (length (children sh) + length pre)%nat
      ∧ ∃ fd, fd_lookup (fds sh') fd
              = Some match pre with
                     | [] => fin
                     | _ :: _ => PipeRead (pipes_made sh + length pre - 1)
                     end.
Proof.
  induction pre as [|c0 pre IH]; intros input_fd sh fin H0 Hin Hok Hfail.
  - simpl app. rewrite spawn_stages_cons. unfold pipe.
    simpl in Hfail. rewrite Nat.add_0_r in Hfail. rewrite Hfail.
    eexists. split; [done|]. simpl. split_and!; [done|lia|by exists input_fd].
  - assert (Hcons : ∃ y ys, pre ++ cmd :: cmd2 :: post = y :: ys)
      by (destruct pre; simpl; eauto).
    destruct Hcons as (y & ys & Hcons).
    change ((c0 :: pre) ++ cmd :: cmd2 :: post)
      with (c0 :: (pre ++ cmd :: cmd2 :: post)).
    rewrite Hcons.
    pose proof (Hok 0%nat ltac:(simpl; lia)) as Hp.
    rewrite Nat.add_0_r in Hp.
    destruct (spawn_stages_round c0 y ys input_fd sh Hp H0)
      as (r & w & sh3 & ch & Hround & Ht3 & Hr & Hw' & Hr0 & Hw0 & Hwr
          & Hpm3 & Hch3 & Herr3).
    rewrite Hround, <- Hcons.
    assert (Hri : r ≠ input_fd) by (intros E; rewrite E in Hr; congruence).
    destruct (IH r sh3 (PipeRead (pipes_made sh)))
      as (sh' & Hrun & Herr & Hlen & fd & Hfd).
    + rewrite Ht3. rewrite decide_False by (intros ?; congruence).
      rewrite decide_False by (intros [? ?]; congruence).
      rewrite decide_False by (intros ?; congruence). done.
    + rewrite Ht3. rewrite decide_False by (intros ?; congruence).
      rewrite decide_False by (intros [? ?]; congruence).
      by rewrite decide_True.
    + intros j Hj. rewrite Hpm3.
      replace (S (pipes_made sh) + j)%nat with (pipes_made sh + S j)%nat by lia.
      apply Hok. simpl. lia.
    + rewrite Hpm3.
      replace (S (pipes_made sh) + length pre)%nat
        with (pipes_made sh + length (c0 :: pre))%nat by (simpl; lia).
      done.
    + exists sh'. split; [done|]. split; [by rewrite Herr, Herr3|].
      split.
      * rewrite Hlen, Hch3, length_app. simpl. lia.
      * exists fd. rewrite Hfd. f_equal. rewrite Hpm3.
        destruct pre; simpl; f_equal; lia.
Qed.

(** X16.  When the pipe after some stage cannot be created,
    [execute_pipeline] reports "pipe failed" and returns at once: that stage
    and the ones after it are never started, the stages before it stay
    running without being waited for, the foreground flag is not touched,
    and the read end of the pipe created last stays open in the shell. *)
Theorem pipe_failure_abandons_pipeline pre cmd cmd2 post sh :
  is_Some (fd_lookup (fds sh) stdin_fd) →
  (∀ j, (j < length pre)%nat → pipe_ok env (pipes_made sh + j) = true) →
  pipe_ok env (pipes_made sh + length pre) = false →
  ∃ sh' spawned,
    execute_pipeline env (pre ++ cmd :: cmd2 :: post) sh = Some sh'
    ∧ stderr sh' = stderr sh ++ [chars "pipe failed"]
    ∧ children sh' = children sh ++ spawned
    ∧ length spawned = length pre
    ∧ reaped sh' = reaped sh
    ∧ wait_calls sh' = wait_calls sh
    ∧ foreground_mode sh' = foreground_mode sh
    ∧ (pre ≠ [] →
       ∃ fd, fd_lookup (fds sh') fd
             = Some (PipeRead (pipes_made sh + length pre - 1))).
Proof.
  intros H0 Hok Hfail. destruct H0 as [fin Hfin].
  destruct (spawn_stages_pipe_failure cmd cmd2 post pre stdin_fd sh fin)
    as (sh' & Hrun & Herr & Hlen & fd & Hfd); [by eexists|done|done|done|].
  destruct (spawn_stages_frame env (pre ++ cmd :: cmd2 :: post) stdin_fd sh)
    as (spawned & Hch & Hre & Hwc & Hfg & _).
  unfold execute_pipeline. rewrite Hrun in *. simpl in Hch, Hre, Hwc, Hfg.
  exists sh', spawned. split_and!; try done.
  - rewrite Hch, length_app in Hlen. lia.
  - intros Hne. exists fd. rewrite Hfd. by destruct pre.
Qed.

Lemma child_run_tidy cmd argv i o t : tidy (child_run env cmd argv i o t).
Proof.
  unfold child_run. destruct (redirect_input env cmd t) as [t1|]; [|done].
  destruct (redirect_output env cmd t1) as [t2|]; [|done].
  intros fd Hfd. unfold fd_lookup, close_from_3.
  by rewrite lookup_take_ge by lia.
Qed.

Lemma spawn_stages_tidy stages :
  ∀ input_fd sh,
    ∃ spawned,
      children (outcome (spawn_stages env stages input_fd sh))
      = children sh ++ spawned
      ∧ Forall tidy spawned.
Proof.
  induction stages as [|cmd rest IH]; intros input_fd sh.
  { exists []. simpl. by rewrite app_nil_r. }
  destruct rest as [|cmd2 rest].
  - clear IH. simpl spawn_stages. cbv zeta. eexists [_]. split.
    + by case_decide.
    + apply Forall_singleton, child_run_tidy.
  - rewrite spawn_stages_cons. unfold pipe.
    destruct (pipe_ok env (pipes_made sh)) eqn:Hp.
    2:{ exists []. simpl. by rewrite app_nil_r. }
    cbv zeta.
    match goal with
    | |- context [spawn_stages env (cmd2 :: rest) ?r ?s] =>
        destruct (IH r s) as (spawned & Hch & Hall); rewrite Hch
    end.
    eexists (_ :: spawned). split.
    + case_decide; simpl; by rewrite <- app_assoc.
    + apply Forall_cons. split; [apply child_run_tidy|done].
Qed.

(** X17.  No program started for a pipeline inherits a descriptor above
    2: in each child that reaches [execvp], whatever the shell had open
    there, pipe ends of the other stages included, has been closed. *)
Theorem children_keep_standard_descriptors pipeline sh :
  pipeline ≠ [] →
  ∃ sh' spawned,
    execute_pipeline env pipeline sh = Some sh'
    ∧ reaped sh' ++ children sh' = reaped sh ++ children sh ++ spawned
    ∧ Forall tidy spawned.
Proof.
  intros Hne.
  destruct (spawn_stages_tidy pipeline stdin_fd sh) as (spawned & Hch & Hall).
  destruct (spawn_stages_frame env pipeline stdin_fd sh)
    as (spawned' & Hch' & Hre & _).
  clear spawned' Hch'.
  unfold execute_pipeline.
  destruct (spawn_stages env pipeline stdin_fd sh) as [sh1|sh1];
    simpl in Hch, Hre.
  - exists sh1, spawned. split; [done|]. by rewrite Hre, Hch.
  - rewrite aget_last.
    destruct (last pipeline) as [lastc|] eqn:El; [|by apply last_None in El].
    cbn -[wait_loop]. destruct (decide (background lastc = 0)).
    + rewrite (wait_loop_all (children sh1) sh1 eq_refl). simpl.
      eexists _, spawned. split; [done|]. simpl.
      by rewrite app_nil_r, Hre, Hch.
    + eexists _, spawned. split; [done|]. simpl. by rewrite Hre, Hch.
Qed.

End Descriptors.

Lemma pipeline_restores_descriptors_witness :
  ∃ sh',
    execute_pipeline env_ok [simple_command "ls" 0; simple_command "wc" 1]
                     shell_init = Some sh'
    ∧ (∀ fd, fd_lookup (fds sh') fd = fd_lookup (fds shell_init) fd)
    ∧ pipes_made sh' = 1%nat
    ∧ stderr sh' = [].
Proof.
  exact (pipeline_restores_descriptors env_ok
           [simple_command "ls" 0; simple_command "wc" 1] shell_init
           ltac:(done) ltac:(by eexists) (λ j _, eq_refl)).
Defined.

Lemma pipe_failure_abandons_pipeline_witness :
  ∃ sh' spawned,
    execute_pipeline env_one_pipe
      ([simple_command "ls" 0]
         ++ simple_command "sort" 0 :: simple_command "wc" 0 :: [])
      shell_init = Some sh'
    ∧ stderr sh' = [chars "pipe failed"]
    ∧ children sh' = spawned
    ∧ length spawned = 1%nat
    ∧ reaped sh' = []
    ∧ wait_calls sh' = 0%nat
    ∧ foreground_mode sh' = 1
    ∧ ([simple_command "ls" 0] ≠ [] →
       ∃ fd, fd_lookup (fds sh') fd = Some (PipeRead 0)).
Proof.
  refine (pipe_failure_abandons_pipeline env_one_pipe
            [simple_command "ls" 0] (simple_command "sort" 0)
            (simple_command "wc" 0) [] shell_init _ _ _).
  - by eexists.
  - intros j Hj. simpl in Hj. by replace j with 0%nat by lia.
  - reflexivity.
Defined.

Lemma children_keep_standard_descriptors_witness :
  ∃ sh' spawned,
    execute_pipeline env_ok [simple_command "ls" 0; simple_command "wc" 0]
                     shell_init = Some sh'
    ∧ reaped sh' ++ children sh' = spawned
    ∧ Forall tidy spawned.
Proof.
  exact (children_keep_standard_descriptors env_ok
           [simple_command "ls" 0; simple_command "wc" 0] shell_init
           ltac:(done)).
Defined.

(** ** The loop of [main] *)

Lemma read_line_at_end w :
  read_line [] w
  = Some ([], World (term w) (term w)
                    (tc_log w ++ [raw_of (term w); term w])
                    (stdout w) (hist w), []).
Proof.
  unfold read_line. simpl read_loop. cbn [mbind option_bind].
  change (line (set_len 0 editor_init)) with (line editor_init).
  pose proof editor_init_wf as (Hl & _).
  rewrite wf_buffer_string_at by exact Hl. rewrite editor_init_empty.
  cbn [mbind option_bind len set_len]. rewrite decide_False by lia.
  unfold disableRawMode, enableRawMode, tcsetattr. simpl.
  by rewrite <- app_assoc.
Qed.

(** X18.  At the end of the input the shell does not stop: [read_line]
    hands back an empty line, which [main] skips, so that every further
    round of the loop only prints the prompt again.  History, children,
    descriptors and terminal attributes stay as they are. *)
Theorem end_of_input_never_leaves (n : nat) env d s :
  ∃ s',
    main_loop n env d [] s = Some (Next, s', [])
    ∧ stdout (tty s') = stdout (tty s) ++ replicate n prompt
    ∧ hist (tty s') = hist (tty s)
    ∧ term (tty s') = term (tty s)
    ∧ proc s' = proc s
    ∧ chdirs s' = chdirs s.
Proof.
  revert s. induction n as [|n IH]; intros s.
  - exists s. simpl. by rewrite app_nil_r.
  - cbn [main_loop]. unfold main_iteration. rewrite read_line_at_end.
    cbn [mbind option_bind]. rewrite decide_True by done.
    cbn [mbind option_bind].
    match goal with
    | |- context [main_loop n env d [] ?s1] =>
        destruct (IH s1) as (s' & Hrun & Hout & Hh & Ht & Hp & Hc)
    end.
    exists s'. split; [done|]. simpl in *.
    rewrite Hout, Hh, Ht, Hp, Hc. split_and!; try done.
    by rewrite <- app_assoc.
Qed.

(** Every row of the listing has a string to print. *)
Lemma show_history_rows h :
  history_wf h → Forall (λ row, is_Some (snd row)) (show_history h).
Proof.
  intros Hh. unfold show_history. apply Forall_fmap, Forall_forall.
  intros i Hi. simpl. apply elem_of_seqZ in Hi.
  pose proof Hh as (Hc & _).
  assert (Hidx : 0 ≤ i `mod` MAX_HISTORY < history_count h `min` MAX_HISTORY).
  { unfold MAX_HISTORY in *. case_decide.
    - pose proof (Z.mod_pos_bound i 100). lia.
    - rewrite Z.mod_small by lia. lia. }
  destruct (history_entry h _ Hh Hidx) as (s & Hs & _).
  rewrite Hs. simpl. by eexists.
Qed.

Lemma print_rows_defined rows :
  ∀ w, Forall (λ row, is_Some (snd row)) rows →
  ∃ w', print_rows rows w = Some w' ∧ same_but_stdout w w'.
Proof.
  induction rows as [|row rows IH]; intros w Hall.
  - exists w. split; [done|apply same_but_stdout_refl].
  - apply Forall_cons in Hall as [[s Hs] Hall]. simpl. rewrite Hs. simpl.
    destruct (IH (printf (fmt_d row.1 ++ chars ": " ++ s ++ [LF]) w) Hall)
      as (w' & Hrun & Hsame).
    exists w'. split; [done|].
    eapply same_but_stdout_trans; [|exact Hsame]. eauto with frame.
Qed.



(** What [read_line] does to the history: nothing, or it appends the line
    it returns, which fits a buffer. *)
Lemma read_line_hist input w s w' rest :
  history_wf (hist w) → read_line input w = Some (s, w', rest) →
  (hist w' = hist w ∨ hist w' = add_to_history s (hist w))
  ∧ (length s < 1024)%nat ∧ NUL ∉ s.
Proof.
  intros Hh. unfold read_line.
  pose proof (read_loop_wf input (enableRawMode w) editor_init Hh editor_init_wf)
    as Hloop.
  destruct (read_loop input (enableRawMode w) editor_init)
    as [[[w1 e] r]|]; simpl; [|done].
  destruct Hloop as ((Ht & Ho & Hlog & Hhist) & Hb).
  rewrite wf_buffer_string_at by done. simpl.
  destruct (wf_buffer_shape _ Hb) as [_ Hlt].
  pose proof (until_nul_no_nul (line e)) as Hn.
  change (hist (enableRawMode w)) with (hist w) in Hhist.
  case_decide; intros [= <- <- <-]; (split; [|done]); simpl; rewrite Hhist;
    [by right|by left].
Qed.




(** X20.  What Ctrl-C prints at the prompt depends on the pipeline run
    last: after one whose last stage was a foreground stage the handler
    prints the prompt again on a new line; after one whose last stage ended
    in [&] it prints nothing, until a foreground pipeline has been run. *)
Theorem interrupt_follows_last_pipeline env pipeline s lastc :
  last pipeline = Some lastc →
  (∀ j, (j + 1 < length pipeline)%nat
        → pipe_ok env (pipes_made (proc s) + j) = true) →
  ∃ sh',
    execute_pipeline env pipeline (proc s) = Some sh'
    ∧ sigint_handler (Session (tty s) sh' (chdirs s))
      = Session (if decide (background lastc = 0)
                 then printf (LF :: prompt) (tty s) else tty s)
                sh' (chdirs s).
Proof.
  intros Hlast Hpipes. unfold execute_pipeline.
  destruct (spawn_stages_frame env pipeline stdin_fd (proc s))
    as (spawned & _ & _ & _ & _ & Hall).
  destruct (Hall Hpipes) as (_ & sh1 & Hinr). rewrite Hinr.
  rewrite aget_last, Hlast. cbn -[wait_loop].
  destruct (decide (background lastc = 0)).
  - rewrite (wait_loop_all (children sh1) sh1 eq_refl). simpl.
    eexists. split; [done|]. unfold sigint_handler. by simpl.
  - eexists. split; [done|]. unfold sigint_handler. by simpl.
Qed.

Lemma interrupt_follows_last_pipeline_witness :
  ∃ sh',
    execute_pipeline env_ok [simple_command "sleep" 1] (proc session_init)
    = Some sh'
    ∧ sigint_handler (Session (tty session_init) sh' (chdirs session_init))
      = Session (tty session_init) sh' (chdirs session_init).
Proof.
  exact (interrupt_follows_last_pipeline env_ok [simple_command "sleep" 1]
           session_init (simple_command "sleep" 1) eq_refl
           (λ j (H : (j + 1 < 1)%nat), eq_refl)).
Defined.

(** ** The parser of the earlier revision *)

Lemma strtok_r_None s d sp : strtok_r s d = (None, sp) → sp = [].
Proof.
  unfold strtok_r. destruct (drop (strspn s d) s); [|done]. by intros [= <-].
Qed.

Lemma elem_of_take_inv {A} (x : A) n l : x ∈ take n l → x ∈ l.
Proof.
  intros H. rewrite <- (take_drop n l). apply elem_of_app. by left.
Qed.

(** Token and rest are made of bytes of the string scanned. *)
Lemma strtok_r_bytes s d a sp x :
  strtok_r s d = (a, sp) →
  (x ∈ sp → x ∈ s) ∧ (∀ t, a = Some t → x ∈ t → x ∈ s).
Proof.
  unfold strtok_r. destruct (drop (strspn s d) s) as [|c s1] eqn:E.
  - intros [= <- <-]. split; [by intros ?%elem_of_nil|done].
  - intros [= <- <-]. split.
    + intros H%elem_of_drop_inv. apply (elem_of_drop_inv _ (strspn s d)).
      rewrite E. first [done | apply elem_of_cons; by right].
    + intros t [= <-] H%elem_of_take_inv.
      apply (elem_of_drop_inv _ (strspn s d)).
      rewrite E. first [done | apply elem_of_cons; by right].
Qed.

Lemma strtok_r_rest_le s d a sp :
  strtok_r s d = (a, sp) → (length sp ≤ length s)%nat.
Proof.
  destruct a as [t|]; intros H.
  - apply strtok_r_Some in H as [_ H]. lia.
  - apply strtok_r_None in H. subst. simpl. lia.
Qed.

Lemma until_nul_bytes b x : x ∈ until_nul b → x ∈ b.
Proof.
  induction b as [|c b IH]; simpl; [done|].
  case_decide; [by intros ?%elem_of_nil|].
  rewrite !elem_of_cons. intros [?|?]; auto.
Qed.

Lemma until_nul_length b : (length (until_nul b) ≤ length b)%nat.
Proof.
  induction b as [|c b IH]; simpl; [done|]. case_decide; simpl; lia.
Qed.

(** Without a [>] the inner loop of the earlier parser runs until
    [strtok] finds nothing more, which leaves nothing to continue from; with
    room in [args] for the words there are, every store is inside it. *)
Lemma earlier_parse_words_total fuel :
  ∀ olds i c,
    (length olds < fuel)%nat → GT ∉ olds →
    i + Z.of_nat (length (tokens_by Earlier.white olds)) < MAX_ARGS →
    ∃ c' i', Earlier.parse_words fuel olds i c = Some (c', i', [])
             ∧ i' < MAX_ARGS.
Proof.
  induction fuel as [|f IH]; intros olds i c Hf Hgt Hroom; [lia|].
  simpl. unfold Earlier.strtok. simpl.
  destruct (strtok_r olds Earlier.white) as [ptr olds1] eqn:E.
  pose proof (strtok_r_rest_le _ _ _ _ E) as Hle.
  pose proof (strtok_r_bytes olds Earlier.white ptr olds1 GT E) as [Hsp Htok].
  pose proof (strtok_r_next _ _ _ _ E) as [Hhead Htail].
  destruct ptr as [p|].
  2:{ apply strtok_r_None in E. subst. exists c, i. split; [done|lia]. }
  assert (Hcount : length (tokens_by Earlier.white olds)
                   = S (length (tokens_by Earlier.white olds1))).
  { rewrite Htail. by destruct (tokens_by Earlier.white olds). }
  assert (Hlt : (length olds1 < length olds)%nat).
  { apply strtok_r_Some in E as [Hp E]. destruct p; [done|]. simpl in E. lia. }
  assert (Hp : GT ∉ p) by (intros H; by apply Hgt, (Htok p)).
  rewrite decide_False
    by (intros ->; apply Hp, elem_of_cons; by left).
  rewrite decide_False
    by (intros ->; apply Hp, elem_of_cons; by left).
  case_decide as Hin.
  { destruct (strtok_r olds1 Earlier.white) as [file olds2] eqn:E2.
    pose proof (strtok_r_rest_le _ _ _ _ E2) as Hle2.
    pose proof (strtok_r_bytes olds1 Earlier.white file olds2 GT E2) as [Hsp2 _].
    pose proof (strtok_r_next _ _ _ _ E2) as [_ Htail2].
    apply IH; [lia| |].
    - intros Hx. apply Hgt. auto.
    - rewrite Htail2.
      destruct (tokens_by Earlier.white olds1); simpl in *; lia. }
  case_decide as Hbg.
  { apply IH; [lia| |lia]. intros Hx. apply Hgt. auto. }
  rewrite decide_True by lia.
  apply IH; [lia| |lia]. intros Hx. apply Hgt. auto.
Qed.

(** X21.  In the earlier revision (src/unnamed/part_000) the nested calls
    of [strtok] share one position: once the words of the first segment have
    been read, the outer call has nothing left to continue from.  A line
    without [>] whose first segment has no more words than [args] takes, 63,
    therefore never yields more than one Stage, however many pipe symbols it
    holds.  (More words are stored past the end of [args].) *)
Theorem earlier_parser_keeps_one_stage (line : cstring) :
  GT ∉ line →
  (length (tokens_by Earlier.white (first_segment line)) ≤ 63)%nat →
  ∃ p, Earlier.parse_pipeline line = Some p ∧ (length p ≤ 1)%nat.
Proof.
  intros Hgt Hwords. unfold Earlier.parse_pipeline, Earlier.strtok.
  simpl default. unfold first_segment in Hwords.
  destruct (strtok_r (until_nul line) (chars "|")) as [token olds] eqn:E.
  pose proof (until_nul_length line) as Hlen.
  replace (length line + 1)%nat with (S (length line)) by lia.
  pose proof (strtok_r_next _ _ _ _ E) as [Hfirst _].
  rewrite <- Hfirst in Hwords.
  destruct token as [tok|]; [|exists []; split; [done|simpl; lia]].
  simpl in Hwords.
  pose proof (strtok_r_bytes _ _ _ _ GT E) as [_ Htok].
  apply strtok_r_Some in E as [Hne E].
  destruct tok as [|x tok]; [done|]. cbn [Earlier.parse_segments].
  rewrite decide_True by (unfold MAX_PIPES; simpl; lia).
  unfold Earlier.strtok. simpl default.
  destruct (strtok_r (x :: tok) Earlier.white) as [ptr olds1] eqn:E1.
  pose proof (strtok_r_rest_le _ _ _ _ E1) as Hle1.
  pose proof (strtok_r_bytes _ _ _ _ GT E1) as [Hsp1 _].
  pose proof (strtok_r_next _ _ _ _ E1) as [_ Htail1].
  match goal with
  | |- context [Earlier.parse_words ?fuel olds1 1 ?c0] =>
      destruct (earlier_parse_words_total fuel olds1 1 c0) as (c & i & Hc & Hi)
  end.
  - lia.
  - intros H. apply Hgt, until_nul_bytes, (Htok (x :: tok)); auto.
  - rewrite Htail1. unfold MAX_ARGS.
    destruct (tokens_by Earlier.white (x :: tok)); simpl in *; lia.
  - rewrite Hc. cbn [mbind option_bind]. rewrite decide_True by done.
    change (strtok_r [] (chars "|")) with (@None (list ascii), @nil ascii).
    cbv iota beta. simpl in E.
    destruct (length line) as [|n] eqn:En; [lia|].
    exists [c]. split; [done|simpl; lia].
Qed.

Lemma earlier_parser_keeps_one_stage_witness :
  (GT ∉ chars "ls -l | sort | wc")
  ∧ (length (tokens_by Earlier.white (first_segment (chars "ls -l | sort | wc")))
     ≤ 63)%nat
  ∧ ∃ p, Earlier.parse_pipeline (chars "ls -l | sort | wc") = Some p
         ∧ (length p ≤ 1)%nat.
Proof.
  assert (H : GT ∉ chars "ls -l | sort | wc").
  { apply (bool_decide_unpack _). vm_compute. exact I. }
  assert (Hw : (length (tokens_by Earlier.white
                          (first_segment (chars "ls -l | sort | wc")))
                ≤ 63)%nat) by (vm_compute; lia).
  split; [exact H|]. split; [exact Hw|].
  exact (earlier_parser_keeps_one_stage (chars "ls -l | sort | wc") H Hw).
Defined.

(** ** Trimming a segment *)

Lemma is_in_space c : is_in c [SPACE] = bool_decide (c = SPACE).
Proof.
  unfold is_in. apply bool_decide_ext. by rewrite list_elem_of_singleton.
Qed.

Lemma strspn_spaces s :
  s = replicate (strspn s [SPACE]) SPACE ++ drop (strspn s [SPACE]) s
  ∧ head (drop (strspn s [SPACE]) s) ≠ Some SPACE.
Proof.
  induction s as [|c s [IH1 IH2]]; [done|].
  simpl strspn. rewrite is_in_space. case_bool_decide as Hc.
  - subst c. simpl. split; [by f_equal|done].
  - simpl. split; [done|congruence].
Qed.

Lemma trim_end_spec t e :
  (trim_end t e ≤ e)%nat
  ∧ (∀ i, (trim_end t e < i ≤ e)%nat → t !! i = Some SPACE)
  ∧ (trim_end t e = 0%nat ∨ t !! trim_end t e ≠ Some SPACE).
Proof.
  induction e as [|e (IH1 & IH2 & IH3)]; simpl.
  - split; [lia|]. split; [intros i; lia|by left].
  - case_decide as He.
    + split; [lia|]. split; [|done]. intros i Hi.
      destruct (decide (i = S e)) as [->|]; [done|]. apply IH2. lia.
    + split; [lia|]. split; [intros i; lia|by right].
Qed.

(** X22.  The "Trim whitespace" lines of [parse_pipeline] take the spaces
    off both ends of a segment and nothing else: the segment is the result
    between two runs of spaces, and the result neither starts nor ends with
    a space.  Tabs are not touched. *)
Theorem trim_removes_outer_spaces (token : cstring) :
  (∃ n m, token = replicate n SPACE ++ trim token ++ replicate m SPACE)
  ∧ head (trim token) ≠ Some SPACE
  ∧ last (trim token) ≠ Some SPACE.
Proof.
  destruct (strspn_spaces token) as [Htok Hhead]. unfold trim.
  set (k := strspn token [SPACE]) in *. set (t := drop k token) in *.
  destruct t as [|x t'] eqn:Et.
  { simpl. split; [|done]. exists k, 0%nat. by rewrite Htok at 1. }
  rewrite <- Et in *. cbv zeta.
  assert (Hlen : length t = S (length t')) by (by rewrite Et).
  rewrite decide_False by lia.
  replace (Z.to_nat (Z.of_nat (length t) - 1)) with (length t') by lia.
  destruct (trim_end_spec t (length t')) as (Hr1 & Hr2 & Hr3).
  set (r := trim_end t (length t')) in *.
  replace (Z.to_nat (Z.of_nat r + 1)) with (S r) by lia.
  assert (Hrest : drop (S r) t = replicate (length t - S r) SPACE).
  { symmetry. apply replicate_as_Forall. split; [by rewrite length_drop|].
    apply Forall_lookup. intros i y Hy. rewrite lookup_drop in Hy.
    assert (Hi : (S r + i < length t)%nat) by (by eapply lookup_lt_Some).
    rewrite Hr2 in Hy by lia. congruence. }
  split_and!.
  - exists k, (length t - S r)%nat.
    rewrite <- Hrest, take_drop. exact Htok.
  - rewrite Et in *. simpl. simpl in Hhead. congruence.
  - rewrite last_lookup, length_take_le by lia. simpl.
    rewrite lookup_take_lt by lia.
    destruct Hr3 as [Hr3|Hr3]; [|done].
    rewrite Hr3, <- head_lookup. exact Hhead.
Qed.

(** ** One round of [main] is defined, but for one case *)

Lemma add_to_history_count cmd h :
  0 ≤ history_count h < INT_MAX →
  history_count h ≤ history_count (add_to_history cmd h) ≤ history_count h + 1.
Proof.
  intros Hc. unfold add_to_history. destruct cmd; [lia|].
  case_decide; simpl; rewrite wrap_int_small by (unfold INT_MAX in *; lia);
    lia.
Qed.

Lemma read_line_defined input w :
  history_wf (hist w) → history_count (hist w) ≤ MAX_HISTORY →
  ∃ l w1 r,
    read_line input w = Some (l, w1, r)
    ∧ history_wf (hist w1)
    ∧ history_count (hist w) ≤ history_count (hist w1)
      ≤ history_count (hist w) + 1.
Proof.
  intros Hh Hc.
  assert (Hmax : history_count (hist w) < INT_MAX)
    by (unfold MAX_HISTORY, INT_MAX in *; lia).
  destruct (read_line input w) as [[[l w1] r]|] eqn:Hread.
  - exists l, w1, r. split; [done|].
    destruct (read_line_history_wf input w l w1 r Hh Hmax Hread) as (Hw1 & _).
    split; [done|].
    destruct (read_line_hist input w l w1 r Hh Hread) as ([->| ->] & _);
      [lia|].
    apply add_to_history_count. destruct Hh as (? & _). lia.
  - exfalso. revert Hread. unfold read_line.
    pose proof (read_loop_wf input (enableRawMode w) editor_init Hh
                  editor_init_wf) as Hwf.
    destruct (read_loop _ _ _) as [[[w' e] r']|].
    + destruct Hwf as (_ & Hb). simpl.
      by rewrite wf_buffer_string_at by done.
    + change (hist (enableRawMode w)) with (hist w) in Hwf. lia.
Qed.

Lemma execute_pipeline_defined env pipeline sh :
  pipeline ≠ [] → is_Some (execute_pipeline env pipeline sh).
Proof.
  intros Hne. unfold execute_pipeline.
  destruct (spawn_stages env pipeline stdin_fd sh) as [sh1|sh1]; [by eexists|].
  rewrite aget_last.
  destruct (last pipeline) as [lastc|] eqn:El; [|by apply last_None in El].
  cbn -[wait_loop]. case_decide; [|by eexists].
  rewrite (wait_loop_all (children sh1) sh1 eq_refl). by eexists.
Qed.

(** X23.  With a well-formed history of at most [MAX_HISTORY] lines, one
    round of the loop of [main] has a defined outcome for every input, every
    answer of the system and every line, except in one case: the first
    stage has no argument at all, so that NULL is handed to [strcmp].  The
    round leaves the history well-formed and adds at most one line to it. *)
Theorem main_iteration_defined env d input s :
  history_wf (hist (tty s)) → history_count (hist (tty s)) ≤ MAX_HISTORY →
  (∃ f s' input',
     main_iteration env d input s = Some (f, s', input')
     ∧ history_wf (hist (tty s'))
     ∧ history_count (hist (tty s)) ≤ history_count (hist (tty s'))
       ≤ history_count (hist (tty s)) + 1)
  ∨ (main_iteration env d input s = None
     ∧ ∃ l w1 r c more,
         read_line input (printf prompt (tty s)) = Some (l, w1, r)
         ∧ parse_pipeline l = Some (c :: more)
         ∧ args c = []).
Proof.
  intros Hh Hc. unfold main_iteration.
  destruct (read_line_defined input (printf prompt (tty s)) Hh Hc)
    as (l & w1 & r & Hread & Hw1 & Hcount).
  change (hist (printf prompt (tty s))) with (hist (tty s)) in Hcount.
  rewrite Hread. cbn [mbind option_bind].
  case_decide as Hl; [left; by eexists _, _, _|].
  destruct (parse_pipeline_total l) as (p & Hp & _). rewrite Hp.
  cbn [mbind option_bind].
  case_decide as Hempty; [left; by eexists _, _, _|].
  destruct p as [|c more]; [done|].
  unfold first_word_is_exit. change (head (c :: more)) with (Some c).
  cbn [mbind option_bind].
  destruct (head (args c)) as [a0|] eqn:Ha0; cbn [mbind option_bind].
  2:{ right. split; [done|]. exists l, w1, r, c, more. split_and!; try done.
      by destruct (args c). }
  left.
  case_bool_decide as Hexit; [by eexists _, _, _|].
  unfold execute_builtin at 1. rewrite Ha0. cbn [mbind option_bind].
  cbn [tty proc chdirs].
  case_decide as Ecd.
  { destruct (chdir d (chdirs s) _); cbn; rewrite decide_True by done;
      by eexists _, _, _. }
  case_decide as Ehelp.
  { cbn. rewrite decide_True by done. by eexists _, _, _. }
  case_decide as Ehist.
  { destruct (print_rows_defined (show_history (hist w1)) w1)
      as (w' & Hrun & _ & _ & _ & Hhist); [by apply show_history_rows|].
    rewrite Hrun. cbn. rewrite decide_True by done.
    eexists _, _, _. split; [done|]. cbn [tty]. by rewrite Hhist. }
  cbn [mbind option_bind]. rewrite decide_False by (intros H; by apply H).
  cbn [tty proc chdirs].
  destruct (execute_pipeline_defined env (c :: more) (proc s)) as [sh ->];
    [done|].
  by eexists _, _, _.
Qed.

(** In a fresh shell [cd] alone, with HOME unset, is such a round: it
    reports "cd failed" and goes on, the line in the history. *)
Lemma main_iteration_defined_witness :
  history_wf (hist (tty session_init))
  ∧ ∃ f s' input',
      main_iteration env_ok no_home (keys "cd" ++ [Some LF]) session_init
      = Some (f, s', input')
      ∧ history_wf (hist (tty s'))
      ∧ 0 ≤ history_count (hist (tty s')) ≤ 0 + 1.
Proof.
  split; [exact history_init_wf|].
  destruct (main_iteration_defined env_ok no_home (keys "cd" ++ [Some LF])
              session_init history_init_wf
              ltac:(unfold MAX_HISTORY; simpl; lia)) as [H|[H _]].
  - exact H.
  - exfalso. vm_compute in H. discriminate H.
Defined.

(** ** Raw mode *)

(** X24.  [enableRawMode] remembers the attributes it finds and switches
    off canonical mode and echo, bits 1 and 3 of [c_lflag] on Linux; every
    other flag of the terminal stays as it was. *)
Theorem raw_mode_clears_two_flags w (i : nat) :
  orig_termios (enableRawMode w) = term w
  ∧ Z.testbit (c_lflag (term (enableRawMode w))) (Z.of_nat i)
    = if decide (i = 1%nat ∨ i = 3%nat) then false
      else Z.testbit (c_lflag (term w)) (Z.of_nat i).
Proof.
  split; [done|]. simpl. rewrite Z.land_spec, Z.lnot_spec by lia.
  change (Z.lor ICANON ECHO) with 10.
  destruct i as [|[|[|[|i]]]]; try (by rewrite andb_true_r);
    try (by rewrite andb_false_r).
  rewrite decide_False by lia.
  rewrite (Z.bits_above_log2 10) by (change (Z.log2 10) with 3; lia).
  by rewrite andb_true_r.
Qed.

(** ** The [history] command *)

Lemma print_rows_numbered ls :
  ∀ first w,
    ∃ w', print_rows (numbered first ls) w = Some w'
          ∧ stdout w'
            = stdout w ++ zip_with row_text
                            (seqZ first (Z.of_nat (length ls))) ls.
Proof.
  unfold numbered.
  induction ls as [|l ls IH]; intros first w.
  - exists w. simpl. by rewrite app_nil_r.
  - rewrite fmap_cons. cbn [length].
    rewrite Nat2Z.inj_succ, seqZ_cons by lia. cbn [zip_with print_rows].
    cbn [fst snd mbind option_bind].
    replace (Z.pred (Z.succ (Z.of_nat (length ls)))) with (Z.of_nat (length ls))
      by lia.
    destruct (IH (Z.succ first) (printf (fmt_d first ++ chars ": " ++ l ++ [LF]) w))
      as (w' & Hrun & Hout).
    exists w'. split; [done|]. rewrite Hout. simpl. by rewrite <- app_assoc.
Qed.

(** X25.  While the history holds no more than [MAX_HISTORY] lines, the
    [history] command prints them all, oldest first, one per line as
    "number: text" with the numbers running from 1, and does nothing else. *)
Theorem history_command_lists_lines d c s (lines : list cstring) :
  head (args c) = Some (chars "history") →
  hist (tty s) = submit_all lines →
  Forall (λ l, l ≠ []) lines → (length lines ≤ 100)%nat →
  ∃ s',
    execute_builtin d c s = Some (1, s')
    ∧ stdout (tty s')
      = stdout (tty s)
        ++ zip_with row_text (seqZ 1 (Z.of_nat (length lines))) lines
    ∧ proc s' = proc s ∧ chdirs s' = chdirs s.
Proof.
  intros Ha0 Hhist Hne Hn. unfold execute_builtin. rewrite Ha0.
  cbn [mbind option_bind]. rewrite !decide_False by done.
  rewrite decide_True by done.
  rewrite Hhist, listing_within_capacity by done.
  destruct (print_rows_numbered lines 1 (tty s)) as (w' & Hrun & Hout).
  rewrite Hrun. cbn [mbind option_bind]. by eexists.
Qed.

Lemma history_command_lists_lines_witness :
  Forall (λ l, l ≠ []) [chars "ls"; chars "history"]
  ∧ ∃ s',
      execute_builtin no_home (mkCommand [chars "history"] None None 0 0)
        (Session (world_with (submit_all [chars "ls"; chars "history"]))
                 shell_init [])
      = Some (1, s')
      ∧ stdout (tty s') = [chars "1: ls" ++ [LF]; chars "2: history" ++ [LF]]
      ∧ proc s' = shell_init ∧ chdirs s' = [].
Proof.
  assert (H : Forall (λ l : list ascii, l ≠ []) [chars "ls"; chars "history"]).
  { by repeat constructor. }
  split; [exact H|].
  exact (history_command_lists_lines no_home
           (mkCommand [chars "history"] None None 0 0)
           (Session (world_with (submit_all [chars "ls"; chars "history"]))
                    shell_init [])
           [chars "ls"; chars "history"] eq_refl eq_refl H
           ltac:(simpl; lia)).
Defined.
